(** * Interactive enhancements: a shallow embedding of
      [assets/interactive-enhancements.js]

    The script is an IIFE that defines a [Utils] object, nine enhancement
    objects and one [DOMContentLoaded] listener.  This development embeds
    the parts of it that the specification speaks about:

    - the string pipeline of [Utils.getCurrentPageName];
    - [Utils.debounce], over a host timer table;
    - [easeInOutCubic], over exact rationals;
    - the DOM-facing code of the navigation, form and tab enhancements,
      over a document tree with element identities, a listener registry and
      JavaScript's [this] binding;
    - the [DOMContentLoaded] listener.

    Part I holds the definitions, Part II the theorems. *)

From Stdlib Require Import QArith Lia Lqa Ascii String.
From stdpp Require Import gmap strings list.

(* ===================================================================== *)
(** * Part I: definitions                                                 *)
(* ===================================================================== *)

(** ** Completions

    A JavaScript call either returns a value or throws.  The script has no
    [try]/[catch], so a thrown exception always unwinds to the host. *)

Inductive Exn :=
  | TypeError (message : string)
  | URIError (message : string).

Inductive Completion (A : Type) :=
  | Normal (value : A)
  | Throw (e : Exn).
Arguments Normal {A} value.
Arguments Throw {A} e.

Definition returns {A : Type} (c : Completion A) : Prop :=
  exists v, c = Normal v.

Definition throws {A : Type} (c : Completion A) : Prop :=
  exists e, c = Throw e.

(** ** Strings

    A JavaScript string is modelled by the [string] of its UTF-8 octets.
    Every pattern the script searches for is ASCII, and an ASCII octet never
    occurs inside a multi-octet sequence, so searching octets and searching
    UTF-16 code units find the same occurrences. *)

Module JSString.

(** [s.split(sep)] for a one-character separator: never an empty array. *)
Fixpoint split (sep : ascii) (s : string) : list string :=
  match s with
  | EmptyString => [EmptyString]
  | String c s' =>
      if decide (c = sep) then EmptyString :: split sep s'
      else match split sep s' with
           | seg :: segs => String c seg :: segs
           | [] => [String c EmptyString]
           end
  end.

(** [a.pop()]: the last element, [undefined] ([None]) on an empty array. *)
Definition pop (a : list string) : option string := last a.

Fixpoint startsWith (pat s : string) : bool :=
  match pat, s with
  | EmptyString, _ => true
  | String p pat', String c s' =>
      if decide (p = c) then startsWith pat' s' else false
  | String _ _, EmptyString => false
  end.

Fixpoint skip (n : nat) (s : string) : string :=
  match n, s with
  | S n', String _ s' => skip n' s'
  | _, _ => s
  end.

(** [s.replace(pat, rep)] with a string pattern: only the first
    occurrence is replaced.  The script's replacement strings are empty,
    so no [$] pattern of the replacement is involved. *)
Fixpoint replace (pat rep s : string) : string :=
  if startsWith pat s then rep +:+ skip (String.length pat) s
  else match s with
       | EmptyString => EmptyString
       | String c s' => String c (replace pat rep s')
       end.

(** [s.includes(pat)]. *)
Fixpoint includes (pat s : string) : bool :=
  if startsWith pat s then true
  else match s with
       | EmptyString => false
       | String _ s' => includes pat s'
       end.

Fixpoint mem (c : ascii) (s : string) : bool :=
  match s with
  | EmptyString => false
  | String d s' => if decide (d = c) then true else mem c s'
  end.

(** *** [decodeURIComponent]

    ECMAScript's [Decode] with an empty reserved set.  A ["%"] must be
    followed by two hexadecimal digits.  An octet below 0x80 stands for
    itself; an octet with [n] leading one bits opens a sequence of [n]
    escaped octets ([n] = 1 or [n] > 4 is malformed) that must be a
    well-formed UTF-8 encoding.  Anything else throws [URIError]. *)

Definition hexDigit (c : ascii) : option N :=
  let n := N_of_ascii c in
  if ((48 <=? n) && (n <=? 57))%N then Some (n - 48)%N
  else if ((65 <=? n) && (n <=? 70))%N then Some (n - 55)%N
  else if ((97 <=? n) && (n <=? 102))%N then Some (n - 87)%N
  else None.

Definition hexOctet (hi lo : ascii) : option N :=
  match hexDigit hi, hexDigit lo with
  | Some h, Some l => Some (16 * h + l)%N
  | _, _ => None
  end.

Definition leadingOnes (b : N) : nat :=
  if (b <? 128)%N then 0
  else if (b <? 192)%N then 1
  else if (b <? 224)%N then 2
  else if (b <? 240)%N then 3
  else if (b <? 248)%N then 4
  else 5.

Definition within (lo hi b : N) : bool := ((lo <=? b) && (b <=? hi))%N.

(** Well-formed UTF-8 octet sequences of length two to four (no overlong
    forms, no surrogates, nothing above U+10FFFF). *)
Definition validUTF8 (octets : list N) : bool :=
  match octets with
  | [b1; b2] => within 194 223 b1 && within 128 191 b2
  | [b1; b2; b3] =>
      ((b1 =? 224)%N && within 160 191 b2
       || within 225 236 b1 && within 128 191 b2
       || (b1 =? 237)%N && within 128 159 b2
       || within 238 239 b1 && within 128 191 b2)
      && within 128 191 b3
  | [b1; b2; b3; b4] =>
      ((b1 =? 240)%N && within 144 191 b2
       || within 241 243 b1 && within 128 191 b2
       || (b1 =? 244)%N && within 128 143 b2)
      && within 128 191 b3 && within 128 191 b4
  | _ => false
  end.

Definition emit (octets : list N) (s : string) : string :=
  fold_right (fun b acc => String (ascii_of_N b) acc) s octets.

(** [decode s octets more]: [more] escaped octets are still owed to the
    sequence whose first octets are [octets]; [more = 0] between
    sequences.  [None] is the thrown [URIError]. *)
Fixpoint decode (s : string) (octets : list N) (more : nat) : option string :=
  match more with
  | 0 =>
      match s with
      | EmptyString => Some EmptyString
      | String c rest =>
          if decide (c = "%"%char) then
            match rest with
            | String hi (String lo rest') =>
                match hexOctet hi lo with
                | None => None
                | Some b =>
                    match leadingOnes b with
                    | 0 => String (ascii_of_N b) <$> decode rest' [] 0
                    | 1 => None
                    | S n => if decide (4 <= n) then None
                             else decode rest' [b] n
                    end
                end
            | _ => None
            end
          else String c <$> decode rest [] 0
      end
  | S m =>
      match s with
      | String pct (String hi (String lo rest')) =>
          if decide (pct = "%"%char) then
            match hexOctet hi lo with
            | None => None
            | Some b =>
                match m with
                | 0 => if validUTF8 (octets ++ [b])
                       then emit (octets ++ [b]) <$> decode rest' [] 0
                       else None
                | S _ => decode rest' (octets ++ [b]) m
                end
            end
          else None
      | _ => None
      end
  end.

Definition decodeURIComponent (s : string) : Completion string :=
  match decode s [] 0 with
  | Some r => Normal r
  | None => Throw (URIError "URI malformed")
  end.

(** *** Words of the specification, for comparison with the code *)

(** [seg] is the last path segment of [path]: it has no separator and is
    either all of [path] or what follows its last separator. *)
Definition LastSegment (sep : ascii) (path seg : string) : Prop :=
  mem sep seg = false /\
  (path = seg \/ exists pre, path = pre +:+ String sep seg).

Definition OccursAt (pat s before : string) : Prop :=
  exists after, s = before +:+ pat +:+ after.

(** [r] is [s] with the first occurrence of [pat] removed ([s] itself
    when [pat] does not occur). *)
Definition FirstRemoved (pat s r : string) : Prop :=
  (r = s /\ forall before, ~ OccursAt pat s before) \/
  (exists before after,
      s = before +:+ pat +:+ after /\ r = before +:+ after /\
      forall before', OccursAt pat s before' ->
                      String.length before <= String.length before').

End JSString.

(** ** [Utils.getCurrentPageName]

    [window.location.pathname] is the only input.  [filename] would be
    [undefined] only on an empty array, and [undefined.replace] would then
    be a [TypeError]. *)

Definition getCurrentPageName (pathname : string) : Completion string :=
  let path := pathname in
  match JSString.pop (JSString.split "/" path) with
  | None => Throw (TypeError "filename is undefined")
  | Some filename =>
      let replaced := JSString.replace ".html" "" filename in
      let pageName := if decide (replaced = "") then "homepage" else replaced in
      JSString.decodeURIComponent pageName
  end.

(** ** [easeInOutCubic]

    The interpolation of the scroll-to-top animation, over exact rationals
    instead of doubles.  [t /= d / 2] divides by [d / 2]; in [Q] a division
    by zero yields zero, so the theorems about it assume [d] is not zero. *)

Module Easing.
Local Open Scope Q_scope.

Definition easeInOutCubic (t b c d : Q) : Q :=
  let t := t / (d / 2) in
  if Qlt_le_dec t 1 then c / 2 * t * t * t + b
  else
    let t := t - 2 in
    c / 2 * (t * t * t + 2) + b.

End Easing.

(** ** [Utils.debounce]

    The host keeps a table of pending one-shot timers.  [setTimeout] takes
    a fresh handle and files the callback under it with its due time;
    [clearTimeout] drops a handle, and ignores [undefined] and handles that
    are no longer pending. *)

Module Debounce.
Section Timers.
Context {Task : Type}.

Record Host := mkHost {
  now : nat;
  nextId : nat;
  pending : gmap nat (nat * Task)
}.

Definition setTimeout (callback : Task) (delay : nat) (h : Host) : nat * Host :=
  (nextId h,
   mkHost (now h) (S (nextId h))
          (<[nextId h := (now h + delay, callback)]> (pending h))).

Definition clearTimeout (handle : option nat) (h : Host) : Host :=
  match handle with
  | None => h
  | Some i => mkHost (now h) (nextId h) (delete i (pending h))
  end.

(** One unit of time passes. *)
Definition tick (h : Host) : Host :=
  mkHost (S (now h)) (nextId h) (pending h).

(** The host takes timer [i] off the table to run it, if it is due. *)
Definition due (i : nat) (h : Host) : option (Task * Host) :=
  match pending h !! i with
  | Some (dueAt, callback) =>
      if decide (dueAt <= now h)
      then Some (callback, mkHost (now h) (nextId h) (delete i (pending h)))
      else None
  | None => None
  end.

(** The closure state of one [debounce(func, wait)] result: the variable
    [timeout], next to the host it arms timers on. *)
Record System := mkSystem { host : Host; timeout : option nat }.

(** [executedFunction(...args)]: [later] is the arrow function built for
    this call, which captures [args].
<<
    clearTimeout(timeout);
    timeout = setTimeout(later, wait);
>> *)
Definition executedFunction (wait : nat) (later : Task) (s : System) : System :=
  let h := clearTimeout (timeout s) (host s) in
  let '(i, h') := setTimeout later wait h in
  mkSystem h' (Some i).

(** The first statement of [later]: [clearTimeout(timeout)].  Its second
    statement, [func(...args)], is the caller's to run. *)
Definition laterClears (s : System) : System :=
  mkSystem (clearTimeout (timeout s) (host s)) (timeout s).

End Timers.
Arguments Host : clear implicits.
Arguments System : clear implicits.

(** *** One wrapper and its host, closed

  The wrapper is called, time passes, and the host runs due timers.  A
  [later] closure is identified with the arguments it captured, so the
  task type is the argument type. *)
Section Wrapper.
Context {Args : Type}.
Variable wait : nat.

Inductive Event :=
  | Call (args : Args)
  | Tick
  | Fire (i : nat).

(** One event; the second component is [Some args] when the event made
    [func] run, with the arguments it ran on. *)
Definition step (s : System Args) (e : Event) : System Args * option Args :=
  match e with
  | Call args => (executedFunction wait args s, None)
  | Tick => (mkSystem (tick (host s)) (timeout s), None)
  | Fire i =>
      match due i (host s) with
      | Some (args, h) => (laterClears (mkSystem h (timeout s)), Some args)
      | None => (s, None)
      end
  end.

Definition run (evs : list Event) (s : System Args) : System Args :=
  fold_left (fun s e => fst (step s e)) evs s.

Definition invoked (s : System Args) (e : Event) : option Args :=
  snd (step s e).

(** A wrapper that was never called, on a host with nothing pending. *)
Definition fresh (n0 i0 : nat) : System Args :=
  mkSystem (mkHost n0 i0 ∅) None.

Definition is_call (e : Event) : bool :=
  match e with Call _ => true | _ => false end.

Definition is_tick (e : Event) : bool :=
  match e with Tick => true | _ => false end.

(** Time units that pass during [evs]. *)
Definition elapsed (evs : list Event) : nat :=
  length (filter (fun e => is_tick e = true) evs).

(** After the history [pre], the events [q] hold no wrapper call and no
    run of [func]. *)
Definition quiet (s0 : System Args) (pre q : list Event) : Prop :=
  Forall (fun e => is_call e = false) q /\
  forall q1 e q2, q = q1 ++ e :: q2 -> invoked (run (pre ++ q1) s0) e = None.

(** The state after [evs] has exactly the timer of the last call pending. *)
Definition armed (s0 : System Args) (evs : list Event) (s : System Args) : Prop :=
  exists i dueAt args p q,
    timeout s = Some i /\ pending (host s) = {[ i := (dueAt, args) ]} /\
    evs = p ++ Call args :: q /\ quiet s0 (p ++ [Call args]) q /\
    dueAt + elapsed q = now (host s) + wait.

Definition inv (s0 : System Args) (evs : list Event) (s : System Args) : Prop :=
  (forall i, is_Some (pending (host s) !! i) -> i < nextId (host s)) /\
  (pending (host s) = ∅ \/ armed s0 evs s).

End Wrapper.
End Debounce.

(** ** The document

    Elements carry an identity ([uid]); the document is the tree of its
    elements in document order.  Only elements of the document are
    represented: a handle that names no element of the tree reads as
    [null]. *)

Module ClassList.
(** [DOMTokenList]: an ordered set of tokens. *)
Definition contains (token : string) (l : list string) : bool :=
  bool_decide (token ∈ l).

Definition add (token : string) (l : list string) : list string :=
  if contains token l then l else l ++ [token].

Definition remove (token : string) (l : list string) : list string :=
  filter (fun t => t <> token) l.

Definition toggle (token : string) (l : list string) : list string :=
  if contains token l then remove token l else add token l.
End ClassList.

(** An inline style value: literal text, or a number of pixels
    ([n + 'px'], the number taken as a rational). *)
Inductive StyleValue :=
  | Keyword (text : string)
  | Px (n : Q).

Record Element := mkElement {
  uid : nat;
  tagName : string;                      (* lower case *)
  id : string;                           (* empty when there is no id *)
  classList : list string;
  attributes : list (string * string);
  value : string;
  type : string;
  textContent : string;
  style : list (string * StyleValue)
}.

Definition withClassList (f : list string -> list string) (e : Element) : Element :=
  mkElement (uid e) (tagName e) (id e) (f (classList e)) (attributes e)
            (value e) (type e) (textContent e) (style e).

Definition assign {V : Type} (k : string) (v : V) (l : list (string * V)) : list (string * V) :=
  (k, v) :: filter (fun kv => kv.1 <> k) l.

Definition lookupKey {V : Type} (k : string) (l : list (string * V)) : option V :=
  snd <$> head (filter (fun kv => kv.1 = k) l).

(** [e.style.prop = v]. *)
Definition setStyle (prop : string) (v : StyleValue) (e : Element) : Element :=
  mkElement (uid e) (tagName e) (id e) (classList e) (attributes e)
            (value e) (type e) (textContent e) (assign prop v (style e)).

Definition getAttribute (name : string) (e : Element) : option string :=
  lookupKey name (attributes e).

Definition hasAttribute (name : string) (e : Element) : bool :=
  bool_decide (is_Some (getAttribute name e)).

(** [document.createElement(tag)], then [className] and [textContent]. *)
Definition createElement (u : nat) (tag : string) (className : list string)
                         (text : string) : Element :=
  mkElement u tag "" className [] "" "" text [].

#[warnings="-register-all"]
Inductive Node := mkNode (element : Element) (children : list Node).

Definition root (n : Node) : Element :=
  match n with mkNode e _ => e end.

Definition childNodes (n : Node) : list Node :=
  match n with mkNode _ ks => ks end.

Definition firstSome {A B : Type} (f : A -> option B) (l : list A) : option B :=
  fold_right (fun a r => match f a with Some b => Some b | None => r end) None l.

(** The elements of a subtree, in document order. *)
Fixpoint elementsOf (n : Node) : list Element :=
  match n with
  | mkNode e ks => e :: flat_map elementsOf ks
  end.

Definition uids (n : Node) : list nat := map uid (elementsOf n).

(** The subtree whose root has identity [u]. *)
Fixpoint findNode (u : nat) (n : Node) : option Node :=
  match n with
  | mkNode e ks =>
      if decide (uid e = u) then Some n else firstSome (findNode u) ks
  end.

Definition findElement (u : nat) (n : Node) : option Element :=
  root <$> findNode u n.

(** [u.parentElement]. *)
Fixpoint parentOf (u : nat) (n : Node) : option nat :=
  match n with
  | mkNode e ks =>
      if existsb (fun k => bool_decide (uid (root k) = u)) ks then Some (uid e)
      else firstSome (parentOf u) ks
  end.

Fixpoint ancestorsWithin (fuel : nat) (u : nat) (n : Node) : list nat :=
  match fuel with
  | 0 => []
  | S fuel' =>
      match parentOf u n with
      | Some p => p :: ancestorsWithin fuel' p n
      | None => []
      end
  end.

(** The ancestors of [u], nearest first. *)
Definition ancestors (u : nat) (n : Node) : list nat :=
  ancestorsWithin (length (elementsOf n)) u n.

(** The proper descendants of [u], in document order. *)
Definition descendants (u : nat) (n : Node) : list Element :=
  match findNode u n with
  | Some k => flat_map elementsOf (childNodes k)
  | None => []
  end.

(** [a.contains(b)]: [b] is [a] or a descendant of it. *)
Definition contains (a b : nat) (n : Node) : bool :=
  match findNode a n with
  | Some k => bool_decide (b ∈ uids k)
  | None => false
  end.

(** Apply [f] to the element [u], in place. *)
Fixpoint update (u : nat) (f : Element -> Element) (n : Node) : Node :=
  match n with
  | mkNode e ks =>
      mkNode (if decide (uid e = u) then f e else e) (map (update u f) ks)
  end.

(** [nodes.forEach(x => f(x))] for an in-place [f]. *)
Definition updateAll (us : list nat) (f : Element -> Element) (n : Node) : Node :=
  fold_left (fun d u => update u f d) us n.

(** What [update u f] and [updateAll us f] make of a single element. *)
Definition whenUid (u : nat) (f : Element -> Element) (e : Element) : Element :=
  if decide (uid e = u) then f e else e.

Definition whenAmong (us : list nat) (f : Element -> Element) (e : Element) : Element :=
  if decide (uid e ∈ us) then f e else e.

(** In-place changes keep the identity of an element; the ones of the
    script also keep its [id]. *)
Definition keepsUid (f : Element -> Element) : Prop :=
  forall e, uid (f e) = uid e.

Definition steady (g : Element -> Element) : Prop :=
  forall e, uid (g e) = uid e /\ id (g e) = id e.

(** [c] becomes the last child of the root of [n]. *)
Definition addChild (c : Node) (n : Node) : Node :=
  match n with mkNode e ks => mkNode e (ks ++ [c]) end.

(** [p.appendChild(c)] for a new subtree [c]. *)
Fixpoint appendChild (p : nat) (c : Node) (n : Node) : Node :=
  match n with
  | mkNode e ks =>
      if decide (uid e = p) then addChild c n
      else mkNode e (map (appendChild p c) ks)
  end.

(** [u.remove()]: the subtree of [u] leaves the document. *)
Fixpoint removeNode (u : nat) (n : Node) : Node :=
  match n with
  | mkNode e ks =>
      mkNode e (flat_map (fun k => if decide (uid (root k) = u) then []
                                   else [removeNode u k]) ks)
  end.

(** *** Selectors

    The selector lists the modelled code uses are lists of compound
    selectors over tag names, class names and attribute presence. *)

Inductive Simple :=
  | Tag (name : string)
  | Class (name : string)
  | HasAttribute (name : string).

Definition Selector := list (list Simple).

Definition matchesSimple (s : Simple) (e : Element) : bool :=
  match s with
  | Tag name => bool_decide (tagName e = name)
  | Class name => ClassList.contains name (classList e)
  | HasAttribute name => hasAttribute name e
  end.

Definition matches (sel : Selector) (e : Element) : bool :=
  existsb (forallb (fun s => matchesSimple s e)) sel.

(** [scope.querySelectorAll(sel)], as a static list of identities. *)
Definition querySelectorAll (sel : Selector) (scope : list Element) : list nat :=
  map uid (filter (fun e => matches sel e = true) scope).

Definition querySelector (sel : Selector) (scope : list Element) : option nat :=
  head (querySelectorAll sel scope).

Definition getElementById (i : string) (n : Node) : option nat :=
  if decide (i = "") then None
  else uid <$> head (filter (fun e => id e = i) (elementsOf n)).

(** ** Whitespace, [trim] and the two validation patterns *)

Module Pattern.
Import JSString.

(** UTF-8 octets of a code point of the Basic Multilingual Plane. *)
Definition utf8 (cp : N) : list N :=
  if (cp <? 128)%N then [cp]
  else if (cp <? 2048)%N then [192 + cp / 64; 128 + cp mod 64]%N
  else [224 + cp / 4096; 128 + (cp / 64) mod 64; 128 + cp mod 64]%N.

(** ECMAScript's WhiteSpace and LineTerminator code points: what [trim]
    strips and what [\s] matches. *)
Definition whiteSpaceCodePoints : list N :=
  [9; 10; 11; 12; 13; 32; 160; 5760;
   8192; 8193; 8194; 8195; 8196; 8197; 8198; 8199; 8200; 8201; 8202;
   8232; 8233; 8239; 8287; 12288; 65279]%N.

Definition whiteSpace : list string :=
  map (fun cp => emit (utf8 cp) EmptyString) whiteSpaceCodePoints.

Definition stripPrefix (p s : string) : option string :=
  if startsWith p s then Some (skip (String.length p) s) else None.

(** The rest of [s] after one leading whitespace character. *)
Definition afterSpace (s : string) : option string :=
  firstSome (fun ws => stripPrefix ws s) whiteSpace.

(** The rest of [s] before one trailing whitespace character, on the
    reversed string. *)
Definition afterSpaceRev (r : string) : option string :=
  firstSome (fun ws => stripPrefix (String.rev ws) r) whiteSpace.

Fixpoint dropWhile (next : string -> option string) (fuel : nat) (s : string) : string :=
  match fuel with
  | 0 => s
  | S fuel' =>
      match next s with
      | Some rest => dropWhile next fuel' rest
      | None => s
      end
  end.

(** [s.trim()]. *)
Definition trim (s : string) : string :=
  let s1 := dropWhile afterSpace (String.length s) s in
  String.rev (dropWhile afterSpaceRev (String.length s1) (String.rev s1)).

(** [s.replace(/\s/g, '')]. *)
Fixpoint removeSpaces (fuel : nat) (s : string) : string :=
  match fuel with
  | 0 => s
  | S fuel' =>
      match afterSpace s with
      | Some rest => removeSpaces fuel' rest
      | None =>
          match s with
          | EmptyString => EmptyString
          | String c rest => String c (removeSpaces fuel' rest)
          end
      end
  end.

Fixpoint hasSpace (s : string) : bool :=
  match afterSpace s with
  | Some _ => true
  | None =>
      match s with
      | EmptyString => false
      | String _ rest => hasSpace rest
      end
  end.

(** [[^\s@]+] matches all of [s]. *)
Definition plainRun (s : string) : bool :=
  negb (bool_decide (s = EmptyString)) && negb (mem "@" s) && negb (hasSpace s).

(** [s] is [b ++ "." ++ c] with [b] and [c] not empty. *)
Fixpoint dotInside (s : string) : bool :=
  match s with
  | String _ (String d rest as tail) =>
      (bool_decide (d = "."%char) && negb (bool_decide (rest = EmptyString)))
      || dotInside tail
  | _ => false
  end.

Fixpoint cutAt (c : ascii) (s : string) : option (string * string) :=
  match s with
  | EmptyString => None
  | String d rest =>
      if decide (d = c) then Some (EmptyString, rest)
      else match cutAt c rest with
           | Some (a, b) => Some (String d a, b)
           | None => None
           end
  end.

(** [/^[^\s@]+@[^\s@]+\.[^\s@]+$/.test(s)]: the local part ends at the
    first ["@"], and what follows has no ["@"], no whitespace and a dot
    that is neither its first nor its last character. *)
Definition emailRegex (s : string) : bool :=
  match cutAt "@" s with
  | Some (a, rest) => plainRun a && plainRun rest && dotInside rest
  | None => false
  end.

Definition isDigit (lo : N) (c : ascii) : bool :=
  within lo 57 (N_of_ascii c).

Fixpoint allDigits (s : string) : bool :=
  match s with
  | EmptyString => true
  | String c rest => isDigit 48 c && allDigits rest
  end.

(** [/^[\+]?[1-9][\d]{0,15}$/.test(s)]. *)
Definition phoneRegex (s : string) : bool :=
  let digits := match s with
                | String "+" rest => rest
                | _ => s
                end in
  match digits with
  | String c rest =>
      isDigit 49 c && allDigits rest && bool_decide (String.length rest <= 15)
  | EmptyString => false
  end.

End Pattern.

(** ** The page: host state, listeners and timers *)

Record Rect := mkRect { left : Q; width : Q }.

(** What the script reads from [window] and [document] and never writes. *)
Record Env := mkEnv {
  pathname : string;
  href : string;
  title : string;
  innerWidth : nat;
  boundingClientRect : nat -> Rect
}.

(** Where a listener is registered or an event is aimed. *)
Inductive Target :=
  | AtElement (u : nat)
  | AtDocument
  | AtWindow.

#[global] Instance Target_eq_dec : EqDecision Target.
Proof. solve_decision. Defined.

Record Event := mkEvent {
  eventType : string;
  target : Target;
  propagationStopped : bool;
  defaultPrevented : bool
}.

Definition stopPropagation (e : Event) : Event :=
  mkEvent (eventType e) (target e) true (defaultPrevented e).

Definition preventDefault (e : Event) : Event :=
  mkEvent (eventType e) (target e) (propagationStopped e) true.

(** The value of [this] inside a called function. *)
Inductive Receiver :=
  | ThisUndefined
  | ThisElement (u : nat)
  | ThisDocument
  | ThisWindow
  | ThisFormEnhancement
  | ThisTabEnhancement.

(** The function values the modelled code hands to [addEventListener]:
    each constructor is one function expression of the script, with the
    variables it closes over. *)
Inductive Callback :=
  | MobileMenuToggle (mobileMenu : nat)
  | MobileMenuOutside (mobileMenu mobileMenuButton : nat)
  | MobileMenuResize (mobileMenu : nat)
  | FieldBlur
  | FieldInput
  | FormSubmit
  | TabClick
  | Debounced (cell wait : nat) (func : Callback).

(** The function values handed to [setTimeout]. *)
Inductive Task :=
  | Later (cell : nat) (func : Callback) (args : Event)
  | FadeIn (selectedContent : nat).

Record Listener := mkListener {
  listenerTarget : Target;
  listenerType : string;
  listenerCallback : Callback
}.

Record World := mkWorld {
  env : Env;
  document : Node;
  listeners : list Listener;
  timers : Debounce.Host Task;
  cells : list (option nat);     (* the [timeout] variable of each debounce closure *)
  nextUid : nat;
  console : list (list string)
}.

Definition withDocument (f : Node -> Node) (w : World) : World :=
  mkWorld (env w) (f (document w)) (listeners w) (timers w) (cells w)
          (nextUid w) (console w).

Definition withTimers (h : Debounce.Host Task) (c : list (option nat)) (w : World) : World :=
  mkWorld (env w) (document w) (listeners w) h c (nextUid w) (console w).

(** [console.log(...)]. *)
Definition consoleLog (entry : list string) (w : World) : World :=
  mkWorld (env w) (document w) (listeners w) (timers w) (cells w)
          (nextUid w) (console w ++ [entry]).

(** [target.addEventListener(type, callback)]. *)
Definition addEventListener (t : Target) (ty : string) (cb : Callback) (w : World) : World :=
  mkWorld (env w) (document w) (listeners w ++ [mkListener t ty cb])
          (timers w) (cells w) (nextUid w) (console w).

(** [document.createElement] followed by [parent.appendChild]: the new
    element takes the next free identity. *)
Definition appendNew (p : nat) (tag : string) (className : list string)
                     (text : string) (w : World) : World :=
  mkWorld (env w)
          (appendChild p (mkNode (createElement (nextUid w) tag className text) [])
                       (document w))
          (listeners w) (timers w) (cells w) (S (nextUid w)) (console w).

(** [setTimeout(task, delay)], the handle dropped. *)
Definition schedule (task : Task) (delay : nat) (w : World) : World :=
  withTimers (snd (Debounce.setTimeout task delay (timers w))) (cells w) w.

(** [Utils.debounce(func, wait)]: a new closure with its own [timeout]. *)
Definition debounce (func : Callback) (wait : nat) (w : World) : Callback * World :=
  (Debounced (length (cells w)) wait func,
   withTimers (timers w) (cells w ++ [None]) w).

(** A world-level action: a completion and the world it leaves. *)
Definition Action (A : Type) : Type := World -> Completion A * World.

Definition notAFunction (name : string) : Exn :=
  TypeError (name +:+ " is not a function").

Definition cannotRead (name : string) : Exn :=
  TypeError ("Cannot read properties of undefined (reading '" +:+ name +:+ "')").

(** ** Property lookup on [this]

    The four methods below are own properties of the [FormEnhancement]
    object literal.  The script never copies them anywhere else, so they
    are found on that object and on nothing else; in particular a DOM
    element has no property of these names. *)

Inductive Method :=
  | ValidateField
  | ShowFieldError
  | ValidateForm
  | ShowSuccessMessage.

Definition methodNamed (name : string) : option Method :=
  if decide (name = "validateField") then Some ValidateField
  else if decide (name = "showFieldError") then Some ShowFieldError
  else if decide (name = "validateForm") then Some ValidateForm
  else if decide (name = "showSuccessMessage") then Some ShowSuccessMessage
  else None.

Definition getMethod (this : Receiver) (name : string) : option Method :=
  match this with
  | ThisFormEnhancement => methodNamed name
  | _ => None
  end.

(** ** [FormEnhancement] *)

Definition fieldErrorClass : list string :=
  ["field-error"; "text-error"; "text-sm"; "mt-1"].

(** [FormEnhancement.showFieldError], called with [this] bound.
    [this.parentElement] is read twice, before and after
    [existingError.remove()]: when the first [.field-error] under the
    parent is the field itself, the field has left the document by the
    second read, its parent is [null], and [appendChild] is not reached.
    The element made by [document.createElement] is then left detached. *)
Definition showFieldError (this : Receiver) (message : string) : Action unit :=
  fun w =>
    match this with
    | ThisElement u =>
        match parentOf u (document w) with
        | None => (Throw (TypeError "Cannot read properties of null (reading 'querySelector')"), w)
        | Some parentElement =>
            (* Remove existing error message *)
            let existingError :=
              querySelector [[Class "field-error"]]
                            (descendants parentElement (document w)) in
            let w := match existingError with
                     | Some x => withDocument (removeNode x) w
                     | None => w
                     end in
            (* Add new error message *)
            match parentOf u (document w) with
            | None =>
                (Throw (TypeError "Cannot read properties of null (reading 'appendChild')"), w)
            | Some parentElement =>
                (Normal tt, appendNew parentElement "div" fieldErrorClass message w)
            end
        end
    | ThisUndefined => (Throw (cannotRead "parentElement"), w)
    | ThisDocument =>
        (Throw (TypeError "Cannot read properties of null (reading 'querySelector')"), w)
    | _ => (Throw (cannotRead "querySelector"), w)
    end.

(** [this.showFieldError(message)] as [validateField] writes it: the
    method is looked up on [this]. *)
Definition callShowFieldError (this : Receiver) (message : string) : Action unit :=
  fun w =>
    match getMethod this "showFieldError" with
    | Some _ => showFieldError this message w
    | None => (Throw (notAFunction "this.showFieldError"), w)
    end.

Definition setClasses (u : nat) (f : list string -> list string) (w : World) : World :=
  withDocument (update u (withClassList f)) w.

(** What [this.value] reads on an element: a string on the elements whose
    interface has a string [value], a number on [li], [meter] and
    [progress], and [undefined] on every other element. *)
Inductive ValueProperty :=
  | StringValue (s : string)
  | NumberValue
  | NoValue.

Definition stringValued : list string :=
  ["input"; "textarea"; "select"; "button"; "option"; "output"; "data"; "param"].

Definition numberValued : list string := ["li"; "meter"; "progress"].

Definition valueOf (e : Element) : ValueProperty :=
  if bool_decide (tagName e ∈ stringValued) then StringValue (value e)
  else if bool_decide (tagName e ∈ numberValued) then NumberValue
  else NoValue.

(** What [this.type] reads, as far as the comparisons with ['email'] and
    ['tel'] go: of the elements with a string [value], only on [input] and
    [param] can [type] read one of the two. *)
Definition typeOf (e : Element) : string :=
  if bool_decide (tagName e ∈ ["input"; "param"]) then type e else "".

(** [FormEnhancement.validateField], called with [this] bound; an element
    is one of the document. *)
Definition validateField (this : Receiver) : Action bool :=
  fun w =>
    match this with
    | ThisElement u =>
        match findElement u (document w) with
        | None => (Throw (cannotRead "trim"), w)
        | Some field =>
            match valueOf field with
            | NoValue => (Throw (cannotRead "trim"), w)
            | NumberValue => (Throw (notAFunction "this.value.trim"), w)
            | StringValue v =>
                let value := Pattern.trim v in
                let fieldType := typeOf field in
                let required := hasAttribute "required" field in
                (* Remove existing error state *)
                let w := setClasses u (ClassList.remove "error") w in
                let w := setClasses u (ClassList.remove "success") w in
                (* Check required fields *)
                if required && bool_decide (value = "") then
                  let w := setClasses u (ClassList.add "error") w in
                  match callShowFieldError this "This field is required" w with
                  | (Throw e, w) => (Throw e, w)
                  | (Normal _, w) => (Normal false, w)
                  end
                (* Email validation *)
                else if bool_decide (fieldType = "email") && negb (bool_decide (value = ""))
                        && negb (Pattern.emailRegex value) then
                  let w := setClasses u (ClassList.add "error") w in
                  match callShowFieldError this "Please enter a valid email address" w with
                  | (Throw e, w) => (Throw e, w)
                  | (Normal _, w) => (Normal false, w)
                  end
                (* Phone validation *)
                else if bool_decide (fieldType = "tel") && negb (bool_decide (value = ""))
                        && negb (Pattern.phoneRegex
                                   (Pattern.removeSpaces (String.length value) value)) then
                  let w := setClasses u (ClassList.add "error") w in
                  match callShowFieldError this "Please enter a valid phone number" w with
                  | (Throw e, w) => (Throw e, w)
                  | (Normal _, w) => (Normal false, w)
                  end
                (* Success state *)
                else if negb (bool_decide (value = "")) then
                  (Normal true, setClasses u (ClassList.add "success") w)
                else (Normal true, w)
            end
        end
    | ThisUndefined => (Throw (cannotRead "value"), w)
    | _ => (Throw (cannotRead "trim"), w)
    end.

(** [x.validateField()]: the method is looked up on [x]; [callee] is the
    text of the callee expression, for the error message. *)
Definition callValidateField (callee : string) (x : Receiver) : Action bool :=
  fun w =>
    match getMethod x "validateField" with
    | Some _ => validateField x w
    | None => (Throw (notAFunction callee), w)
    end.

Definition formControls : Selector := [[Tag "input"]; [Tag "textarea"]; [Tag "select"]].

(** The [forEach] of [validateForm]: an exception leaves the loop. *)
Fixpoint validateInputs (inputs : list nat) (isValid : bool) : Action bool :=
  fun w =>
    match inputs with
    | [] => (Normal isValid, w)
    | input :: rest =>
        match callValidateField "input.validateField" (ThisElement input) w with
        | (Throw e, w) => (Throw e, w)
        | (Normal ok, w) => validateInputs rest (if ok then isValid else false) w
        end
    end.

(** [FormEnhancement.validateForm], called with [this] bound. *)
Definition validateForm (this : Receiver) : Action bool :=
  fun w =>
    match this with
    | ThisElement u =>
        let inputs := querySelectorAll formControls (descendants u (document w)) in
        validateInputs inputs true w
    | _ => (Throw (notAFunction "this.querySelectorAll"), w)
    end.

Definition callValidateForm (x : Receiver) : Action bool :=
  fun w =>
    match getMethod x "validateForm" with
    | Some _ => validateForm x w
    | None => (Throw (notAFunction "this.validateForm"), w)
    end.

(** ** [NavigationEnhancement.setupMobileMenu] and its listeners *)

Module CONFIG.
Definition scrollOffset : nat := 120.
Definition animationDuration : nat := 300.
Definition mobileBreakpoint : nat := 1024.
Definition stickyThreshold : nat := 200.
End CONFIG.

Definition hasClass (token : string) (u : nat) (d : Node) : bool :=
  match findElement u d with
  | Some e => ClassList.contains token (classList e)
  | None => false
  end.

Definition setStyles (u : nat) (transform opacity : string) (w : World) : World :=
  withDocument (update u (fun e => setStyle "opacity" (Keyword opacity)
                                     (setStyle "transform" (Keyword transform) e))) w.

Definition containsTarget (a : nat) (t : Target) (d : Node) : bool :=
  match t with
  | AtElement x => contains a x d
  | _ => false
  end.

(** The click listener of the mobile menu button. *)
Definition mobileMenuToggle (mobileMenu : nat) (e : Event) (w : World) : Event * World :=
  let e := stopPropagation e in
  let w := setClasses mobileMenu (ClassList.toggle "hidden") w in
  (* Add slide animation *)
  if negb (hasClass "hidden" mobileMenu (document w))
  then (e, setStyles mobileMenu "translateY(0)" "1" w)
  else (e, setStyles mobileMenu "translateY(-10px)" "0" w).

(** The click listener of [document]: close the menu when clicking
    outside. *)
Definition mobileMenuOutside (mobileMenu mobileMenuButton : nat) (e : Event) (w : World) : World :=
  if negb (containsTarget mobileMenu (target e) (document w))
     && negb (containsTarget mobileMenuButton (target e) (document w))
  then setStyles mobileMenu "translateY(-10px)" "0"
         (setClasses mobileMenu (ClassList.add "hidden") w)
  else w.

(** The debounced resize listener of [window]. *)
Definition mobileMenuResize (mobileMenu : nat) (w : World) : World :=
  if decide (CONFIG.mobileBreakpoint <= innerWidth (env w))
  then setClasses mobileMenu (ClassList.add "hidden") w
  else w.

Definition setupMobileMenu : Action unit :=
  fun w =>
    let mobileMenuButton :=
      querySelector [[Class "btn-ghost"; Class "lg:hidden"]] (elementsOf (document w)) in
    let mobileMenu := getElementById "mobileMenu" (document w) in
    match mobileMenuButton, mobileMenu with
    | Some button, Some menu =>
        (* Toggle mobile menu *)
        let w := addEventListener (AtElement button) "click" (MobileMenuToggle menu) w in
        (* Close menu when clicking outside *)
        let w := addEventListener AtDocument "click" (MobileMenuOutside menu button) w in
        (* Close menu on window resize *)
        let '(wrapper, w) := debounce (MobileMenuResize menu) 250 w in
        (Normal tt, addEventListener AtWindow "resize" wrapper w)
    | _, _ => (Normal tt, w)
    end.

(** ** [TabEnhancement] *)

Definition tabButtons : Selector := [[Class "irrigation-tab"]; [Class "tab-button"]].
Definition tabContents : Selector := [[Class "tab-content"]].

(** [TabEnhancement.updateTabIndicator]. *)
Definition updateTabIndicator (activeTab : option nat) : Action unit :=
  fun w =>
    let indicator := querySelector [[Class "tab-indicator"]] (elementsOf (document w)) in
    match indicator, activeTab with
    | Some ind, Some tab =>
        let tabRect := boundingClientRect (env w) tab in
        match parentOf tab (document w) with
        | None =>
            (Throw (TypeError "Cannot read properties of null (reading 'getBoundingClientRect')"), w)
        | Some container =>
            let containerRect := boundingClientRect (env w) container in
            let leftPosition := (left tabRect - left containerRect)%Q in
            let width := width tabRect in
            (Normal tt,
             withDocument (update ind (fun e => setStyle "width" (Px width)
                                                 (setStyle "left" (Px leftPosition) e))) w)
        end
    | _, _ => (Normal tt, w)
    end.

Definition hideContent (e : Element) : Element :=
  withClassList (ClassList.remove "active") (withClassList (ClassList.add "hidden") e).

Definition showContent (e : Element) : Element :=
  setStyle "transform" (Keyword "translateY(10px)")
    (setStyle "opacity" (Keyword "0")
       (withClassList (ClassList.add "active")
          (withClassList (ClassList.remove "hidden") e))).

(** [TabEnhancement.switchTab(tabId, clickedTab)], called on the
    [TabEnhancement] object, so that [this.updateTabIndicator] is
    [TabEnhancement.updateTabIndicator]. *)
Definition switchTab (tabId : string) (clickedTab : option nat) : Action unit :=
  fun w =>
    (* Hide all tab contents *)
    let allContents := querySelectorAll tabContents (elementsOf (document w)) in
    let w := withDocument (updateAll allContents hideContent) w in
    (* Show selected tab content *)
    let selectedContent := getElementById (tabId +:+ "-content") (document w) in
    let w := match selectedContent with
             | Some sel => schedule (FadeIn sel) 50 (withDocument (update sel showContent) w)
             | None => w
             end in
    (* Update tab button states *)
    let allTabs := querySelectorAll tabButtons (elementsOf (document w)) in
    let w := withDocument
               (updateAll allTabs (withClassList (ClassList.remove "active"))) w in
    match clickedTab with
    | Some tab =>
        updateTabIndicator (Some tab) (setClasses tab (ClassList.add "active") w)
    | None => (Normal tt, w)
    end.

Module OnClick.
Import JSString.

Fixpoint untilQuote (s : string) : string * string :=
  match s with
  | EmptyString => (EmptyString, EmptyString)
  | String c rest =>
      if decide (c = "'"%char) then (EmptyString, s)
      else let '(a, b) := untilQuote rest in (String c a, b)
  end.

Definition matchHere (s : string) : option string :=
  match Pattern.stripPrefix "switchTab('" s with
  | Some rest =>
      let '(captured, after) := untilQuote rest in
      if negb (bool_decide (captured = EmptyString)) && startsWith "')" after
      then Some captured else None
  | None => None
  end.

(** [s.match(/switchTab\('([^']+)'\)/)?.[1]]: the first capture of the
    leftmost match. *)
Fixpoint switchTabArgument (s : string) : option string :=
  match matchHere s with
  | Some captured => Some captured
  | None =>
      match s with
      | EmptyString => None
      | String _ rest => switchTabArgument rest
      end
  end.
End OnClick.

(** A string in a condition or to the left of [||]: empty is falsy. *)
Definition truthy (s : option string) : option string :=
  match s with
  | Some EmptyString => None
  | _ => s
  end.

(** The click listener of a tab button. *)
Definition tabClick (this : Receiver) (e : Event) : World -> Completion unit * (Event * World) :=
  fun w =>
    let e := preventDefault e in
    match this with
    | ThisElement u =>
        match findElement u (document w) with
        | Some button =>
            let tabId :=
              match truthy (getAttribute "data-tab" button) with
              | Some t => Some t
              | None => getAttribute "onclick" button ≫= OnClick.switchTabArgument
              end in
            match truthy tabId with
            | Some t => let '(c, w) := switchTab t (Some u) w in (c, (e, w))
            | None => (Normal tt, (e, w))
            end
        | None => (Throw (cannotRead "getAttribute"), (e, w))
        end
    | _ => (Throw (notAFunction "this.getAttribute"), (e, w))
    end.

Definition setupTabSwitching : Action unit :=
  fun w =>
    let buttons := querySelectorAll tabButtons (elementsOf (document w)) in
    (Normal tt,
     fold_left (fun w button => addEventListener (AtElement button) "click" TabClick w)
               buttons w).

(** ** [FormEnhancement.setupFormValidation] *)

Definition setupFormValidation : Action unit :=
  fun w =>
    let forms := querySelectorAll [[Tag "form"]] (elementsOf (document w)) in
    (Normal tt,
     fold_left
       (fun w form =>
          let inputs := querySelectorAll formControls (descendants form (document w)) in
          let w :=
            fold_left
              (fun w input =>
                 (* Real-time validation *)
                 let w := addEventListener (AtElement input) "blur" FieldBlur w in
                 let '(wrapper, w) := debounce FieldInput 300 w in
                 addEventListener (AtElement input) "input" wrapper w)
              inputs w in
          (* Form submission validation *)
          addEventListener (AtElement form) "submit" FormSubmit w)
       forms w).

(** ** Calling a registered function *)

Definition cellValue (c : nat) (w : World) : option nat :=
  mjoin (cells w !! c).

(** [callback.call(this, e)]. *)
Definition invoke (callback : Callback) (this : Receiver) (e : Event)
  : World -> Completion unit * (Event * World) :=
  fun w =>
    match callback with
    | MobileMenuToggle menu => (Normal tt, mobileMenuToggle menu e w)
    | MobileMenuOutside menu button => (Normal tt, (e, mobileMenuOutside menu button e w))
    | MobileMenuResize menu => (Normal tt, (e, mobileMenuResize menu w))
    | FieldBlur =>
        let '(c, w) := callValidateField "this.validateField" this w in
        match c with
        | Normal _ => (Normal tt, (e, w))
        | Throw x => (Throw x, (e, w))
        end
    | FieldInput =>
        match this with
        | ThisElement u =>
            if hasClass "error" u (document w) then
              let '(c, w) := callValidateField "this.validateField" this w in
              match c with
              | Normal _ => (Normal tt, (e, w))
              | Throw x => (Throw x, (e, w))
              end
            else (Normal tt, (e, w))
        | ThisUndefined => (Throw (cannotRead "classList"), (e, w))
        | _ => (Throw (cannotRead "contains"), (e, w))
        end
    | FormSubmit =>
        let '(c, w) := callValidateForm this w in
        match c with
        | Normal true => (Normal tt, (e, w))
        | Normal false => (Normal tt, (preventDefault e, w))
        | Throw x => (Throw x, (e, w))
        end
    | TabClick => tabClick this e w
    | Debounced cell wait func =>
        (* executedFunction(...args); [this] is not passed on to [func] *)
        let s := Debounce.executedFunction wait (Later cell func e)
                   (Debounce.mkSystem (timers w) (cellValue cell w)) in
        (Normal tt,
         (e, withTimers (Debounce.host s)
                        (<[cell := Debounce.timeout s]> (cells w)) w))
    end.

(** A timer callback, run by the host. *)
Definition runTask (task : Task) : Action unit :=
  fun w =>
    match task with
    | Later cell func args =>
        (* clearTimeout(timeout); func(...args); *)
        let s := Debounce.laterClears (Debounce.mkSystem (timers w) (cellValue cell w)) in
        let '(c, (_, w)) := invoke func ThisUndefined args
                                   (withTimers (Debounce.host s) (cells w) w) in
        (c, w)
    | FadeIn sel => (Normal tt, setStyles sel "translateY(0)" "1" w)
    end.

(** The host runs timer [i] if it is due. *)
Definition fireTimer (i : nat) : Action unit :=
  fun w =>
    match Debounce.due i (timers w) with
    | Some (task, h) => runTask task (withTimers h (cells w) w)
    | None => (Normal tt, w)
    end.

(** ** Event dispatch

    Listeners run at the target and then, for a bubbling event, at each
    ancestor, at [document] and at [window], in registration order.  An
    exception thrown by a listener is reported by the host and does not
    keep the remaining listeners from running. *)

Definition receiverOf (t : Target) : Receiver :=
  match t with
  | AtElement u => ThisElement u
  | AtDocument => ThisDocument
  | AtWindow => ThisWindow
  end.

Definition bubbles (ty : string) : bool :=
  negb (bool_decide (ty ∈ ["blur"; "focus"; "mouseenter"; "mouseleave"; "load"])).

Definition propagationPath (e : Event) (d : Node) : list Target :=
  match target e with
  | AtElement u =>
      AtElement u ::
      (if bubbles (eventType e)
       then map AtElement (ancestors u d) ++ [AtDocument; AtWindow] else [])
  | AtDocument => AtDocument :: (if bubbles (eventType e) then [AtWindow] else [])
  | AtWindow => [AtWindow]
  end.

Definition listenersAt (t : Target) (ty : string) (w : World) : list Callback :=
  listenerCallback <$>
    filter (fun l => listenerTarget l = t /\ listenerType l = ty) (listeners w).

Record Dispatch := mkDispatch {
  reported : list Exn;
  event : Event;
  world : World
}.

Fixpoint runListeners (cbs : list Callback) (this : Receiver) (s : Dispatch) : Dispatch :=
  match cbs with
  | [] => s
  | cb :: rest =>
      let '(c, (e, w)) := invoke cb this (event s) (world s) in
      runListeners rest this
        (mkDispatch (match c with
                     | Normal _ => reported s
                     | Throw x => reported s ++ [x]
                     end) e w)
  end.

Fixpoint propagate (path : list Target) (s : Dispatch) : Dispatch :=
  match path with
  | [] => s
  | t :: rest =>
      let s := runListeners (listenersAt t (eventType (event s)) (world s))
                            (receiverOf t) s in
      if propagationStopped (event s) then s else propagate rest s
  end.

(** The host dispatches an event of type [ty] at [t]. *)
Definition dispatch (ty : string) (t : Target) (w : World) : Dispatch :=
  let e := mkEvent ty t false false in
  propagate (propagationPath e (document w)) (mkDispatch [] e w).

(** ** [Utils.shouldDisableCardAnimations] *)

Definition showBool (b : bool) : string := if b then "true" else "false".

Definition pagesWithDisabledAnimations : list string :=
  ["Center Pivot Irrigation Detail"].

Definition shouldDisableCardAnimations : Action bool :=
  fun w =>
    match getCurrentPageName (pathname (env w)) with
    | Throw x => (Throw x, w)
    | Normal currentPage =>
        (* Multiple detection methods *)
        let isTargetPage :=
          bool_decide (currentPage ∈ pagesWithDisabledAnimations)
          || JSString.includes "Center%20Pivot%20Irrigation%20Detail" (href (env w))
          || JSString.includes "Center Pivot Irrigation Detail" (href (env w))
          || JSString.includes "Center Pivot Irrigation Detail" (title (env w)) in
        (* Debug: Log current page name *)
        let w := consoleLog ["Current page:"; currentPage] w in
        let w := consoleLog ["Current URL:"; href (env w)] w in
        let w := consoleLog ["Document title:"; title (env w)] w in
        let w := consoleLog ["Should disable animations:"; showBool isTargetPage] w in
        (Normal isTargetPage, w)
    end.

(** ** The [DOMContentLoaded] listener *)

Definition disableAnimationsCSS : string :=
  "
                .irrigation-card, .product-image-card, .card, .bg-base-200, .bg-base-100, h1, h2, h3, p {
                    opacity: 1 !important;
                    transform: none !important;
                    filter: none !important;
                    transition: none !important;
                    animation: none !important;
                }
                
                /* Disable any scroll-triggered animations */
                .animated, .text-animated {
                    opacity: 1 !important;
                    transform: none !important;
                }
            ".

Definition animatedSelector : Selector :=
  [[Class "irrigation-card"]; [Class "product-image-card"]; [Class "card"];
   [Class "bg-base-200"]; [Class "bg-base-100"];
   [Tag "h1"]; [Tag "h2"]; [Tag "h3"]; [Tag "p"]].

Definition disableStyles (e : Element) : Element :=
  setStyle "transition" (Keyword "none")
    (setStyle "filter" (Keyword "none")
       (setStyle "transform" (Keyword "none")
          (setStyle "opacity" (Keyword "1") e))).

(** [document.head]. *)
Definition documentHead (d : Node) : option nat :=
  uid <$> head (filter (fun e => tagName e = "head") (root <$> childNodes d)).

(** The body of [if (Utils.shouldDisableCardAnimations()) { ... }]. *)
Definition disableAnimations : Action unit :=
  fun w =>
    let w := consoleLog ["Card animations disabled for this page"] w in
    (* Inject CSS to completely disable animations *)
    match documentHead (document w) with
    | None => (Throw (TypeError "Cannot read properties of null (reading 'appendChild')"), w)
    | Some h =>
        let w := appendNew h "style" [] disableAnimationsCSS w in
        (* Immediately disable all animations *)
        let allElements := querySelectorAll animatedSelector (elementsOf (document w)) in
        (Normal tt, withDocument (updateAll allElements disableStyles) w)
    end.

Inductive Enhancement :=
  | NavigationEnhancement
  | FormEnhancement
  | CardEnhancement
  | TabEnhancement
  | ButtonEnhancement
  | ScrollEnhancement
  | ImageEnhancement
  | PerformanceEnhancement
  | AccessibilityEnhancement.

(** The setup functions whose bodies drive host facilities outside this
    model (observers, layout, computed style, animation frames). *)
Inductive Setup :=
  | setupActiveNavigation | setupSmoothScrolling | setupStickyNavigation
  | setupLanguageSwitcher
  | setupFormSubmission | setupInputEnhancements
  | setupCardHoverEffects | setupCardClickHandlers | setupCardAnimations
  | setupTabIndicator | setupTabAnimations
  | setupButtonEffects | setupCTAButtons
  | setupScrollAnimations | setupScrollToTop | setupParallaxEffects
  | setupEnhancedScrollEffects | setupScrollProgress
  | setupLazyLoading | setupImageZoom | setupImageGallery
  | setupResourcePreloading | setupPerformanceMonitoring
  | setupKeyboardNavigation | setupFocusManagement | setupScreenReaderSupport.

Definition andThen (a b : Action unit) : Action unit :=
  fun w =>
    match a w with
    | (Normal _, w) => b w
    | (Throw x, w) => (Throw x, w)
    end.

(** A run that also records which modules' [init()] it entered. *)
Definition Traced : Type := World -> list Enhancement * (Completion unit * World).

Definition tracedThen (a b : Traced) : Traced :=
  fun w =>
    match a w with
    | (tr, (Normal _, w)) => let '(tr', r) := b w in (tr ++ tr', r)
    | (tr, (Throw x, w)) => (tr, (Throw x, w))
    end.

Definition untraced (a : Action unit) : Traced :=
  fun w => ([], a w).

(** The completion of a traced run. *)
Definition outcome (t : Traced) (w : World) : Completion unit := fst (snd (t w)).

(** [t] enters the modules of [l], in order: always an initial part of
    [l], and all of [l] when it returns. *)
Definition enters (t : Traced) (l : list Enhancement) : Prop :=
  forall w, fst (t w) `prefix_of` l /\ (returns (outcome t w) -> fst (t w) = l).

(** [t] returns from every world. *)
Definition total (t : Traced) : Prop := forall w, returns (outcome t w).

Definition returning (a : Action unit) : Prop := forall w, returns (fst (a w)).

Declare Scope js_scope.
Delimit Scope js_scope with js.
Notation "a ;; b" := (andThen a b) (at level 100, b at level 200) : js_scope.
Notation "a ;;; b" := (tracedThen a b) (at level 100, b at level 200) : js_scope.

Section Page.
(** The host-driven setup functions, each an arbitrary action. *)
Variable host : Setup -> Action unit.

Definition init (m : Enhancement) : Action unit :=
  match m with
  | NavigationEnhancement =>
      host setupActiveNavigation ;; setupMobileMenu ;; host setupSmoothScrolling ;;
      host setupStickyNavigation ;; host setupLanguageSwitcher
  | FormEnhancement =>
      setupFormValidation ;; host setupFormSubmission ;; host setupInputEnhancements
  | CardEnhancement =>
      host setupCardHoverEffects ;; host setupCardClickHandlers ;;
      host setupCardAnimations
  | TabEnhancement =>
      setupTabSwitching ;; host setupTabIndicator ;; host setupTabAnimations
  | ButtonEnhancement =>
      host setupButtonEffects ;; host setupCTAButtons
  | ScrollEnhancement =>
      host setupScrollAnimations ;; host setupScrollToTop ;;
      host setupParallaxEffects ;; host setupEnhancedScrollEffects ;;
      host setupScrollProgress
  | ImageEnhancement =>
      host setupLazyLoading ;; host setupImageZoom ;; host setupImageGallery
  | PerformanceEnhancement =>
      host setupResourcePreloading ;; host setupPerformanceMonitoring
  | AccessibilityEnhancement =>
      host setupKeyboardNavigation ;; host setupFocusManagement ;;
      host setupScreenReaderSupport
  end%js.

(** [if (typeof M !== 'undefined') M.init();] -- the nine objects are
    [const] bindings of the enclosing function, initialised before the
    listener can run, so the test always succeeds. *)
Definition initialize (m : Enhancement) : Traced :=
  fun w => ([m], init m w).

Definition onDOMContentLoaded : Traced :=
  (untraced (fun w =>
     (* Check if animations should be disabled immediately *)
     match shouldDisableCardAnimations w with
     | (Throw x, w) => (Throw x, w)
     | (Normal true, w) => disableAnimations w
     | (Normal false, w) => (Normal tt, w)
     end) ;;;
   (* Initialize all enhancement modules *)
   initialize NavigationEnhancement ;;;
   initialize FormEnhancement ;;;
   initialize CardEnhancement ;;;
   initialize TabEnhancement ;;;
   initialize ButtonEnhancement ;;;
   initialize ScrollEnhancement ;;;
   initialize ImageEnhancement ;;;
   initialize PerformanceEnhancement ;;;
   initialize AccessibilityEnhancement ;;;
   untraced (fun w =>
     (Normal tt, consoleLog ["Interactive enhancements initialized successfully!"] w)))%js.

End Page.

(** The order in which the listener names the nine modules. *)
Definition initializationOrder : list Enhancement :=
  [NavigationEnhancement; FormEnhancement; CardEnhancement; TabEnhancement;
   ButtonEnhancement; ScrollEnhancement; ImageEnhancement;
   PerformanceEnhancement; AccessibilityEnhancement].


(** ** An example page

    A contact page: a mobile menu button and its menu, two tab buttons with
    their panels, and a form with one required text field that holds only
    blanks. *)

Module Example.

Definition el (u : nat) (tag i : string) (classes : list string) : Element :=
  mkElement u tag i classes [] "" "" "" [].

Definition field : Element :=
  mkElement 7 "input" "name" ["input"] [("required", "")] "   " "text" "" [].

Definition html : Node :=
  mkNode (el 0 "html" "" [])
    [ mkNode (el 1 "head" "" []) [];
      mkNode (el 2 "body" "" [])
        [ mkNode (el 3 "button" "" ["btn"; "btn-ghost"; "lg:hidden"]) [];
          mkNode (el 4 "ul" "mobileMenu" ["menu"; "hidden"]) [];
          mkNode (el 5 "form" "" [])
            [ mkNode (el 6 "div" "" ["form-control"]) [ mkNode field [] ] ];
          mkNode (el 8 "button" "" ["tab-button"; "active"]) [];
          mkNode (el 9 "button" "" ["tab-button"]) [];
          mkNode (el 10 "div" "drip-content" ["tab-content"; "active"]) [];
          mkNode (el 11 "div" "pivot-content" ["tab-content"; "hidden"]) [] ] ].

Definition pageAt (path : string) : World :=
  mkWorld (mkEnv path ("https://agrotech.example" +:+ path) "Contact" 800
                 (fun _ => mkRect 0 0))
          html [] (Debounce.mkHost 0 1 ∅) [] 12 [].

Definition contactPage : World := pageAt "/contact.html".

(** Host-driven setup functions that do nothing and return. *)
Definition quietHost : Setup -> Action unit :=
  fun _ w => (Normal tt, w).

End Example.

(** ** More of the script

    The rest of Part I embeds code around the functions above: the other
    page-name function, what a history of a debounced wrapper makes [func]
    run on, the passing of time for the timers of the page, and further
    listeners and setup functions. *)

(** *** [NavigationEnhancement.getCurrentPageId] *)

Definition getCurrentPageId (pathname : string) : Completion string :=
  let path := pathname in
  match JSString.pop (JSString.split "/" path) with
  | None => Throw (TypeError "filename is undefined")
  | Some filename =>
      let replaced := JSString.replace ".html" "" filename in
      Normal (if decide (replaced = "") then "homepage" else replaced)
  end.

(** *** The runs of a debounced [func] *)

Module DebounceRuns.
Import Debounce.
Section Wrapper.
Context {Args : Type}.
Variable wait : nat.

(** One event, with the arguments [func] ran on so far. *)
Definition record (acc : System Args * list Args) (e : @Event Args)
  : System Args * list Args :=
  (fst (step wait (fst acc) e), snd acc ++ option_list (snd (step wait (fst acc) e))).

Definition history (evs : list (@Event Args)) (s : System Args)
  : System Args * list Args :=
  fold_left record evs (s, []).

(** The arguments [func] ran on during [evs], in order. *)
Definition ranOn (evs : list (@Event Args)) (s : System Args) : list Args :=
  snd (history evs s).

(** The arguments the wrapper was called with during [evs], in order. *)
Definition calledWith (evs : list (@Event Args)) : list Args :=
  omap (fun e => match e with Call args => Some args | _ => None end) evs.

(** What the pending timer, if any, still owes: the arguments of the last
    call. *)
Definition owed (s : System Args) : list Args :=
  match timeout s with
  | Some i => match pending (host s) !! i with
              | Some (_, args) => [args]
              | None => []
              end
  | None => []
  end.

End Wrapper.
End DebounceRuns.

(** *** Time on the page *)

(** [n] time units pass. *)
Definition advance (n : nat) (w : World) : World :=
  withTimers (Nat.iter n Debounce.tick (timers w)) (cells w) w.

(** *** [HTMLElement.click()]

    The method does nothing on a form control that is disabled, and
    otherwise dispatches a click at the element.  A [button], [input],
    [select] or [textarea] is disabled when it has the [disabled]
    attribute, or when it is inside a [fieldset] with that attribute and
    not inside that [fieldset]'s first [legend] child.  What the host
    does after the listeners of the click (following a link, submitting a
    form) is outside this model. *)

Definition firstLegend (fieldset : nat) (d : Node) : option Node :=
  findNode fieldset d ≫=
    fun k => head (filter (fun c => tagName (root c) = "legend") (childNodes k)).

Definition disablingFieldset (u a : nat) (d : Node) : bool :=
  match findElement a d with
  | Some f =>
      bool_decide (tagName f = "fieldset") && hasAttribute "disabled" f
      && negb (match firstLegend a d with
               | Some legend => bool_decide (u ∈ uids legend)
               | None => false
               end)
  | None => false
  end.

Definition disabled (u : nat) (d : Node) : bool :=
  match findElement u d with
  | Some e =>
      bool_decide (tagName e ∈ ["button"; "input"; "select"; "textarea"])
      && (hasAttribute "disabled" e
          || existsb (fun a => disablingFieldset u a d) (ancestors u d))
  | None => false
  end.

(** *** [AccessibilityEnhancement.setupKeyboardNavigation]: the keydown
    listener

    The listener is registered on the elements matching ['button, a,
    input, textarea, select'].  Exceptions of click listeners are reported
    by the host inside the dispatch of [this.click()] and do not reach the
    keydown listener.  The result carries them next to the world. *)
Definition keydownActivate (this : Receiver) (key : string) (e : Event) (w : World)
  : Completion unit * (Event * (list Exn * World)) :=
  if bool_decide (key = "Enter") || bool_decide (key = " ") then
    let e := preventDefault e in
    match this with
    | ThisElement u =>
        if disabled u (document w) then (Normal tt, (e, ([], w)))
        else
          let s := dispatch "click" (AtElement u) w in
          (Normal tt, (e, (reported s, world s)))
    | ThisUndefined => (Throw (cannotRead "click"), (e, ([], w)))
    | _ => (Throw (notAFunction "this.click"), (e, ([], w)))
    end
  else (Normal tt, (e, ([], w))).

(** *** Pages whose submit listeners are those of [setupFormValidation] *)

Definition onlyFormSubmit (w : World) : Prop :=
  forall l, l ∈ listeners w -> listenerType l = "submit" -> listenerCallback l = FormSubmit.

(** *** [ScrollEnhancement.setupScrollToTop]: the click listener

    The listener captures [currentScroll = window.pageYOffset] and
    [start = null], and asks for an animation frame.  The host runs a
    requested callback once, with a timestamp; [animation] asks again
    while less than [duration] has elapsed.  [scrolledTo] collects the
    second arguments of [window.scrollTo], oldest first. *)

Module ScrollToTop.
Import Easing.
Local Open Scope Q_scope.

Record Frames := mkFrames {
  start : option Q;
  requested : bool;
  scrolledTo : list Q
}.

Definition targetScroll : Q := 0.
Definition duration : Q := 1000.

Definition animation (currentScroll currentTime : Q) (s : Frames) : Frames :=
  let distance := targetScroll - currentScroll in
  let start := match start s with None => currentTime | Some t => t end in
  let timeElapsed := currentTime - start in
  let run := easeInOutCubic timeElapsed currentScroll distance duration in
  mkFrames (Some start)
           (if Qlt_le_dec timeElapsed duration then true else false)
           (scrolledTo s ++ [run]).

(** The state the click listener leaves. *)
Definition click : Frames := mkFrames None true [].

(** The host renders a frame at time [t]. *)
Definition frame (currentScroll : Q) (s : Frames) (t : Q) : Frames :=
  if requested s then animation currentScroll t s else s.

Definition frames (currentScroll : Q) (ts : list Q) : Frames :=
  fold_left (frame currentScroll) ts click.

(** Timestamps never run backwards. *)
Fixpoint ascending (t0 : Q) (ts : list Q) : Prop :=
  match ts with
  | [] => True
  | t :: ts' => t0 <= t /\ ascending t ts'
  end.

(** Positions never go back up. *)
Fixpoint descending (p0 : Q) (ps : list Q) : Prop :=
  match ps with
  | [] => True
  | p :: ps' => p <= p0 /\ descending p ps'
  end.

(** What holds between the frames of an animation whose first frame came
    at [t0], when the host's last frame came at [tp]. *)
Definition inv (currentScroll t0 : Q) (s : Frames) (tp : Q) : Prop :=
  start s = Some t0 /\
  exists ps tl,
    t0 <= tl /\ tl <= tp /\
    scrolledTo s
    = ps ++ [easeInOutCubic (tl - t0) currentScroll (targetScroll - currentScroll) duration] /\
    descending currentScroll (scrolledTo s) /\
    Forall (fun p => 0 <= p) ps /\
    (if requested s then tl = tp /\ tp - t0 < duration else duration <= tl - t0).

End ScrollToTop.

(** *** A page whose tab buttons carry inline [onclick] handlers *)

Module TabsPage.

Definition tab (u : nat) (classes : list string) (onclick : string) : Element :=
  mkElement u "button" "" classes [("onclick", onclick)] "" "" "" [].

Definition html : Node :=
  mkNode (Example.el 0 "html" "" [])
    [ mkNode (Example.el 1 "head" "" []) [];
      mkNode (Example.el 2 "body" "" [])
        [ mkNode (tab 3 ["irrigation-tab"; "active"] "switchTab('drip')") [];
          mkNode (tab 4 ["irrigation-tab"] "switchTab('pivot'); return false;") [];
          mkNode (Example.el 5 "div" "drip-content" ["tab-content"; "active"]) [];
          mkNode (Example.el 6 "div" "pivot-content" ["tab-content"; "hidden"]) [] ] ].

Definition page : World :=
  mkWorld (mkEnv "/products.html" "https://agrotech.example/products.html" "Products" 800
                 (fun _ => mkRect 0 0))
          html [] (Debounce.mkHost 0 1 ∅) [] 7 [].

End TabsPage.

(** *** The closure cells of debounced listeners *)

(** The cells of the [Utils.debounce] wrappers among [ls], in order. *)
Definition debouncedCells (ls : list Listener) : list nat :=
  omap (fun l => match listenerCallback l with
                 | Debounced cell _ _ => Some cell
                 | _ => None
                 end) ls.

(** Handles kept in closure cells were issued by the host. *)
Definition handlesIssued (w : World) : Prop :=
  forall cell i, cellValue cell w = Some i -> i < Debounce.nextId (timers w).

(** *** [NavigationEnhancement.setupActiveNavigation]

    The two hover listeners of a link are function expressions outside
    [Callback]; their registrations are returned next to the world, in
    the order of the [addEventListener] calls. *)

Module ActiveNavigation.

Inductive Hover :=
  | HoverEnter   (* mouseenter: this.style.transform = 'translateY(-1px)' *)
  | HoverLeave.  (* mouseleave: this.style.transform = 'translateY(0)' *)

Definition hoverType (h : Hover) : string :=
  match h with
  | HoverEnter => "mouseenter"
  | HoverLeave => "mouseleave"
  end.

Definition markActive (currentPageId : string) (link : Element) : Element :=
  let navTarget := getAttribute "data-nav" link in
  if decide (navTarget = Some currentPageId)
  then withClassList (ClassList.add "active") link
  else link.

Definition setupActiveNavigation (w : World)
  : Completion unit * (list (nat * Hover) * World) :=
  match getCurrentPageId (pathname (env w)) with
  | Throw x => (Throw x, ([], w))
  | Normal currentPageId =>
      let navLinks :=
        querySelectorAll [[HasAttribute "data-nav"]] (elementsOf (document w)) in
      (Normal tt,
       (flat_map (fun link => [(link, HoverEnter); (link, HoverLeave)]) navLinks,
        withDocument (updateAll navLinks (markActive currentPageId)) w))
  end.

End ActiveNavigation.

(** *** What a page shows

    Two elements show the same when they agree on identity, tag, id,
    attributes, value, type and text, and on every class other than
    [hidden] and [active]; two documents show the same when their elements
    do, one by one in document order. *)

Definition sameContent (e e' : Element) : Prop :=
  uid e' = uid e /\ tagName e' = tagName e /\ id e' = id e /\
  attributes e' = attributes e /\ value e' = value e /\ type e' = type e /\
  textContent e' = textContent e /\
  forall token, token <> "hidden" -> token <> "active" ->
                (token ∈ classList e' <-> token ∈ classList e).

Definition showsTheSame (d d' : Node) : Prop :=
  Forall2 sameContent (elementsOf d) (elementsOf d').

(** Two elements that differ in inline style at most. *)
Definition sameButStyle (e e' : Element) : Prop :=
  uid e' = uid e /\ tagName e' = tagName e /\ id e' = id e /\
  classList e' = classList e /\ attributes e' = attributes e /\
  value e' = value e /\ type e' = type e /\ textContent e' = textContent e.

(** *** The mobile menu next to the tabs *)

(** No element with the identity of the menu is a tab panel: it has the
    id of the menu and not the class [tab-content]. *)
Definition notATabPanel (menu : nat) (d : Node) : Prop :=
  forall e, e ∈ elementsOf d -> uid e = menu ->
            ("tab-content" ∉ classList e) /\ id e = "mobileMenu".

(** The listeners registered after [setupMobileMenu] for clicks on the
    button are tab listeners. *)
Definition tabClicksAt (button : nat) (later : list Listener) : Prop :=
  Forall (fun l => listenerTarget l = AtElement button -> listenerType l = "click" ->
                   listenerCallback l = TabClick) later.

(** A [Utils.debounce] wrapper with a closure cell other than [cell]. *)
Definition otherWrapper (cell : nat) (cb : Callback) : Prop :=
  match cb with
  | Debounced c _ _ => c <> cell
  | _ => False
  end.

(** The listeners registered after [setupMobileMenu] for [resize] on
    [window] are such wrappers. *)
Definition otherResizeWrappers (cell : nat) (later : list Listener) : Prop :=
  Forall (fun l => listenerTarget l = AtWindow -> listenerType l = "resize" ->
                   otherWrapper cell (listenerCallback l)) later.

(** A page whose menu button is also a tab button and whose menu is a tab
    panel. *)
Module MenuTabPage.

Definition button : Element :=
  mkElement 3 "button" "" ["btn"; "btn-ghost"; "lg:hidden"; "tab-button"]
            [("data-tab", "mobile")] "" "" "" [].

Definition html : Node :=
  mkNode (Example.el 0 "html" "" [])
    [ mkNode (Example.el 1 "head" "" []) [];
      mkNode (Example.el 2 "body" "" [])
        [ mkNode button [];
          mkNode (Example.el 4 "ul" "mobileMenu" ["menu"; "tab-content"; "hidden"]) [] ] ].

Definition page : World :=
  mkWorld (mkEnv "/index.html" "https://agrotech.example/index.html" "Home" 800
                 (fun _ => mkRect 0 0))
          html [] (Debounce.mkHost 0 1 ∅) [] 5 [].


End MenuTabPage.

(* ===================================================================== *)
(** * Part II: theorems                                                   *)
(* ===================================================================== *)

(** ** Strings and [Utils.getCurrentPageName] *)

Module JSStringFacts.
Import JSString.
#[local] Arguments String.append !s1 s2 : simpl nomatch.

Lemma append_assoc (a b c : string) : (a +:+ b) +:+ c = a +:+ (b +:+ c).
Proof. induction a as [|x a IH]; simpl; congruence. Qed.

Lemma length_append (a b : string) :
  String.length (a +:+ b) = String.length a + String.length b.
Proof. induction a as [|x a IH]; simpl; congruence. Qed.

Lemma startsWith_spec pat s :
  startsWith pat s = true <-> exists after, s = pat +:+ after.
Proof.
  revert s. induction pat as [|p pat IH]; intros s; simpl.
  - split; [intros _; by exists s | done].
  - destruct s as [|c s].
    + split; [done | intros [after H]; discriminate].
    + destruct (decide (p = c)) as [->|Hne].
      * rewrite IH. split; intros [after H]; exists after; [by rewrite H | by injection H].
      * split; [done | intros [after H]; injection H; congruence].
Qed.

Lemma skip_append pat after : skip (String.length pat) (pat +:+ after) = after.
Proof. induction pat as [|p pat IH]; simpl; [by destruct after | done]. Qed.

Lemma OccursAt_cons pat c s before :
  OccursAt pat s before -> OccursAt pat (String c s) (String c before).
Proof. intros [after ->]. by exists after. Qed.

(** [replace] removes exactly the first occurrence. *)
Lemma replace_first_removed pat s :
  FirstRemoved pat s (replace pat "" s).
Proof.
  induction s as [|c s IH].
  - destruct pat as [|p pat]; simpl.
    + right. exists "", "". split; [done|]. split; [done|]. intros. simpl. lia.
    + left. split; [done|]. intros before [after H].
      destruct before; discriminate.
  - cbn [replace]. destruct (startsWith pat (String c s)) eqn:Hp.
    + apply startsWith_spec in Hp as [after Hp].
      right. exists "", after. split; [done|]. split.
      * rewrite Hp, skip_append. done.
      * intros. simpl. lia.
    + assert (Hnot : ~ OccursAt pat (String c s) "").
      { intros [after H]. simpl in H.
        assert (startsWith pat (String c s) = true)
          by (apply startsWith_spec; by exists after).
        congruence. }
      destruct IH as [[Hr Hno]|(before & after & Hs & Hr & Hfirst)].
      * left. split; [by rewrite Hr|]. intros before Hocc.
        destruct before as [|x before]; [done|].
        destruct Hocc as [after H]. simpl in H. injection H as -> H.
        apply (Hno before). by exists after.
      * right. exists (String c before), after. split; [by rewrite Hs|].
        split; [by rewrite Hr|]. intros before' Hocc.
        destruct before' as [|x before']; [done|].
        destruct Hocc as [after' H]. simpl in H. injection H as -> H.
        simpl. apply le_n_S, Hfirst. by exists after'.
Qed.

Lemma mem_cons_ne c d s : d <> c -> mem c (String d s) = mem c s.
Proof. intros H. simpl. by destruct (decide (d = c)). Qed.

(** [split] ends with the last segment. *)
Lemma split_last sep s :
  exists init seg,
    split sep s = init ++ [seg] /\ mem sep seg = false /\
    (init = [] /\ s = seg \/
     init <> [] /\ exists pre, s = pre +:+ String sep seg).
Proof.
  induction s as [|c s (init & seg & Hsplit & Hmem & Hshape)].
  - exists [], "". simpl. split; [done|]. split; [done|]. by left.
  - simpl. destruct (decide (c = sep)) as [->|Hne].
    + exists ("" :: init), seg. rewrite Hsplit. split; [done|]. split; [done|].
      right. split; [done|].
      destruct Hshape as [[_ ->]|[_ [pre ->]]]; [by exists "" | by exists (String sep pre)].
    + rewrite Hsplit. destruct Hshape as [[-> ->]|[Hinit [pre ->]]].
      * exists [], (String c seg). simpl. split; [done|].
        split; [by rewrite decide_False|]. by left.
      * destruct init as [|i0 init]; [done|].
        exists (String c i0 :: init), seg. simpl. split; [done|]. split; [done|].
        right. split; [done|]. by exists (String c pre).
Qed.

Lemma pop_split sep s :
  exists seg, pop (split sep s) = Some seg /\ LastSegment sep s seg.
Proof.
  destruct (split_last sep s) as (init & seg & Hsplit & Hmem & Hshape).
  exists seg. split.
  - unfold pop. rewrite Hsplit. apply last_snoc.
  - split; [done|]. destruct Hshape as [[_ ->]|[_ [pre ->]]]; [by left|right; by exists pre].
Qed.

End JSStringFacts.

(** C10, as the code has it.  The page name is the last path segment with
    the first [".html"] removed, or ["homepage"] when nothing is left, and
    the result is what [decodeURIComponent] makes of that page name: the
    decoded text, or a thrown [URIError] when the page name is not a
    well-formed percent-encoding.  An empty remainder always yields
    ["homepage"]. *)
Theorem getCurrentPageName_decodes_page_name (pathname : string) :
  exists seg removed,
    JSString.LastSegment "/" pathname seg /\
    JSString.FirstRemoved ".html" seg removed /\
    getCurrentPageName pathname =
      JSString.decodeURIComponent (if decide (removed = "") then "homepage" else removed) /\
    (removed = "" -> getCurrentPageName pathname = Normal "homepage").
Proof.
  destruct (JSStringFacts.pop_split "/" pathname) as (seg & Hpop & Hseg).
  exists seg, (JSString.replace ".html" "" seg).
  split; [exact Hseg|]. split; [apply JSStringFacts.replace_first_removed|].
  unfold getCurrentPageName. rewrite Hpop. split; [reflexivity|].
  intros ->. reflexivity.
Qed.

(** C10 as stated fails: the path ["/100%"] has the page name ["100%"],
    whose ["%"] opens no escape, and the call throws instead of
    returning. *)
Lemma getCurrentPageName_malformed_throws :
  getCurrentPageName "/100%" = Throw (URIError "URI malformed") /\
  ~ returns (getCurrentPageName "/100%").
Proof.
  split; [reflexivity|]. intros [v H]. vm_compute in H. discriminate.
Qed.

(** ** [easeInOutCubic] *)

Module EasingFacts.
Import Easing.
Local Open Scope Q_scope.

Lemma at_start b c d : ~ d == 0 -> easeInOutCubic 0 b c d == b.
Proof.
  intros Hd. unfold easeInOutCubic.
  assert (E : 0 / (d / 2) == 0) by (field; exact Hd).
  destruct (Qlt_le_dec (0 / (d / 2)) 1) as [_|H].
  - field. exact Hd.
  - exfalso. apply (Qle_not_lt _ _ H). rewrite E. reflexivity.
Qed.

Lemma upper_branch t b c d :
  1 <= t / (d / 2) ->
  easeInOutCubic t b c d ==
    c / 2 * ((t / (d / 2) - 2) * (t / (d / 2) - 2) * (t / (d / 2) - 2) + 2) + b.
Proof.
  intros H. unfold easeInOutCubic.
  destruct (Qlt_le_dec (t / (d / 2)) 1) as [H'|_]; [|reflexivity].
  exfalso. exact (Qle_not_lt _ _ H H').
Qed.

Lemma at_end b c d : ~ d == 0 -> easeInOutCubic d b c d == b + c.
Proof.
  intros Hd. assert (E : d / (d / 2) == 2) by (field; exact Hd).
  rewrite upper_branch; rewrite E; [field | discriminate].
Qed.

Lemma at_half b c d : ~ d == 0 -> easeInOutCubic (d / 2) b c d == b + c / 2.
Proof.
  intros Hd. assert (E : d / 2 / (d / 2) == 1) by (field; exact Hd).
  rewrite upper_branch; rewrite E; [field | discriminate].
Qed.

Lemma first_half t b c d :
  ~ d == 0 -> 0 <= t <= d / 2 ->
  easeInOutCubic t b c d == c / 2 * (2 * t / d) ^ 3 + b.
Proof.
  intros Hd [H0 H1].
  assert (Hpos : 0 < d).
  { assert (E2 : d / 2 == d * (1 # 2)) by field. rewrite E2 in H1.
    destruct (Qlt_le_dec 0 d) as [|Hle]; [done|]. exfalso. apply Hd. lra. }
  assert (E : t / (d / 2) == 2 * t / d) by (field; exact Hd).
  unfold easeInOutCubic.
  destruct (Qlt_le_dec (t / (d / 2)) 1) as [H|H].
  - rewrite E. simpl. field. exact Hd.
  - assert (E1 : t / (d / 2) == 1).
    { apply Qle_antisym; [|exact H]. rewrite E. apply Qle_shift_div_r; [exact Hpos|].
      assert (E2 : d / 2 == d * (1 # 2)) by field. rewrite E2 in H1. lra. }
    rewrite <- E. rewrite E1. simpl. field.
Qed.
End EasingFacts.

(** C7.  Over exact rationals and for a duration [d] other than zero,
    [easeInOutCubic] is [b] at [t = 0], [b + c] at [t = d], [b + c/2] at
    [t = d/2], and [c/2 * (2t/d)^3 + b] on all of [[0, d/2]]. *)
Theorem easeInOutCubic_cubic_ease_in_out (b c d : Q) :
  (~ d == 0)%Q ->
  (Easing.easeInOutCubic 0 b c d == b)%Q /\
  (Easing.easeInOutCubic d b c d == b + c)%Q /\
  (Easing.easeInOutCubic (d / 2) b c d == b + c / 2)%Q /\
  (forall t, (0 <= t <= d / 2)%Q ->
             (Easing.easeInOutCubic t b c d == c / 2 * (2 * t / d) ^ 3 + b)%Q).
Proof.
  intros Hd. split; [by apply EasingFacts.at_start|].
  split; [by apply EasingFacts.at_end|].
  split; [by apply EasingFacts.at_half|].
  intros t Ht. by apply EasingFacts.first_half.
Qed.

(** The scroll-to-top animation itself: 1000 ms from offset 640 to 0. *)
Lemma easeInOutCubic_scroll_to_top :
  (~ 1000 == 0)%Q /\
  (Easing.easeInOutCubic 0 640 (-640) 1000 == 640)%Q /\
  (Easing.easeInOutCubic 1000 640 (-640) 1000 == 640 + -640)%Q /\
  (Easing.easeInOutCubic (1000 / 2) 640 (-640) 1000 == 640 + -640 / 2)%Q /\
  (forall t, (0 <= t <= 1000 / 2)%Q ->
             (Easing.easeInOutCubic t 640 (-640) 1000
              == -640 / 2 * (2 * t / 1000) ^ 3 + 640)%Q).
Proof.
  assert (H : (~ 1000 == 0)%Q) by discriminate.
  split; [exact H|]. exact (easeInOutCubic_cubic_ease_in_out 640 (-640) 1000 H).
Defined.

(** ** [Utils.debounce] *)

Module DebounceFacts.
Import Debounce.
Section Wrapper.
Context {Args : Type}.
Variable wait : nat.
Implicit Types (s : System Args) (e : @Event Args) (evs : list (@Event Args)).

Lemma run_snoc evs e s : run wait (evs ++ [e]) s = fst (step wait (run wait evs s) e).
Proof. unfold run. by rewrite fold_left_app. Qed.

Lemma elapsed_snoc evs e :
  elapsed (evs ++ [e]) = elapsed evs + (if is_tick e then 1 else 0).
Proof.
  unfold elapsed. rewrite filter_app, length_app. f_equal.
  destruct e; reflexivity.
Qed.

Lemma quiet_nil s0 pre : quiet wait s0 pre [].
Proof. split; [constructor|]. intros [|] ? ? ?; discriminate. Qed.

Lemma quiet_snoc s0 pre q e :
  quiet wait s0 pre q -> is_call e = false ->
  invoked wait (run wait (pre ++ q) s0) e = None ->
  quiet wait s0 pre (q ++ [e]).
Proof.
  intros [Hc Hq] He Hi. split.
  - apply Forall_app. split; [done|]. by constructor.
  - intros q1 e' q2 E.
    destruct (decide (q2 = [])) as [->|Hne].
    + apply app_inj_tail in E as [-> ->]. done.
    + destruct (exists_last Hne) as (q2' & x & ->).
      rewrite app_comm_cons, app_assoc in E. apply app_inj_tail in E as [-> ->].
      by eapply Hq.
Qed.

(** Under the invariant, [clearTimeout(timeout)] empties the table. *)
Lemma clear_pending s0 evs s :
  inv wait s0 evs s -> pending (clearTimeout (timeout s) (host s)) = ∅.
Proof.
  intros [_ [He|(i & dueAt & args & p & q & Ht & Hp & _)]].
  - destruct (timeout s); simpl; [|done]. rewrite He. apply delete_empty.
  - rewrite Ht. simpl. rewrite Hp. apply delete_singleton_eq.
Qed.

Lemma clear_keeps (h : Host Args) t :
  nextId (clearTimeout t h) = nextId h /\ now (clearTimeout t h) = now h.
Proof. by destruct t. Qed.

Lemma inv_call s0 evs s args :
  inv wait s0 evs s ->
  inv wait s0 (evs ++ [Call args]) (executedFunction wait args s).
Proof.
  intros Hinv. pose proof (clear_pending _ _ _ Hinv) as Hclr.
  destruct (clear_keeps (host s) (timeout s)) as [Hid Hnow].
  unfold executedFunction, setTimeout. simpl. rewrite Hclr, Hid, Hnow.
  split; simpl.
  - intros i [x Hx]. rewrite insert_empty in Hx.
    apply lookup_singleton_Some in Hx as [<- _]. lia.
  - right. exists (nextId (host s)), (now (host s) + wait), args, evs, [].
    split; [done|]. split; [by rewrite insert_empty|]. split; [done|].
    split; [apply quiet_nil|]. unfold elapsed. simpl. lia.
Qed.

Lemma quiet_step s e :
  is_call e = false -> invoked wait s e = None ->
  pending (host (fst (step wait s e))) = pending (host s) /\
  timeout (fst (step wait s e)) = timeout s /\
  nextId (host (fst (step wait s e))) = nextId (host s) /\
  now (host (fst (step wait s e))) = now (host s) + (if is_tick e then 1 else 0).
Proof.
  intros Hc Hi. destruct e as [a| |i]; [discriminate| |].
  - simpl. repeat split; (reflexivity || lia).
  - unfold invoked in Hi. simpl in *.
    destruct (due i (host s)) as [[a h]|]; [discriminate|].
    simpl. repeat split; (reflexivity || lia).
Qed.

Lemma inv_quiet s0 evs s e :
  run wait evs s0 = s -> inv wait s0 evs s ->
  is_call e = false -> invoked wait s e = None ->
  inv wait s0 (evs ++ [e]) (fst (step wait s e)).
Proof.
  intros Hrun Hinv Hc Hi.
  destruct (quiet_step _ _ Hc Hi) as (Hp & Ht & Hn & Hnow).
  destruct Hinv as [Hfresh Hst]. split.
  - rewrite Hp, Hn. exact Hfresh.
  - destruct Hst as [He|(i & dueAt & args & p & q & Hto & Hpe & Hev & Hq & Hdue)];
      [left; by rewrite Hp|].
    right. exists i, dueAt, args, p, (q ++ [e]).
    split; [by rewrite Ht|]. split; [by rewrite Hp|].
    split; [rewrite Hev; by rewrite <- app_assoc|]. split.
    + apply quiet_snoc; [done..|].
      rewrite <- app_assoc. simpl. rewrite <- Hev, Hrun. done.
    + rewrite elapsed_snoc, Hnow. lia.
Qed.

Lemma due_Some (h : Host Args) i args h' :
  due i h = Some (args, h') ->
  exists dueAt, pending h !! i = Some (dueAt, args) /\ dueAt <= now h /\
              h' = mkHost (now h) (nextId h) (delete i (pending h)).
Proof.
  unfold due. destruct (pending h !! i) as [[dueAt a]|]; [|done].
  destruct (decide (dueAt <= now h)); [|done]. intros [= -> <-]. by exists dueAt.
Qed.

Lemma inv_fire s0 evs s e args :
  inv wait s0 evs s -> invoked wait s e = Some args ->
  pending (host (fst (step wait s e))) = ∅.
Proof.
  intros Hinv Hi. unfold invoked in Hi. destruct e as [a| |i]; [discriminate..|].
  simpl in *. destruct (due i (host s)) as [[a h]|] eqn:Hd; [|discriminate].
  apply due_Some in Hd as (dueAt & Hl & _ & ->). simpl.
  destruct Hinv as [_ [He|(j & at' & a' & p & q & Ht & Hp & _)]].
  - by rewrite He, lookup_empty in Hl.
  - rewrite Hp in Hl. apply lookup_singleton_Some in Hl as [-> _].
    rewrite Ht, Hp. simpl. rewrite delete_singleton_eq. apply delete_empty.
Qed.

Lemma inv_step s0 evs s e :
  run wait evs s0 = s -> inv wait s0 evs s ->
  inv wait s0 (evs ++ [e]) (fst (step wait s e)).
Proof.
  intros Hrun Hinv. destruct (is_call e) eqn:Hc.
  - destruct e; try discriminate. by apply inv_call.
  - destruct (invoked wait s e) as [a|] eqn:Hi; [|by apply inv_quiet].
    pose proof (inv_fire _ _ _ _ _ Hinv Hi) as He. split; [|by left].
    intros i [x Hx]. by rewrite He, lookup_empty in Hx.
Qed.

Lemma inv_run n0 i0 evs : inv wait (fresh n0 i0) evs (run wait evs (fresh n0 i0)).
Proof.
  induction evs as [|e evs IH] using rev_ind.
  - split; [|by left]. simpl. intros i [x Hx]. by rewrite lookup_empty in Hx.
  - rewrite run_snoc. by apply inv_step.
Qed.

End Wrapper.
End DebounceFacts.

(** C3.  Whenever an event makes [func] run with some arguments, the
    history so far ends in a wrapper call with exactly those arguments
    followed by a quiet stretch -- no further wrapper call and no run of
    [func] -- during which at least [wait] time units passed. *)
Theorem debounce_trailing_edge {Args : Type} (wait n0 i0 : nat)
    (pre : list (@Debounce.Event Args)) (e : Debounce.Event) (args : Args) :
  Debounce.invoked wait (Debounce.run wait pre (Debounce.fresh n0 i0)) e = Some args ->
  exists p q,
    pre = p ++ Debounce.Call args :: q /\
    Debounce.quiet wait (Debounce.fresh n0 i0) (p ++ [Debounce.Call args]) q /\
    wait <= Debounce.elapsed q.
Proof.
  intros Hi. pose proof (DebounceFacts.inv_run wait n0 i0 pre) as [_ Hst].
  set (s := Debounce.run wait pre (Debounce.fresh n0 i0)) in *.
  unfold Debounce.invoked in Hi. destruct e as [a| |i]; [discriminate..|]. simpl in Hi.
  destruct (Debounce.due i (Debounce.host s)) as [[a h]|] eqn:Hd; [|discriminate].
  injection Hi as ->.
  apply DebounceFacts.due_Some in Hd as (dueAt & Hl & Hdue & _).
  destruct Hst as [He|(j & at' & a' & p & q & Ht & Hp & Hev & Hq & Hd)].
  - by rewrite He, lookup_empty in Hl.
  - rewrite Hp in Hl. apply lookup_singleton_Some in Hl as [-> E]. injection E as -> ->.
    exists p, q. split; [done|]. split; [done|lia].
Qed.

(** A wrapper with [wait = 2] is called with 7, two time units pass, and
    the host runs the timer. *)
Lemma debounce_trailing_edge_example :
  exists p q,
    [Debounce.Call 7; Debounce.Tick; Debounce.Tick] = p ++ Debounce.Call 7 :: q /\
    Debounce.quiet 2 (Debounce.fresh 0 0) (p ++ [Debounce.Call 7]) q /\
    2 <= Debounce.elapsed q.
Proof.
  apply (debounce_trailing_edge 2 0 0 [Debounce.Call 7; Debounce.Tick; Debounce.Tick]
           (Debounce.Fire 0) 7).
  reflexivity.
Defined.

(** C4.  In every reachable state at most one timer is pending, and a
    wrapper call leaves exactly the timer it arms: whatever was pending
    has been cleared first. *)
Theorem debounce_single_pending_timer {Args : Type} (wait n0 i0 : nat)
    (evs : list (@Debounce.Event Args)) :
  let s := Debounce.run wait evs (Debounce.fresh n0 i0) in
  size (Debounce.pending (Debounce.host s)) <= 1 /\
  forall args,
    Debounce.pending (Debounce.host (Debounce.executedFunction wait args s)) =
      {[ Debounce.nextId (Debounce.host s) :=
           (Debounce.now (Debounce.host s) + wait, args) ]}.
Proof.
  intros s. pose proof (DebounceFacts.inv_run wait n0 i0 evs) as Hinv. fold s in Hinv.
  split.
  - destruct Hinv as [_ [He|(i & dueAt & a & _ & _ & _ & Hp & _)]].
    + rewrite He, map_size_empty. lia.
    + rewrite Hp, map_size_singleton. lia.
  - intros args. pose proof (DebounceFacts.clear_pending _ _ _ _ Hinv) as Hclr.
    destruct (DebounceFacts.clear_keeps (Debounce.host s) (Debounce.timeout s)) as [Hid Hnow].
    unfold Debounce.executedFunction, Debounce.setTimeout. simpl.
    by rewrite Hclr, insert_empty, Hid, Hnow.
Qed.

(** ** The document *)

Module ClassListFacts.
Import ClassList.

Lemma contains_true token l : contains token l = true <-> token ∈ l.
Proof. unfold contains. apply bool_decide_eq_true. Qed.

Lemma elem_of_add x token l : x ∈ add token l <-> x = token \/ x ∈ l.
Proof.
  unfold add. destruct (contains token l) eqn:H.
  - apply contains_true in H. split; [intros; by right | intros [->|]; done].
  - rewrite elem_of_app. pose proof (list_elem_of_singleton x token). tauto.
Qed.

Lemma elem_of_remove x token l : x ∈ remove token l <-> x <> token /\ x ∈ l.
Proof. unfold remove. by rewrite list_elem_of_filter. Qed.

Lemma elem_of_toggle token l : token ∈ toggle token l <-> token ∉ l.
Proof.
  unfold toggle. destruct (contains token l) eqn:H.
  - apply contains_true in H. rewrite elem_of_remove. tauto.
  - rewrite elem_of_add. split; [|by left]. intros _ Hin.
    apply contains_true in Hin. congruence.
Qed.

Lemma contains_toggle token l : contains token (toggle token l) = negb (contains token l).
Proof.
  destruct (contains token l) eqn:H; simpl.
  - apply not_true_is_false. rewrite contains_true, elem_of_toggle.
    apply contains_true in H. tauto.
  - apply contains_true, elem_of_toggle. intros Hin. apply contains_true in Hin. congruence.
Qed.
End ClassListFacts.

Module DOMFacts.

Lemma Node_induction (P : Node -> Prop) :
  (forall e ks, Forall P ks -> P (mkNode e ks)) -> forall n, P n.
Proof.
  intros H. fix IH 1. intros [e ks]. apply H.
  induction ks as [|k ks IHks]; constructor; [apply IH | exact IHks].
Qed.

Lemma whenUid_keepsUid u f : keepsUid f -> keepsUid (whenUid u f).
Proof. intros H e. unfold whenUid. by destruct (decide _). Qed.

Lemma elementsOf_update u f n : elementsOf (update u f n) = map (whenUid u f) (elementsOf n).
Proof.
  induction n as [e ks IH] using Node_induction. simpl. f_equal.
  induction IH as [|k ks Hk _ IHks]; simpl; [done|].
  rewrite map_app. by f_equal.
Qed.

(** A [forEach] of an idempotent in-place change is one pass over the
    document. *)
Lemma elementsOf_updateAll us f n :
  keepsUid f -> (forall e, f (f e) = f e) ->
  elementsOf (updateAll us f n) = map (whenAmong us f) (elementsOf n).
Proof.
  intros Hk Hidem. revert n. induction us as [|u us IH]; intros n.
  - simpl. rewrite <- (map_id (elementsOf n)) at 1. apply map_ext. intros e.
    unfold whenAmong. destruct (decide _) as [H|]; [by apply elem_of_nil in H|done].
  - simpl. change (fold_left _ us ?d) with (updateAll us f d).
    rewrite IH, elementsOf_update, map_map. apply map_ext. intros e.
    unfold whenAmong, whenUid. destruct (decide (uid e = u)) as [E|E].
    + rewrite Hk. rewrite (decide_True (P := uid e ∈ u :: us)) by (rewrite E; left).
      destruct (decide _); [apply Hidem | done].
    + destruct (decide (uid e ∈ us)) as [H|H].
      * rewrite decide_True; [done | by right].
      * rewrite decide_False; [done|]. rewrite elem_of_cons. tauto.
Qed.

Lemma firstSome_Some {A B} (f : A -> option B) l b :
  firstSome f l = Some b -> exists a, a ∈ l /\ f a = Some b.
Proof.
  induction l as [|a l IH]; simpl; [done|].
  destruct (f a) eqn:E.
  - intros [= ->]. exists a. split; [left | done].
  - intros H. destruct (IH H) as (a' & Hin & Ha'). exists a'. split; [by right|done].
Qed.

Lemma findNode_update u u' f n :
  keepsUid f -> findNode u (update u' f n) = update u' f <$> findNode u n.
Proof.
  intros Hk. induction n as [e ks IH] using Node_induction. simpl.
  assert (Huid : uid (if decide (uid e = u') then f e else e) = uid e)
    by (destruct (decide _); [apply Hk | done]).
  rewrite Huid. destruct (decide (uid e = u)); [done|].
  induction IH as [|k ks Hk' _ IHks]; simpl; [done|].
  rewrite Hk'. destruct (findNode u k); simpl; [done | exact IHks].
Qed.

Lemma findElement_update u u' f n :
  keepsUid f -> findElement u (update u' f n) = whenUid u' f <$> findElement u n.
Proof.
  intros Hk. unfold findElement. rewrite findNode_update by done.
  destruct (findNode u n) as [[e ks]|]; reflexivity.
Qed.

Lemma findNode_root u n k : findNode u n = Some k -> uid (root k) = u.
Proof.
  induction n as [e ks IH] using Node_induction. simpl.
  destruct (decide (uid e = u)); [by intros [= <-]|].
  intros H. apply firstSome_Some in H as (a & Hin & Ha).
  rewrite Forall_forall in IH. by apply (IH a).
Qed.

Lemma withClassList_keepsUid g : keepsUid (withClassList g).
Proof. by intros e. Qed.

Lemma setStyle_keepsUid p v : keepsUid (setStyle p v).
Proof. by intros e. Qed.

End DOMFacts.

(** ** The mobile menu *)

Module MenuFacts.
Import DOMFacts.

Lemma setup_listeners w0 button menu :
  querySelector [[Class "btn-ghost"; Class "lg:hidden"]] (elementsOf (document w0))
    = Some button ->
  getElementById "mobileMenu" (document w0) = Some menu ->
  listeners (snd (setupMobileMenu w0)) =
    listeners w0 ++
      [mkListener (AtElement button) "click" (MobileMenuToggle menu);
       mkListener AtDocument "click" (MobileMenuOutside menu button);
       mkListener AtWindow "resize"
                  (Debounced (length (cells w0)) 250 (MobileMenuResize menu))].
Proof.
  intros Hb Hm. unfold setupMobileMenu. rewrite Hb, Hm. simpl.
  by rewrite <- !app_assoc.
Qed.

Lemma listenersAt_app t ty w l1 l2 :
  listeners w = l1 ++ l2 ->
  listenersAt t ty w =
    (listenerCallback <$> filter (fun l => listenerTarget l = t /\ listenerType l = ty) l1)
    ++ (listenerCallback <$> filter (fun l => listenerTarget l = t /\ listenerType l = ty) l2).
Proof. intros H. unfold listenersAt. by rewrite H, filter_app, fmap_app. Qed.

Lemma hasClass_update_same token u g d :
  keepsUid g ->
  hasClass token u (update u g d) =
    match findElement u d with
    | Some e => ClassList.contains token (classList (g e))
    | None => false
    end.
Proof.
  intros Hk. unfold hasClass. rewrite findElement_update by done.
  unfold findElement. destruct (findNode u d) as [k|] eqn:E; [|done]. simpl.
  unfold whenUid. by rewrite decide_True by (by eapply findNode_root).
Qed.

Lemma hasClass_setStyles token u t o w :
  hasClass token u (document (setStyles u t o w)) = hasClass token u (document w).
Proof.
  unfold setStyles. simpl. rewrite hasClass_update_same by (by intros e).
  unfold hasClass. by destruct (findElement u (document w)).
Qed.

End MenuFacts.

(** ** Tabs *)

Module TabFacts.
Import DOMFacts.

Lemma steady_whenUid u f : steady f -> steady (whenUid u f).
Proof. intros H e. unfold whenUid. destruct (decide _); [apply H | done]. Qed.

Lemma steady_among us f : steady f -> steady (whenAmong us f).
Proof. intros H e. unfold whenAmong. destruct (decide _); [apply H | done]. Qed.

Lemma getElementById_map g i d d' :
  steady g -> elementsOf d' = map g (elementsOf d) ->
  getElementById i d' = getElementById i d.
Proof.
  intros Hg Hd. unfold getElementById. destruct (decide (i = "")); [done|].
  rewrite Hd. clear Hd. induction (elementsOf d) as [|e l IH]; [done|]. simpl.
  destruct (Hg e) as [Hu Hi].
  destruct (decide (id e = i)) as [E|E].
  - rewrite !filter_cons_True by congruence. simpl. by rewrite Hu.
  - rewrite !filter_cons_False by congruence. exact IH.
Qed.

Lemma querySelectorAll_elem sel l e :
  e ∈ l -> matches sel e = true -> uid e ∈ querySelectorAll sel l.
Proof.
  intros Hin Hm. unfold querySelectorAll. apply list_elem_of_fmap.
  exists e. split; [done|]. by apply list_elem_of_filter.
Qed.

Lemma matches_tabButtons e :
  matches tabButtons e = true <->
  "irrigation-tab" ∈ classList e \/ "tab-button" ∈ classList e.
Proof.
  unfold matches, tabButtons. simpl.
  rewrite !orb_true_iff, !andb_true_iff, !ClassListFacts.contains_true.
  intuition discriminate.
Qed.

Lemma matches_tabContents e :
  matches tabContents e = true <-> "tab-content" ∈ classList e.
Proof.
  unfold matches, tabContents. simpl.
  rewrite !orb_true_iff, !andb_true_iff, !ClassListFacts.contains_true.
  intuition discriminate.
Qed.

Lemma hideContent_idempotent e : hideContent (hideContent e) = hideContent e.
Proof.
  unfold hideContent, withClassList. simpl. f_equal.
  set (l := classList e).
  assert (H : ClassList.add "hidden" (ClassList.remove "active" (ClassList.add "hidden" l))
              = ClassList.remove "active" (ClassList.add "hidden" l)).
  { unfold ClassList.add at 1.
    rewrite (proj2 (ClassListFacts.contains_true _ _)); [done|].
    rewrite ClassListFacts.elem_of_remove, ClassListFacts.elem_of_add. split; [done|by left]. }
  rewrite H. unfold ClassList.remove. by apply list_filter_filter_l.
Qed.

Lemma removeActive_idempotent e :
  withClassList (ClassList.remove "active") (withClassList (ClassList.remove "active") e)
  = withClassList (ClassList.remove "active") e.
Proof.
  unfold withClassList. simpl. f_equal. unfold ClassList.remove.
  by apply list_filter_filter_l.
Qed.

Lemma steady_hideContent : steady hideContent.
Proof. by intros e. Qed.

Lemma steady_showContent : steady showContent.
Proof. by intros e. Qed.

Lemma steady_withClassList g : steady (withClassList g).
Proof. by intros e. Qed.

Lemma steady_keepsUid g : steady g -> keepsUid g.
Proof. intros H e. apply H. Qed.

Ltac classes :=
  repeat progress
    (unfold hideContent, showContent in *;
     cbn [classList withClassList setStyle] in *;
     rewrite ?ClassListFacts.elem_of_add, ?ClassListFacts.elem_of_remove in * ).

End TabFacts.

(** ** Field errors *)

Module TreeFacts.
Import DOMFacts.

Lemma elem_of_flat_map {A B} (f : A -> list B) (l : list A) (y : B) :
  y ∈ flat_map f l <-> exists x, x ∈ l /\ y ∈ f x.
Proof.
  rewrite list_elem_of_In, in_flat_map. split; intros (x & H1 & H2); exists x;
    by rewrite ?list_elem_of_In in *.
Qed.

Lemma uids_node e ks : uids (mkNode e ks) = uid e :: flat_map uids ks.
Proof.
  unfold uids. simpl. f_equal. induction ks as [|k ks IH]; simpl; [done|].
  by rewrite map_app, IH.
Qed.

Lemma parentOf_uids u p d : parentOf u d = Some p -> p ∈ uids d.
Proof.
  induction d as [e ks IH] using Node_induction. simpl. rewrite uids_node.
  destruct (existsb _ ks).
  - intros [= <-]. left.
  - intros H. apply firstSome_Some in H as (k & Hin & Hk). right.
    apply elem_of_flat_map. exists k. split; [done|].
    rewrite Forall_forall in IH. by apply IH.
Qed.

Lemma appendChild_elements p c d :
  p ∈ uids d -> root c ∈ elementsOf (appendChild p c d).
Proof.
  induction d as [e ks IH] using Node_induction. rewrite uids_node. simpl.
  destruct (decide (uid e = p)) as [E|E].
  - intros _. simpl. right. rewrite flat_map_app, elem_of_app. right.
    simpl. rewrite app_nil_r. destruct c. left.
  - intros [?|H]%elem_of_cons; [congruence|].
    apply elem_of_flat_map in H as (k & Hin & Hk).
    simpl. right. apply elem_of_flat_map. exists (appendChild p c k).
    split; [by apply list_elem_of_fmap_2|].
    rewrite Forall_forall in IH. by apply IH.
Qed.

Lemma findNode_children p k k' :
  findNode p k = Some k' ->
  forall y, y ∈ flat_map elementsOf (childNodes k') ->
            y ∈ flat_map elementsOf (childNodes k).
Proof.
  induction k as [e ks IH] using Node_induction. simpl.
  destruct (decide (uid e = p)); [by intros [= <-]|].
  intros H y Hy. apply firstSome_Some in H as (c & Hin & Hc).
  apply elem_of_flat_map. exists c. split; [done|].
  rewrite Forall_forall in IH. specialize (IH c Hin Hc y Hy).
  destruct c. simpl. by right.
Qed.

Lemma NoDup_child e ks k : NoDup (uids (mkNode e ks)) -> k ∈ ks -> NoDup (uids k).
Proof.
  rewrite uids_node. intros [_ H]%NoDup_cons Hin.
  induction ks as [|k0 ks IH]; [by apply elem_of_nil in Hin|].
  simpl in H. apply NoDup_app in H as (H1 & _ & H2).
  apply elem_of_cons in Hin as [->|Hin]; [done | by apply IH].
Qed.

(** Removing a descendant of [p] leaves [p] in the document. *)
Lemma removeNode_keeps_ancestor x p d :
  NoDup (uids d) -> x ∈ map uid (descendants p d) -> p ∈ uids (removeNode x d).
Proof.
  unfold descendants.
  induction d as [e ks IH] using Node_induction. intros Hnd Hx.
  simpl in *. rewrite uids_node.
  destruct (decide (uid e = p)) as [E|E]; [rewrite E; left|].
  destruct (firstSome (findNode p) ks) as [k'|] eqn:Hf; [|by apply elem_of_nil in Hx].
  apply firstSome_Some in Hf as (k & Hin & Hk).
  right. apply elem_of_flat_map.
  rewrite Forall_forall in IH.
  assert (Hndk : NoDup (uids k)) by (by eapply NoDup_child).
  assert (Hroot : uid (root k) <> x).
  { intros Hr. destruct k as [ek kks]. simpl in Hr. rewrite uids_node in Hndk.
    apply NoDup_cons in Hndk as [Hnotin _]. apply Hnotin. rewrite Hr.
    apply list_elem_of_fmap in Hx as (y & -> & Hy).
    pose proof (findNode_children _ _ _ Hk y Hy) as Hy'. simpl in Hy'.
    apply elem_of_flat_map in Hy' as (c & Hc & Hyc).
    apply elem_of_flat_map. exists c. split; [done|].
    unfold uids. by apply list_elem_of_fmap_2. }
  exists (removeNode x k). split.
  - apply elem_of_flat_map. exists k. split; [done|].
    rewrite decide_False by done. left.
  - apply IH; [done..|]. by rewrite Hk.
Qed.

Lemma querySelector_elem sel l x :
  querySelector sel l = Some x -> x ∈ map uid l.
Proof.
  unfold querySelector, querySelectorAll. intros H.
  apply head_Some_elem_of in H. apply list_elem_of_fmap in H as (e & -> & He).
  apply list_elem_of_filter in He as [_ He]. by apply list_elem_of_fmap_2.
Qed.

Lemma firstSome_fmap {A B} (f : A -> option B) (g : A -> A) (h : B -> B) l :
  Forall (fun a => f (g a) = h <$> f a) l ->
  firstSome f (map g l) = h <$> firstSome f l.
Proof.
  induction 1 as [|a l Ha _ IH]; simpl; [done|].
  rewrite Ha. destruct (f a); simpl; [done | exact IH].
Qed.

Lemma findNode_appendChild p c d :
  findNode p (appendChild p c d) = addChild c <$> findNode p d.
Proof.
  induction d as [e ks IH] using Node_induction. simpl.
  destruct (decide (uid e = p)) as [E|E]; simpl.
  - by rewrite decide_True.
  - rewrite decide_False by done. by apply firstSome_fmap.
Qed.

Lemma findNode_is_Some p d : p ∈ uids d -> is_Some (findNode p d).
Proof.
  induction d as [e ks IH] using Node_induction. rewrite uids_node. simpl.
  destruct (decide (uid e = p)); [by eexists|].
  intros [?|H]%elem_of_cons; [congruence|].
  apply elem_of_flat_map in H as (k & Hin & Hk).
  induction ks as [|k0 ks IHks]; [by apply elem_of_nil in Hin|].
  apply Forall_cons in IH as [IH0 IH]. simpl.
  apply elem_of_cons in Hin as [->|Hin].
  - destruct (IH0 Hk) as [n' ->]. by eexists.
  - destruct (findNode p k0); [by eexists | by apply IHks].
Qed.

(** A child appended to [p] is among the descendants of [p]. *)
Lemma appendChild_descendants p c d :
  p ∈ uids d -> root c ∈ descendants p (appendChild p c d).
Proof.
  intros Hin. unfold descendants. rewrite findNode_appendChild.
  destruct (findNode_is_Some _ _ Hin) as [[e ks] ->]. simpl.
  rewrite flat_map_app, elem_of_app. right. simpl. rewrite app_nil_r.
  destruct c. left.
Qed.

Lemma descendants_elements p d y : y ∈ descendants p d -> y ∈ elementsOf d.
Proof.
  unfold descendants. destruct (findNode p d) as [k|] eqn:E; [|by intros ?%elem_of_nil].
  intros Hy. pose proof (findNode_children _ _ _ E y Hy). destruct d. simpl. by right.
Qed.
End TreeFacts.

(** ** Form validation and [this] *)

Module FormFacts.

(** No element carries a [FormEnhancement] method. *)
Lemma element_has_no_method u name : getMethod (ThisElement u) name = None.
Proof. reflexivity. Qed.

Lemma blur_throws u e w :
  fst (invoke FieldBlur (ThisElement u) e w)
  = Throw (TypeError "this.validateField is not a function").
Proof. reflexivity. Qed.

Lemma submit_throws u e w :
  fst (invoke FormSubmit (ThisElement u) e w)
  = Throw (TypeError "this.validateForm is not a function").
Proof. reflexivity. Qed.

(** On an element, [validateField] cannot reach [return false]: each of
    its three failure branches first calls [this.showFieldError]. *)
Lemma validateField_never_false u w :
  fst (validateField (ThisElement u) w) <> Normal false.
Proof.
  unfold validateField. destruct (findElement u (document w)) as [field|]; [|done].
  destruct (valueOf field); [|done..].
  repeat (match goal with |- context [if ?b then _ else _] => destruct b end;
          try done).
Qed.

Import DOMFacts.

Lemma findElement_update_same u g d e :
  keepsUid g -> findElement u d = Some e -> findElement u (update u g d) = Some (g e).
Proof.
  intros Hk He. rewrite findElement_update by done. rewrite He. simpl.
  unfold whenUid. rewrite decide_True; [done|].
  unfold findElement in He. destruct (findNode u d) as [k|] eqn:E; [|done].
  injection He as <-. by eapply findNode_root.
Qed.

Lemma findElement_setClasses u g w e :
  findElement u (document w) = Some e ->
  findElement u (document (setClasses u g w)) = Some (withClassList g e).
Proof. intros He. unfold setClasses. simpl. by apply findElement_update_same. Qed.

Lemma hasClass_found token u d e :
  findElement u d = Some e ->
  (hasClass token u d = true <-> token ∈ classList e).
Proof. intros He. unfold hasClass. rewrite He. apply ClassListFacts.contains_true. Qed.

(** What does hold of [validateField] on a field of the document with a
    string [value]: the field never has both classes; it has [success]
    exactly when the call returned [true] on a non-blank value; and it has
    [error] exactly when the call threw. *)
Lemma validateField_classes u w field text :
  findElement u (document w) = Some field ->
  valueOf field = StringValue text ->
  let c := fst (validateField (ThisElement u) w) in
  let d' := document (snd (validateField (ThisElement u) w)) in
  ~ (hasClass "error" u d' = true /\ hasClass "success" u d' = true) /\
  (hasClass "success" u d' = true <->
     c = Normal true /\ Pattern.trim text <> "") /\
  (hasClass "error" u d' = true <-> throws c).
Proof.
  intros He Hv. unfold validateField. rewrite He, Hv.
  set (v := Pattern.trim text).
  pose proof (findElement_setClasses u (ClassList.remove "error") w _ He) as H1.
  pose proof (findElement_setClasses u (ClassList.remove "success") _ _ H1) as H2.
  set (w2 := setClasses u (ClassList.remove "success")
               (setClasses u (ClassList.remove "error") w)) in *.
  pose proof (findElement_setClasses u (ClassList.add "error") _ _ H2) as H3e.
  pose proof (findElement_setClasses u (ClassList.add "success") _ _ H2) as H3s.
  assert (Hthrow : forall msg,
            callShowFieldError (ThisElement u) msg
              (setClasses u (ClassList.add "error") w2)
            = (Throw (notAFunction "this.showFieldError"),
               setClasses u (ClassList.add "error") w2)) by reflexivity.
  assert (Herr :
    let d' := document (setClasses u (ClassList.add "error") w2) in
    ~ (hasClass "error" u d' = true /\ hasClass "success" u d' = true) /\
    (hasClass "success" u d' = true <->
       Throw (A := bool) (notAFunction "this.showFieldError") = Normal true /\ v <> "") /\
    (hasClass "error" u d' = true <->
       throws (Throw (A := bool) (notAFunction "this.showFieldError")))).
  { cbv zeta. rewrite !(hasClass_found _ _ _ _ H3e). cbn [classList withClassList].
    rewrite !ClassListFacts.elem_of_add, !ClassListFacts.elem_of_remove.
    split; [|split].
    - intros [_ [?|[? _]]]; done.
    - split; [intros [?|[? _]]; done | intros [? _]; done].
    - split; [intros _; by eexists | intros _; by left]. }
  destruct (hasAttribute "required" field && bool_decide (v = "")) eqn:B1;
    [rewrite Hthrow; exact Herr|].
  destruct (bool_decide (typeOf field = "email") && negb (bool_decide (v = ""))
            && negb (Pattern.emailRegex v)) eqn:B2;
    [rewrite Hthrow; exact Herr|].
  destruct (bool_decide (typeOf field = "tel") && negb (bool_decide (v = ""))
            && negb (Pattern.phoneRegex (Pattern.removeSpaces (String.length v) v))) eqn:B3;
    [rewrite Hthrow; exact Herr|].
  destruct (bool_decide (v = "")) eqn:B4; cbn [negb fst snd]; cbv zeta.
  - apply bool_decide_eq_true in B4.
    rewrite !(hasClass_found _ _ _ _ H2). cbn [classList withClassList].
    rewrite !ClassListFacts.elem_of_remove.
    split; [|split].
    + intros [_ [? _]]; done.
    + split; [intros [? _]; done | intros [_ ?]; congruence].
    + split; [intros [_ [? _]]; done | intros [e Hx]; discriminate].
  - apply bool_decide_eq_false in B4.
    rewrite !(hasClass_found _ _ _ _ H3s). cbn [classList withClassList].
    rewrite !ClassListFacts.elem_of_add, !ClassListFacts.elem_of_remove.
    split; [|split].
    + intros [[?|[_ [? _]]] _]; done.
    + split; [done | intros _; by left].
    + split; [intros [?|[_ [? _]]]; done | intros [e Hx]; discriminate].
Qed.
End FormFacts.

(** C2 fails on the code.  The [blur] and [submit] listeners that
    [setupFormValidation] registers are function expressions, so [this] is
    the element the event is handled at, and an element has no
    [validateField] or [validateForm]: both listeners throw a [TypeError]
    on every call.  On the example page the host reports the exception
    when the text field loses focus and when the form is submitted. *)
Theorem form_listeners_throw :
  (forall u e w, throws (fst (invoke FieldBlur (ThisElement u) e w))) /\
  (forall u e w, throws (fst (invoke FormSubmit (ThisElement u) e w))) /\
  reported (dispatch "blur" (AtElement 7)
                     (snd (setupFormValidation Example.contactPage)))
    = [TypeError "this.validateField is not a function"] /\
  reported (dispatch "submit" (AtElement 5)
                     (snd (setupFormValidation Example.contactPage)))
    = [TypeError "this.validateForm is not a function"].
Proof.
  split; [intros; eexists; apply FormFacts.blur_throws|].
  split; [intros; eexists; apply FormFacts.submit_throws|].
  split; reflexivity.
Qed.

(** C8 fails on the code.  On the example page the required field holds
    only blanks: [validateField] puts [error] on it and then throws at
    [this.showFieldError], so the field has [error] although the call did
    not return [false]. *)
Theorem validateField_required_blank_throws :
  fst (validateField (ThisElement 7) Example.contactPage)
    = Throw (TypeError "this.showFieldError is not a function") /\
  hasClass "error" 7
    (document (snd (validateField (ThisElement 7) Example.contactPage))) = true /\
  hasClass "success" 7
    (document (snd (validateField (ThisElement 7) Example.contactPage))) = false.
Proof. split; [|split]; reflexivity. Qed.

(** ** The [DOMContentLoaded] listener *)

Module PageFacts.
Section Host.
Variable host : Setup -> Action unit.

Lemma enters_untraced a : enters (untraced a) [].
Proof. intros w. split; [done|]. by intros _. Qed.

Lemma enters_initialize m : enters (initialize host m) [m].
Proof. intros w. split; [done|]. by intros _. Qed.

Lemma enters_then a b l1 l2 :
  enters a l1 -> enters b l2 -> enters (a ;;; b)%js (l1 ++ l2).
Proof.
  intros Ha Hb w. destruct (Ha w) as [Hpa Hra]. unfold tracedThen, outcome in *.
  destruct (a w) as [tr [[v|x] w1]] eqn:Ea; simpl in *.
  - rewrite (Hra ltac:(by eexists)).
    destruct (Hb w1) as [Hpb Hrb]. unfold outcome in Hrb.
    destruct (b w1) as [tr' [c w2]]. simpl in *.
    split; [by apply prefix_app|]. intros Hr. by rewrite Hrb.
  - split; [by apply prefix_app_r|]. intros [v Hv]. discriminate.
Qed.

Lemma onDOMContentLoaded_enters : enters (onDOMContentLoaded host) initializationOrder.
Proof.
  unfold onDOMContentLoaded.
  change initializationOrder with
    ([] ++ [NavigationEnhancement] ++ [FormEnhancement] ++ [CardEnhancement]
        ++ [TabEnhancement] ++ [ButtonEnhancement] ++ [ScrollEnhancement]
        ++ [ImageEnhancement] ++ [PerformanceEnhancement]
        ++ [AccessibilityEnhancement] ++ []).
  repeat (apply enters_then; [first [apply enters_untraced | apply enters_initialize]|]).
  apply enters_untraced.
Qed.

Lemma returns_then a b w :
  returns (outcome a w) -> total b -> returns (outcome (a ;;; b)%js w).
Proof.
  unfold outcome, tracedThen. intros [v Hv] Hb.
  destruct (a w) as [tr [c w1]]. simpl in Hv. subst c.
  specialize (Hb w1). unfold outcome in Hb. by destruct (b w1) as [tr' r].
Qed.

Lemma total_then a b : total a -> total b -> total (a ;;; b)%js.
Proof. intros Ha Hb w. by apply returns_then. Qed.

Lemma returning_andThen a b : returning a -> returning b -> returning (a ;; b)%js.
Proof.
  intros Ha Hb w. unfold andThen. specialize (Ha w).
  destruct (a w) as [[v|x] w1]; [apply Hb|]. by destruct Ha.
Qed.

Lemma returning_setupMobileMenu : returning setupMobileMenu.
Proof.
  intros w. unfold setupMobileMenu.
  destruct (querySelector _ _); [|by eexists].
  destruct (getElementById _ _); by eexists.
Qed.

Lemma returning_setupFormValidation : returning setupFormValidation.
Proof. intros w. by eexists. Qed.

Lemma returning_setupTabSwitching : returning setupTabSwitching.
Proof. intros w. by eexists. Qed.

Hypothesis host_returns : forall s, returning (host s).

Lemma returning_init m : returning (init host m).
Proof.
  destruct m; unfold init;
    repeat (apply returning_andThen;
            [first [apply host_returns | apply returning_setupMobileMenu
                   | apply returning_setupFormValidation
                   | apply returning_setupTabSwitching]|]);
    apply host_returns.
Qed.

Lemma total_initialize m : total (initialize host m).
Proof. intros w. apply returning_init. Qed.

Lemma onDOMContentLoaded_returns w :
  returns (getCurrentPageName (pathname (env w))) ->
  is_Some (documentHead (document w)) ->
  returns (outcome (onDOMContentLoaded host) w).
Proof.
  intros [page Hpage] [h Hh]. unfold onDOMContentLoaded.
  apply returns_then.
  - unfold outcome, untraced, shouldDisableCardAnimations. simpl. rewrite Hpage.
    match goal with |- context [if ?b then _ else _] => destruct b end; simpl;
      [|by eexists].
    unfold disableAnimations. simpl. rewrite Hh. by eexists.
  - repeat (apply total_then; [apply total_initialize|]).
    intros w1. by eexists.
Qed.

End Host.
End PageFacts.

(** C1, as the code has it.  The modules whose [init()] the listener
    enters are always an initial part of the fixed order, each entered
    once; they are all nine whenever the listener returns; and it returns
    when the page name decodes, the document has a head, and the setup
    functions driven by the host return. *)
Theorem onDOMContentLoaded_initializes_in_order
    (host : Setup -> Action unit) (w : World) :
  let run := onDOMContentLoaded host w in
  fst run `prefix_of` initializationOrder /\
  (returns (fst (snd run)) -> fst run = initializationOrder) /\
  (returns (getCurrentPageName (pathname (env w))) ->
   is_Some (documentHead (document w)) ->
   (forall s w0, returns (fst (host s w0))) ->
   returns (fst (snd run))).
Proof.
  intros run. destruct (PageFacts.onDOMContentLoaded_enters host w) as [Hp Hr].
  split; [exact Hp|]. split; [exact Hr|].
  intros Hpage Hhead Hhost. by apply PageFacts.onDOMContentLoaded_returns.
Qed.

(** On the example page, with setup functions that return, all nine
    modules are entered in order. *)
Lemma onDOMContentLoaded_contact_page :
  fst (onDOMContentLoaded Example.quietHost Example.contactPage) = initializationOrder.
Proof.
  destruct (onDOMContentLoaded_initializes_in_order Example.quietHost Example.contactPage)
    as (_ & Hall & Hret).
  apply Hall, Hret.
  - eexists. vm_compute. reflexivity.
  - eexists. vm_compute. reflexivity.
  - intros s w0. eexists. reflexivity.
Defined.

(** C1 as stated fails: at the path ["/100%"] the listener throws in
    [Utils.shouldDisableCardAnimations], before any module is entered. *)
Lemma onDOMContentLoaded_malformed_path :
  fst (onDOMContentLoaded Example.quietHost (Example.pageAt "/100%")) = [] /\
  fst (onDOMContentLoaded Example.quietHost (Example.pageAt "/100%"))
    <> initializationOrder /\
  fst (snd (onDOMContentLoaded Example.quietHost (Example.pageAt "/100%")))
    = Throw (URIError "URI malformed").
Proof. split; [reflexivity|]. split; [discriminate|reflexivity]. Qed.

(** ** More on [Utils.debounce] *)

Module DebounceRunsFacts.
Import Debounce DebounceRuns.
Section Wrapper.
Context {Args : Type}.
Variable wait : nat.
Implicit Types (s : System Args) (e : @Event Args) (evs : list (@Event Args)).

Lemma history_snoc evs e s :
  history wait (evs ++ [e]) s = record wait (history wait evs s) e.
Proof. unfold history. by rewrite fold_left_app. Qed.

Lemma history_run evs s : fst (history wait evs s) = run wait evs s.
Proof.
  induction evs as [|e evs IH] using rev_ind; [done|].
  rewrite history_snoc, DebounceFacts.run_snoc. unfold record. simpl. by rewrite IH.
Qed.

Lemma ranOn_snoc evs e s :
  ranOn wait (evs ++ [e]) s
  = ranOn wait evs s ++ option_list (invoked wait (run wait evs s) e).
Proof.
  unfold ranOn. rewrite history_snoc. unfold record, invoked. simpl.
  by rewrite history_run.
Qed.

Lemma calledWith_snoc evs e :
  calledWith (evs ++ [e]) = calledWith evs ++ match e with Call a => [a] | _ => [] end.
Proof. unfold calledWith. rewrite omap_app. simpl. by destruct e. Qed.

(** After a call the pending timer is the one just armed. *)
Lemma call_arms s0 evs s args :
  inv wait s0 evs s ->
  timeout (executedFunction wait args s) = Some (nextId (host s)) /\
  pending (host (executedFunction wait args s))
    = {[ nextId (host s) := (now (host s) + wait, args) ]} /\
  now (host (executedFunction wait args s)) = now (host s).
Proof.
  intros Hinv. pose proof (DebounceFacts.clear_pending _ _ _ _ Hinv) as Hclr.
  destruct (DebounceFacts.clear_keeps (host s) (timeout s)) as [Hid Hnow].
  unfold executedFunction, setTimeout. simpl.
  by rewrite Hclr, insert_empty, Hid, Hnow.
Qed.

Lemma owed_armed s i dueAt args :
  timeout s = Some i -> pending (host s) = {[ i := (dueAt, args) ]} -> owed s = [args].
Proof. intros Ht Hp. unfold owed. by rewrite Ht, Hp, lookup_singleton_eq. Qed.

Lemma owed_empty s : pending (host s) = ∅ -> owed s = [].
Proof. intros Hp. unfold owed. rewrite Hp. by destruct (timeout s). Qed.

(** The calls so far are the calls whose runs may have happened, followed
    by what the pending timer owes. *)
Lemma runs_within_calls n0 i0 evs :
  exists cs,
    calledWith evs = cs ++ owed (run wait evs (fresh n0 i0)) /\
    ranOn wait evs (fresh n0 i0) `sublist_of` cs.
Proof.
  induction evs as [|e evs (cs & Hc & Hr)] using rev_ind.
  - exists []. split; [done|]. reflexivity.
  - pose proof (DebounceFacts.inv_run wait n0 i0 evs) as Hinv.
    set (s := run wait evs (fresh n0 i0)) in *.
    rewrite DebounceFacts.run_snoc, ranOn_snoc, calledWith_snoc. fold s.
    destruct e as [a| |i].
    + (* a call: the new timer owes [a] *)
      destruct (call_arms _ _ _ a Hinv) as (Ht & Hp & _).
      exists (cs ++ owed s). split.
      * simpl. rewrite (owed_armed _ _ _ _ Ht Hp). by rewrite Hc.
      * simpl. rewrite app_nil_r. by apply sublist_inserts_r.
    + (* time passes *)
      exists cs. simpl. rewrite !app_nil_r. split; [exact Hc | exact Hr].
    + (* the host tries timer [i] *)
      unfold invoked. simpl.
      destruct (due i (host s)) as [[a h]|] eqn:Hd; simpl.
      * apply DebounceFacts.due_Some in Hd as (dueAt & Hl & _ & ->).
        destruct Hinv as [_ [He|(j & dueAt' & a' & p & q & Ht & Hp & _)]];
          [by rewrite He, lookup_empty in Hl|].
        rewrite Hp in Hl. apply lookup_singleton_Some in Hl as [-> E].
        injection E as -> ->.
        exists (cs ++ [a]). split.
        -- rewrite owed_empty; [|simpl; rewrite Ht, Hp; simpl;
                                  rewrite delete_singleton_eq; apply delete_empty].
           rewrite !app_nil_r, Hc. by rewrite (owed_armed _ _ _ _ Ht Hp).
        -- by apply sublist_app.
      * exists cs. rewrite !app_nil_r. split; [exact Hc | exact Hr].
Qed.

(** Quiet events keep the armed timer and let time pass. *)
Lemma quiet_keeps s0 pre q :
  quiet wait s0 pre q ->
  pending (host (run wait (pre ++ q) s0)) = pending (host (run wait pre s0)) /\
  timeout (run wait (pre ++ q) s0) = timeout (run wait pre s0) /\
  now (host (run wait (pre ++ q) s0)) = now (host (run wait pre s0)) + elapsed q.
Proof.
  induction q as [|e q IH] using rev_ind; intros Hq.
  - rewrite app_nil_r. unfold elapsed. simpl. repeat split; (reflexivity || lia).
  - destruct Hq as [Hc Hn].
    apply Forall_app in Hc as [Hc He]. apply Forall_cons in He as [He _].
    assert (Hq : quiet wait s0 pre q).
    { split; [done|]. intros q1 e' q2 E. apply (Hn q1 e' (q2 ++ [e])).
      by rewrite E, <- app_assoc. }
    destruct (IH Hq) as (Hp & Ht & Hnow).
    assert (Hi : invoked wait (run wait (pre ++ q) s0) e = None)
      by (apply (Hn q e []); done).
    destruct (DebounceFacts.quiet_step wait _ _ He Hi) as (Hp' & Ht' & _ & Hnow').
    rewrite app_assoc, DebounceFacts.run_snoc, Hp', Ht', Hnow', Hp, Ht, Hnow.
    rewrite DebounceFacts.elapsed_snoc. repeat split; (reflexivity || lia).
Qed.

End Wrapper.
End DebounceRunsFacts.

(** X1.  The wrapper is called, and then, during a stretch with no further
    call and no run of [func], at least [wait] time units pass.  Then the
    timer of that call is still armed, and when the host runs it [func] is
    invoked with the arguments of that call. *)
Theorem debounce_fires_after_quiet_wait {Args : Type} (wait n0 i0 : nat)
    (evs q : list (@Debounce.Event Args)) (args : Args) :
  Debounce.quiet wait (Debounce.fresh n0 i0) (evs ++ [Debounce.Call args]) q ->
  wait <= Debounce.elapsed q ->
  exists i,
    Debounce.timeout
      (Debounce.run wait ((evs ++ [Debounce.Call args]) ++ q) (Debounce.fresh n0 i0))
      = Some i /\
    Debounce.invoked wait
      (Debounce.run wait ((evs ++ [Debounce.Call args]) ++ q) (Debounce.fresh n0 i0))
      (Debounce.Fire i) = Some args.
Proof.
  intros Hq Hwait.
  destruct (DebounceRunsFacts.quiet_keeps wait _ _ _ Hq) as (Hp & Ht & Hnow).
  pose proof (DebounceFacts.inv_run wait n0 i0 evs) as Hinv.
  rewrite DebounceFacts.run_snoc in Hp, Ht, Hnow.
  cbn [Debounce.step fst] in Hp, Ht, Hnow.
  destruct (DebounceRunsFacts.call_arms wait _ _ _ args Hinv) as (Ht0 & Hp0 & Hnow0).
  rewrite Hp0 in Hp. rewrite Ht0 in Ht. rewrite Hnow0 in Hnow.
  eexists. split; [exact Ht|].
  unfold Debounce.invoked. simpl. unfold Debounce.due.
  rewrite Hp, lookup_singleton_eq, Hnow. rewrite decide_True by lia. reflexivity.
Qed.

(** A wrapper with [wait = 2]: a call with 3, a call with 7, the stale
    timer of the first call is tried, and two time units pass. *)
Lemma debounce_fires_example :
  exists i,
    Debounce.timeout
      (Debounce.run 2 (([Debounce.Call 3] ++ [Debounce.Call 7])
                       ++ [Debounce.Fire 0; Debounce.Tick; Debounce.Tick])
                    (Debounce.fresh 0 0))
      = Some i /\
    Debounce.invoked 2
      (Debounce.run 2 (([Debounce.Call 3] ++ [Debounce.Call 7])
                       ++ [Debounce.Fire 0; Debounce.Tick; Debounce.Tick])
                    (Debounce.fresh 0 0))
      (Debounce.Fire i) = Some 7.
Proof.
  apply (debounce_fires_after_quiet_wait 2 0 0 [Debounce.Call 3]
           [Debounce.Fire 0; Debounce.Tick; Debounce.Tick] 7).
  - split; [repeat constructor|].
    intros q1 e q2 E.
    destruct q1 as [|? [|? [|? [|]]]]; simplify_eq/=; reflexivity.
  - vm_compute. lia.
Defined.

(** X2.  The arguments [func] runs on are a subsequence of the arguments
    the wrapper was called with: every run belongs to a call of its own,
    in the order of the calls, and calls that were followed too soon by
    another call are skipped. *)
Theorem debounce_runs_subsequence_of_calls {Args : Type} (wait n0 i0 : nat)
    (evs : list (@Debounce.Event Args)) :
  DebounceRuns.ranOn wait evs (Debounce.fresh n0 i0)
    `sublist_of` DebounceRuns.calledWith evs.
Proof.
  destruct (DebounceRunsFacts.runs_within_calls wait n0 i0 evs) as (cs & Hc & Hr).
  rewrite Hc. by apply sublist_inserts_r.
Qed.

(** ** More on the page name *)

Module PageNameFacts.
Import JSString.
#[local] Arguments String.append !s1 s2 : simpl nomatch.

Lemma mem_skip c n s : mem c (skip n s) = true -> mem c s = true.
Proof.
  revert s. induction n as [|n IH]; intros s; [by destruct s|].
  destruct s as [|d s]; [done|]. simpl. intros H%IH.
  by destruct (decide (d = c)).
Qed.

(** Removing an occurrence brings in no new character. *)
Lemma mem_replace c pat s : mem c (replace pat "" s) = true -> mem c s = true.
Proof.
  induction s as [|d s IH]; cbn [replace].
  - destruct (startsWith pat ""); [|done]. simpl. apply mem_skip.
  - destruct (startsWith pat (String d s)).
    + simpl. apply mem_skip.
    + simpl. destruct (decide (d = c)); [done | exact IH].
Qed.

(** Text without a percent sign decodes to itself. *)
Lemma decode_plain s : mem "%" s = false -> decode s [] 0 = Some s.
Proof.
  induction s as [|c s IH]; [done|]. simpl.
  destruct (decide (c = "%"%char)) as [->|Hc]; [done|].
  intros H. by rewrite (IH H).
Qed.

End PageNameFacts.

(** X3.  [NavigationEnhancement.getCurrentPageId] returns for every path,
    and the page id is never empty and never contains a slash. *)
Theorem getCurrentPageId_nonempty_no_slash (pathname : string) :
  exists pageId,
    getCurrentPageId pathname = Normal pageId /\
    pageId <> "" /\ JSString.mem "/" pageId = false.
Proof.
  destruct (JSStringFacts.pop_split "/" pathname) as (seg & Hpop & Hmem & _).
  unfold getCurrentPageId. rewrite Hpop. eexists. split; [reflexivity|].
  destruct (decide (JSString.replace ".html" "" seg = "")) as [E|E]; [done|].
  split; [exact E|].
  destruct (JSString.mem "/" (JSString.replace ".html" "" seg)) eqn:Hm; [|done].
  apply PageNameFacts.mem_replace in Hm. congruence.
Qed.

(** X4.  When the page id has no percent sign, [Utils.getCurrentPageName]
    returns, and returns the page id itself: the two page-name functions
    of the script agree. *)
Theorem getCurrentPageName_plain_page_id (pathname pageId : string) :
  getCurrentPageId pathname = Normal pageId ->
  JSString.mem "%" pageId = false ->
  getCurrentPageName pathname = Normal pageId.
Proof.
  unfold getCurrentPageId, getCurrentPageName.
  destruct (JSString.pop (JSString.split "/" pathname)) as [filename|]; [|done].
  intros [= <-] Hplain. unfold JSString.decodeURIComponent.
  by rewrite (PageNameFacts.decode_plain _ Hplain).
Qed.

Lemma getCurrentPageName_plain_example :
  getCurrentPageName "/products/drip-irrigation.html" = Normal "drip-irrigation".
Proof.
  apply (getCurrentPageName_plain_page_id "/products/drip-irrigation.html" "drip-irrigation");
    reflexivity.
Defined.

(** ** More on form validation *)

Module SubmitFacts.

(** The submit listener changes neither its event nor the page. *)
Lemma submit_inert this e w : snd (invoke FormSubmit this e w) = (e, w).
Proof.
  destruct this; reflexivity.
Qed.

Lemma runListeners_submit cbs this s :
  Forall (fun cb => cb = FormSubmit) cbs ->
  event (runListeners cbs this s) = event s /\ world (runListeners cbs this s) = world s.
Proof.
  revert s. induction cbs as [|cb cbs IH]; intros s Hall; [done|].
  apply Forall_cons in Hall as [-> Hall]. cbn [runListeners].
  pose proof (submit_inert this (event s) (world s)) as Hs.
  destruct (invoke FormSubmit this (event s) (world s)) as [c [e w]].
  simpl in Hs. injection Hs as -> ->.
  destruct (IH (mkDispatch (match c with Normal _ => reported s | Throw x => reported s ++ [x] end)
                           (event s) (world s)) Hall) as [He Hw].
  by rewrite He, Hw.
Qed.

Lemma fold_left_preserves {A : Type} (P : World -> Prop) (f : World -> A -> World) l w :
  (forall w a, P w -> P (f w a)) -> P w -> P (fold_left f l w).
Proof.
  intros Hf. revert w. induction l as [|a l IH]; intros w Hw; [done|].
  simpl. apply IH. by apply Hf.
Qed.

Lemma onlyFormSubmit_add t ty cb w :
  (ty = "submit" -> cb = FormSubmit) -> onlyFormSubmit w ->
  onlyFormSubmit (addEventListener t ty cb w).
Proof.
  intros Hcb Hw l Hl Hty. apply elem_of_app in Hl as [Hl|Hl]; [by apply Hw|].
  apply list_elem_of_singleton in Hl as ->. by apply Hcb.
Qed.

Lemma onlyFormSubmit_setup w :
  onlyFormSubmit w -> onlyFormSubmit (snd (setupFormValidation w)).
Proof.
  unfold setupFormValidation. cbn [snd].
  apply fold_left_preserves. clear w. intros w form Hw.
  apply onlyFormSubmit_add; [done|].
  apply fold_left_preserves; [|done]. clear w Hw. intros w input Hw.
  apply onlyFormSubmit_add; [done|]. by apply onlyFormSubmit_add.
Qed.

Lemma propagate_submit path s :
  eventType (event s) = "submit" -> onlyFormSubmit (world s) ->
  event (propagate path s) = event s /\ world (propagate path s) = world s.
Proof.
  revert s. induction path as [|t path IH]; intros s Hty Hw; [done|].
  cbn [propagate].
  assert (Hall : Forall (fun cb => cb = FormSubmit)
                        (listenersAt t (eventType (event s)) (world s))).
  { apply Forall_forall. intros cb Hcb. unfold listenersAt in Hcb.
    apply list_elem_of_fmap in Hcb as (l & -> & Hl).
    apply list_elem_of_filter in Hl as [[_ Hlt] Hl]. apply Hw; [done|congruence]. }
  destruct (runListeners_submit _ (receiverOf t) s Hall) as [He Hwd].
  destruct (propagationStopped _); [by rewrite He, Hwd|].
  destruct (IH (runListeners (listenersAt t (eventType (event s)) (world s))
                             (receiverOf t) s)) as [He' Hw'];
    [by rewrite He | by rewrite Hwd |].
  by rewrite He', Hw', He, Hwd.
Qed.

End SubmitFacts.

(** X5.  On a page whose submit listeners are those that
    [setupFormValidation] registered, a submit event is never cancelled
    and its listeners leave the page as it was: [validateForm] is not
    reached, so a form with invalid fields is submitted all the same. *)
Theorem submit_is_never_cancelled (w0 w : World) (t : Target) :
  (forall l, l ∈ listeners w0 -> listenerType l <> "submit") ->
  listeners w = listeners (snd (setupFormValidation w0)) ->
  defaultPrevented (event (dispatch "submit" t w)) = false /\
  world (dispatch "submit" t w) = w.
Proof.
  intros H0 Hw. unfold dispatch.
  assert (Honly : onlyFormSubmit w).
  { unfold onlyFormSubmit. rewrite Hw. apply SubmitFacts.onlyFormSubmit_setup.
    intros l Hl Hty. by destruct (H0 l Hl). }
  destruct (SubmitFacts.propagate_submit
              (propagationPath (mkEvent "submit" t false false) (document w))
              (mkDispatch [] (mkEvent "submit" t false false) w)) as [He Hwd];
    [done..|].
  by rewrite He, Hwd.
Qed.

(** The form of the example page is submitted with its required field
    blank, and the event is not cancelled. *)
Lemma submit_example :
  defaultPrevented
    (event (dispatch "submit" (AtElement 5)
                     (snd (setupFormValidation Example.contactPage)))) = false /\
  world (dispatch "submit" (AtElement 5) (snd (setupFormValidation Example.contactPage)))
    = snd (setupFormValidation Example.contactPage).
Proof.
  apply (submit_is_never_cancelled Example.contactPage
           (snd (setupFormValidation Example.contactPage)) (AtElement 5)).
  - intros l Hl. vm_compute in Hl. by apply elem_of_nil in Hl.
  - reflexivity.
Defined.

(** X6.  [FormEnhancement.validateForm], called on a form element, leaves
    the page unchanged; it returns [true] when the form has no control
    under it, and throws a [TypeError] at the first control otherwise. *)
Theorem validateForm_empty_or_throws (u : nat) (w : World) :
  snd (validateForm (ThisElement u) w) = w /\
  (querySelectorAll formControls (descendants u (document w)) = [] ->
   fst (validateForm (ThisElement u) w) = Normal true) /\
  (querySelectorAll formControls (descendants u (document w)) <> [] ->
   fst (validateForm (ThisElement u) w)
     = Throw (TypeError "input.validateField is not a function")).
Proof.
  unfold validateForm.
  destruct (querySelectorAll formControls (descendants u (document w))) as [|i l]; simpl.
  - split; [done|]. split; done.
  - split; [done|]. split; done.
Qed.

Lemma validateForm_example :
  fst (validateForm (ThisElement 5) Example.contactPage)
  = Throw (TypeError "input.validateField is not a function").
Proof.
  apply (proj2 (proj2 (validateForm_empty_or_throws 5 Example.contactPage))).
  vm_compute. discriminate.
Defined.

(** ** Timers of the page *)

Module TimerFacts.
Import DOMFacts.

Lemma iter_tick {Task : Type} (n : nat) (h : Debounce.Host Task) :
  Nat.iter n Debounce.tick h
  = Debounce.mkHost (Debounce.now h + n) (Debounce.nextId h) (Debounce.pending h).
Proof.
  induction n as [|n IH]; simpl.
  - destruct h. simpl. f_equal. lia.
  - rewrite IH. unfold Debounce.tick. simpl. f_equal. lia.
Qed.

(** A timer armed [delay] time units ago is due. *)
Lemma due_after_delay {Task : Type} (h : Debounce.Host Task) task delay n :
  delay <= n ->
  Debounce.due (Debounce.nextId h)
    (Nat.iter n Debounce.tick (snd (Debounce.setTimeout task delay h)))
  = Some (task,
          Debounce.mkHost (Debounce.now h + n) (S (Debounce.nextId h))
                          (delete (Debounce.nextId h)
                             (<[Debounce.nextId h := (Debounce.now h + delay, task)]>
                                (Debounce.pending h)))).
Proof.
  intros Hn. rewrite iter_tick. unfold Debounce.due, Debounce.setTimeout. simpl.
  rewrite lookup_insert_eq. by rewrite decide_True by lia.
Qed.

Lemma lookupKey_assign_eq {V : Type} k (v : V) l : lookupKey k (assign k v l) = Some v.
Proof. unfold lookupKey, assign. by rewrite filter_cons_True. Qed.

Lemma lookupKey_assign_ne {V : Type} k k' (v : V) l :
  k <> k' -> lookupKey k (assign k' v l) = lookupKey k l.
Proof.
  intros Hne. unfold lookupKey, assign.
  rewrite filter_cons_False by (simpl; congruence). f_equal. f_equal.
  rewrite list_filter_filter. apply list_filter_iff. intros [k0 v0]. simpl.
  split; [tauto|]. intros ->. done.
Qed.

Lemma findElement_update_is_Some u u' f d :
  keepsUid f -> is_Some (findElement u d) -> is_Some (findElement u (update u' f d)).
Proof. intros Hk [e He]. rewrite findElement_update by done. rewrite He. by eexists. Qed.

Lemma findElement_updateAll_is_Some u us f d :
  keepsUid f -> is_Some (findElement u d) -> is_Some (findElement u (updateAll us f d)).
Proof.
  intros Hk. revert d. induction us as [|u' us IH]; intros d Hd; [done|].
  simpl. apply IH. by apply findElement_update_is_Some.
Qed.

End TimerFacts.

(** X7.  [debounce] does not pass [this] on.  When the input listener of
    a field -- [FieldInput] wrapped by [Utils.debounce(…, 300)] -- has been
    called and its timer runs after at least 300 time units, [func] is
    called with [this] undefined and throws a [TypeError] at
    [this.classList]; the document is as it was, so no field is validated
    again while the user types. *)
Theorem debounced_input_listener_throws
    (cell u n : nat) (e : Event) (w : World) :
  300 <= n ->
  let armed := snd (snd (invoke (Debounced cell 300 FieldInput) (ThisElement u) e w)) in
  let fired := fireTimer (Debounce.nextId (timers w)) (advance n armed) in
  fst (invoke (Debounced cell 300 FieldInput) (ThisElement u) e w) = Normal tt /\
  fst fired = Throw (TypeError "Cannot read properties of undefined (reading 'classList')") /\
  document (snd fired) = document w.
Proof.
  intros Hn armed fired. split; [reflexivity|].
  unfold fired, fireTimer, advance, armed. cbn [invoke snd timers withTimers cells].
  unfold Debounce.executedFunction. cbn [Debounce.timeout Debounce.host].
  set (h := Debounce.clearTimeout (cellValue cell w) (timers w)).
  assert (Hid : Debounce.nextId (timers w) = Debounce.nextId h)
    by (unfold h; by destruct (cellValue cell w)).
  rewrite Hid.
  destruct (Debounce.setTimeout (Later cell FieldInput e) 300 h) as [i h'] eqn:Hset.
  assert (Hh' : h' = snd (Debounce.setTimeout (Later cell FieldInput e) 300 h))
    by (by rewrite Hset).
  cbn [Debounce.host]. rewrite Hh', (TimerFacts.due_after_delay h _ 300 n Hn).
  split; reflexivity.
Qed.

Lemma debounced_input_listener_example :
  let w := snd (setupFormValidation Example.contactPage) in
  let e := mkEvent "input" (AtElement 7) false false in
  let armed := snd (snd (invoke (Debounced 0 300 FieldInput) (ThisElement 7) e w)) in
  let fired := fireTimer (Debounce.nextId (timers w)) (advance 300 armed) in
  fst (invoke (Debounced 0 300 FieldInput) (ThisElement 7) e w) = Normal tt /\
  fst fired = Throw (TypeError "Cannot read properties of undefined (reading 'classList')") /\
  document (snd fired) = document w.
Proof.
  apply (debounced_input_listener_throws 0 7 300
           (mkEvent "input" (AtElement 7) false false)
           (snd (setupFormValidation Example.contactPage))).
  lia.
Defined.

(** ** More on tabs *)

Module TabMoreFacts.
Import DOMFacts.
#[local] Arguments String.append !s1 s2 : simpl nomatch.

Lemma updateTabIndicator_keeps tab w :
  timers (snd (updateTabIndicator tab w)) = timers w /\
  (forall u, is_Some (findElement u (document w)) ->
             is_Some (findElement u (document (snd (updateTabIndicator tab w))))).
Proof.
  unfold updateTabIndicator.
  destruct (querySelector _ _) as [ind|]; [|done].
  destruct tab as [tab|]; [|done].
  destruct (parentOf tab (document w)) as [container|]; [|done].
  split; [done|]. intros u Hu. simpl.
  apply TimerFacts.findElement_update_is_Some; [by intros e | done].
Qed.

Lemma untilQuote_app tabId rest :
  JSString.mem "'" tabId = false ->
  OnClick.untilQuote (tabId +:+ String "'" rest) = (tabId, String "'" rest).
Proof.
  induction tabId as [|c tabId IH]; simpl; [done|].
  destruct (decide (c = "'"%char)); [done|]. intros H. by rewrite (IH H).
Qed.

(** The pattern finds the argument of an inline [switchTab('…')]. *)
Lemma switchTabArgument_inline tabId rest :
  tabId <> "" -> JSString.mem "'" tabId = false ->
  OnClick.switchTabArgument ("switchTab('" +:+ tabId +:+ "')" +:+ rest) = Some tabId.
Proof.
  intros Hne Hq.
  assert (Hm : OnClick.matchHere ("switchTab('" +:+ tabId +:+ "')" +:+ rest) = Some tabId).
  { unfold OnClick.matchHere, Pattern.stripPrefix.
    rewrite (proj2 (JSStringFacts.startsWith_spec _ _)) by (by eexists).
    rewrite JSStringFacts.skip_append.
    change ("')" +:+ rest) with (String "'" (String ")" rest)).
    rewrite (untilQuote_app _ _ Hq).
    rewrite bool_decide_eq_false_2 by done. simpl.
    reflexivity. }
  destruct tabId as [|c tabId]; [done|].
  change ("switchTab('" +:+ String c tabId +:+ "')" +:+ rest)
    with (String "s" ("witchTab('" +:+ String c tabId +:+ "')" +:+ rest)) in *.
  cbn [OnClick.switchTabArgument]. by rewrite Hm.
Qed.

End TabMoreFacts.

(** X9.  The fade-in of [switchTab] completes.  When the selected content
    exists, [switchTab] leaves it with inline opacity ['0'], and when the
    host runs the timer it armed, after at least 50 time units, the
    content has opacity ['1'] and transform ['translateY(0)']. *)
Theorem switchTab_fade_in_completes
    (w : World) (tabId : string) (clickedTab : option nat) (sel n : nat) :
  getElementById (tabId +:+ "-content") (document w) = Some sel ->
  is_Some (findElement sel (document w)) ->
  50 <= n ->
  let switched := snd (switchTab tabId clickedTab w) in
  let fired := fireTimer (Debounce.nextId (timers w)) (advance n switched) in
  fst fired = Normal tt /\
  exists e,
    findElement sel (document (snd fired)) = Some e /\
    lookupKey "opacity" (style e) = Some (Keyword "1") /\
    lookupKey "transform" (style e) = Some (Keyword "translateY(0)").
Proof.
  intros Hsel Hfound Hn. cbv zeta. unfold switchTab.
  set (cs := querySelectorAll tabContents (elementsOf (document w))).
  set (w1 := withDocument (updateAll cs hideContent) w).
  assert (Hsel1 : getElementById (tabId +:+ "-content") (document w1) = Some sel).
  { rewrite <- Hsel. eapply TabFacts.getElementById_map;
      [apply (TabFacts.steady_among cs), TabFacts.steady_hideContent|].
    apply DOMFacts.elementsOf_updateAll;
      [apply TabFacts.steady_keepsUid, TabFacts.steady_hideContent
      |apply TabFacts.hideContent_idempotent]. }
  rewrite Hsel1.
  set (w2 := schedule (FadeIn sel) 50 (withDocument (update sel showContent) w1)).
  set (ts := querySelectorAll tabButtons (elementsOf (document w2))).
  set (w3 := withDocument (updateAll ts (withClassList (ClassList.remove "active"))) w2).
  assert (Htimers : timers w3 = snd (Debounce.setTimeout (FadeIn sel) 50 (timers w)))
    by reflexivity.
  assert (Hfound3 : is_Some (findElement sel (document w3))).
  { apply TimerFacts.findElement_updateAll_is_Some; [by intros e|].
    apply TimerFacts.findElement_update_is_Some; [by intros e|].
    apply TimerFacts.findElement_updateAll_is_Some; [by intros e | done]. }
  set (w4 := match clickedTab with
             | Some tab => updateTabIndicator (Some tab)
                             (setClasses tab (ClassList.add "active") w3)
             | None => (Normal tt, w3)
             end).
  assert (H4 : timers (snd w4) = timers w3 /\ is_Some (findElement sel (document (snd w4)))).
  { unfold w4. destruct clickedTab as [tab|]; [|done].
    destruct (TabMoreFacts.updateTabIndicator_keeps (Some tab)
                (setClasses tab (ClassList.add "active") w3)) as [Ht Hk].
    split; [by rewrite Ht|]. apply Hk. simpl.
    apply TimerFacts.findElement_update_is_Some; [by intros e | done]. }
  destruct H4 as [Ht4 [e4 He4]].
  unfold fireTimer, advance. cbn [timers withTimers cells].
  rewrite Ht4, Htimers, (TimerFacts.due_after_delay (timers w) _ 50 n Hn).
  cbn [runTask]. split; [reflexivity|].
  unfold setStyles. cbn [snd document withDocument withTimers].
  eexists. split.
  - rewrite DOMFacts.findElement_update by (by intros e). rewrite He4. simpl.
    unfold whenUid. rewrite decide_True; [reflexivity|].
    unfold findElement in He4. destruct (findNode sel (document (snd w4))) as [k|] eqn:Ek;
      [|done]. injection He4 as <-. by eapply DOMFacts.findNode_root.
  - cbn [style setStyle]. split.
    + apply TimerFacts.lookupKey_assign_eq.
    + rewrite TimerFacts.lookupKey_assign_ne by done. apply TimerFacts.lookupKey_assign_eq.
Qed.

Lemma switchTab_fade_in_example :
  let switched := snd (switchTab "pivot" (Some 9) Example.contactPage) in
  let fired := fireTimer (Debounce.nextId (timers Example.contactPage))
                         (advance 50 switched) in
  fst fired = Normal tt /\
  exists e,
    findElement 11 (document (snd fired)) = Some e /\
    lookupKey "opacity" (style e) = Some (Keyword "1") /\
    lookupKey "transform" (style e) = Some (Keyword "translateY(0)").
Proof.
  apply (switchTab_fade_in_completes Example.contactPage "pivot" (Some 9) 11 50).
  - reflexivity.
  - eexists. vm_compute. reflexivity.
  - lia.
Defined.

(** X10.  [switchTab(tabId, null)] returns, and in the document it leaves
    no element matching ['.irrigation-tab, .tab-button'] has [active],
    while an element matching ['.tab-content'] lacks [hidden] exactly when
    it is the element that [getElementById(tabId + '-content')] finds. *)
Theorem switchTab_without_clicked_tab (w : World) (tabId : string) :
  fst (switchTab tabId None w) = Normal tt /\
  forall e,
    e ∈ elementsOf (document (snd (switchTab tabId None w))) ->
    (matches tabButtons e = true -> "active" ∉ classList e) /\
    (matches tabContents e = true ->
       ("hidden" ∉ classList e <->
        getElementById (tabId +:+ "-content") (document w) = Some (uid e))).
Proof.
  split; [reflexivity|].
  intros e' He'. unfold switchTab in He'.
  set (cs := querySelectorAll tabContents (elementsOf (document w))) in *.
  set (w1 := withDocument (updateAll cs hideContent) w) in *.
  assert (E1 : elementsOf (document w1)
               = map (whenAmong cs hideContent) (elementsOf (document w))).
  { apply DOMFacts.elementsOf_updateAll;
      [apply TabFacts.steady_keepsUid, TabFacts.steady_hideContent
      |apply TabFacts.hideContent_idempotent]. }
  assert (Hsel : getElementById (tabId +:+ "-content") (document w1)
                 = getElementById (tabId +:+ "-content") (document w)).
  { eapply TabFacts.getElementById_map; [|exact E1].
    apply TabFacts.steady_among, TabFacts.steady_hideContent. }
  rewrite Hsel in He'.
  set (sel := getElementById (tabId +:+ "-content") (document w)) in *.
  set (w2 := match sel with
             | Some s => schedule (FadeIn s) 50 (withDocument (update s showContent) w1)
             | None => w1
             end) in *.
  set (g2 := match sel with
             | Some s => whenUid s showContent
             | None => fun e => e
             end).
  assert (E2 : elementsOf (document w2) = map g2 (elementsOf (document w1))).
  { unfold w2, g2. destruct sel as [s|]; simpl;
      [apply DOMFacts.elementsOf_update | by rewrite map_id]. }
  set (ts := querySelectorAll tabButtons (elementsOf (document w2))) in *.
  set (f3 := withClassList (ClassList.remove "active")) in *.
  cbn [snd document withDocument] in He'.
  rewrite (DOMFacts.elementsOf_updateAll ts f3) in He'
    by (first [by intros ? | apply TabFacts.removeActive_idempotent]).
  rewrite E2, E1, !map_map in He'.
  apply list_elem_of_fmap in He' as (e & -> & He).
  set (e1 := whenAmong cs hideContent e).
  set (e2 := g2 e1).
  assert (Hu1 : uid e1 = uid e) by (unfold e1, whenAmong; by destruct (decide _)).
  assert (Hu2 : uid e2 = uid e).
  { unfold e2, g2. destruct sel; [unfold whenUid; destruct (decide _)|]; by rewrite ?Hu1. }
  assert (Hin2 : e2 ∈ elementsOf (document w2)).
  { rewrite E2, E1, map_map. apply list_elem_of_fmap. by exists e. }
  assert (Hkeep : forall token, token <> "hidden" -> token <> "active" ->
                    (token ∈ classList (whenAmong ts f3 e2) <-> token ∈ classList e) /\
                    (token ∈ classList e2 <-> token ∈ classList e)).
  { intros token Hh Ha. unfold e2, e1, g2, f3, whenUid, whenAmong.
    destruct sel; repeat destruct (decide _); TabFacts.classes; tauto. }
  split.
  - intros Hm. apply TabFacts.matches_tabButtons in Hm.
    assert (Hts : uid e2 ∈ ts).
    { apply TabFacts.querySelectorAll_elem; [exact Hin2|].
      apply TabFacts.matches_tabButtons.
      destruct (Hkeep "irrigation-tab" ltac:(done) ltac:(done)) as [K1 K2].
      destruct (Hkeep "tab-button" ltac:(done) ltac:(done)) as [K3 K4]. tauto. }
    unfold whenAmong. rewrite decide_True by exact Hts.
    unfold f3. TabFacts.classes. tauto.
  - intros Hm. apply TabFacts.matches_tabContents in Hm.
    destruct (Hkeep "tab-content" ltac:(done) ltac:(done)) as [K1 _].
    assert (Hcs : uid e ∈ cs).
    { apply TabFacts.querySelectorAll_elem; [exact He|].
      apply TabFacts.matches_tabContents. tauto. }
    assert (Hu3 : uid (whenAmong ts f3 e2) = uid e)
      by (unfold whenAmong, f3; by destruct (decide _)).
    rewrite Hu3.
    assert (Hhid : "hidden" ∈ classList (whenAmong ts f3 e2) <-> "hidden" ∈ classList e2).
    { unfold f3, whenAmong. destruct (decide _); TabFacts.classes; intuition discriminate. }
    rewrite Hhid. unfold e2, g2. destruct sel as [s|].
    + unfold whenUid. rewrite Hu1. destruct (decide (uid e = s)) as [->|Hne].
      * TabFacts.classes. split; [done|]. intros _ [H|[H _]]; done.
      * unfold e1, whenAmong. rewrite decide_True by exact Hcs.
        TabFacts.classes. split; [|intros [= ->]; done].
        intros H. exfalso. apply H. split; [done|by left].
    + unfold e1, whenAmong. rewrite decide_True by exact Hcs.
      TabFacts.classes. split; [|done].
      intros H. exfalso. apply H. split; [done|by left].
Qed.

Lemma switchTab_without_clicked_tab_example :
  let e := mkElement 8 "button" "" ["tab-button"] [] "" "" "" [] in
  (matches tabButtons e = true -> "active" ∉ classList e) /\
  (matches tabContents e = true ->
     ("hidden" ∉ classList e <->
      getElementById ("pivot" +:+ "-content") (document Example.contactPage)
        = Some (uid e))).
Proof.
  intros e.
  apply (proj2 (switchTab_without_clicked_tab Example.contactPage "pivot") e).
  apply list_elem_of_In. vm_compute. do 8 right. left. reflexivity.
Defined.

(** X11.  A tab button without [data-tab] whose inline [onclick] starts
    with [switchTab('id')] -- [id] not empty and free of quotes -- is
    switched by its click listener exactly as [switchTab(id, button)], and
    the click is default-prevented. *)
Theorem tabClick_reads_inline_onclick
    (u : nat) (button : Element) (tabId rest : string) (e : Event) (w : World) :
  findElement u (document w) = Some button ->
  truthy (getAttribute "data-tab" button) = None ->
  getAttribute "onclick" button = Some ("switchTab('" +:+ tabId +:+ "')" +:+ rest) ->
  tabId <> "" -> JSString.mem "'" tabId = false ->
  tabClick (ThisElement u) e w
  = (fst (switchTab tabId (Some u) w),
     (preventDefault e, snd (switchTab tabId (Some u) w))).
Proof.
  intros Hu Hdata Honclick Hne Hq. unfold tabClick. rewrite Hu, Hdata, Honclick.
  cbn [mbind option_bind]. rewrite (TabMoreFacts.switchTabArgument_inline _ _ Hne Hq).
  assert (Ht : truthy (Some tabId) = Some tabId) by (by destruct tabId).
  rewrite Ht. by destruct (switchTab tabId (Some u) w).
Qed.

Lemma tabClick_inline_onclick_example :
  let e := mkEvent "click" (AtElement 4) false false in
  tabClick (ThisElement 4) e TabsPage.page
  = (fst (switchTab "pivot" (Some 4) TabsPage.page),
     (preventDefault e, snd (switchTab "pivot" (Some 4) TabsPage.page))).
Proof.
  intros e.
  apply (tabClick_reads_inline_onclick 4
           (TabsPage.tab 4 ["irrigation-tab"] "switchTab('pivot'); return false;")
           "pivot" "; return false;" e TabsPage.page).
  - reflexivity.
  - reflexivity.
  - reflexivity.
  - discriminate.
  - reflexivity.
Defined.

(** ** More on the scroll-to-top animation *)

Module ScrollToTopFacts.
Import Easing ScrollToTop.
Local Open Scope Q_scope.

Lemma square_nonneg (z : Q) : 0 <= z * z.
Proof.
  destruct (Qlt_le_dec z 0) as [H|H].
  - assert (E : z * z == (0 - z) * (0 - z)) by ring. rewrite E.
    apply Qmult_le_0_compat; lra.
  - by apply Qmult_le_0_compat.
Qed.

Lemma cube_le (x y : Q) : x <= y -> x * x * x <= y * y * y.
Proof.
  intros H.
  assert (E : y * y * y - x * x * x
              == (y - x) * ((x + y * (1 # 2)) * (x + y * (1 # 2)) + (3 # 4) * (y * y)))
    by ring.
  assert (H1 : 0 <= (x + y * (1 # 2)) * (x + y * (1 # 2))) by apply square_nonneg.
  assert (H2 : 0 <= y * y) by apply square_nonneg.
  assert (H3 : 0 <= (y - x) * ((x + y * (1 # 2)) * (x + y * (1 # 2)) + (3 # 4) * (y * y))).
  { apply Qmult_le_0_compat; lra. }
  lra.
Qed.

Lemma scaled_le (t1 t2 d : Q) : 0 < d -> t1 <= t2 -> t1 / (d / 2) <= t2 / (d / 2).
Proof.
  intros Hd H. unfold Qdiv at 1 3.
  apply Qmult_le_compat_r; [exact H|].
  apply Qlt_le_weak, Qinv_lt_0_compat.
  assert (E : d / 2 == d * (1 # 2)) by field. rewrite E. lra.
Qed.

(** With a distance that is not positive, the eased position never
    increases with time. *)
Lemma antitone (t1 t2 b c d : Q) :
  0 < d -> c <= 0 -> t1 <= t2 ->
  easeInOutCubic t2 b c d <= easeInOutCubic t1 b c d.
Proof.
  intros Hd Hc Ht. pose proof (scaled_le t1 t2 d Hd Ht) as Hx.
  unfold easeInOutCubic.
  set (x1 := t1 / (d / 2)) in *. set (x2 := t2 / (d / 2)) in *.
  assert (Ek : c / 2 == c * (1 # 2)) by field.
  assert (Hk : c / 2 <= 0) by (rewrite Ek; lra).
  set (k := c / 2) in *. clearbody k x1 x2.
  assert (Hmul : forall u v, u <= v -> k * v <= k * u).
  { intros u v Huv.
    assert (0 <= (0 - k) * (v - u)) by (apply Qmult_le_0_compat; lra).
    assert (E : (0 - k) * (v - u) == k * u - k * v) by ring. lra. }
  destruct (Qlt_le_dec x2 1) as [H2|H2], (Qlt_le_dec x1 1) as [H1|H1].
  - pose proof (Hmul _ _ (cube_le x1 x2 Hx)) as H.
    assert (E1 : k * x1 * x1 * x1 == k * (x1 * x1 * x1)) by ring.
    assert (E2 : k * x2 * x2 * x2 == k * (x2 * x2 * x2)) by ring. lra.
  - lra.
  - assert (Ha : x1 * x1 * x1 <= 1 * 1 * 1) by (apply cube_le; lra).
    assert (Hb : (0 - 1) * (0 - 1) * (0 - 1) <= (x2 - 2) * (x2 - 2) * (x2 - 2))
      by (apply cube_le; lra).
    pose proof (Hmul _ _ Ha) as Ha'. pose proof (Hmul _ _ Hb) as Hb'.
    assert (E1 : k * x1 * x1 * x1 == k * (x1 * x1 * x1)) by ring.
    assert (E2 : k * ((x2 - 2) * (x2 - 2) * (x2 - 2) + 2)
                 == k * ((x2 - 2) * (x2 - 2) * (x2 - 2)) + 2 * k) by ring.
    assert (E3 : k * ((0 - 1) * (0 - 1) * (0 - 1)) == 0 - k) by ring.
    assert (E4 : k * (1 * 1 * 1) == k) by ring. lra.
  - assert (Ha : (x1 - 2) * (x1 - 2) * (x1 - 2) <= (x2 - 2) * (x2 - 2) * (x2 - 2))
      by (apply cube_le; lra).
    pose proof (Hmul _ _ Ha) as Ha'.
    assert (E1 : k * ((x1 - 2) * (x1 - 2) * (x1 - 2) + 2)
                 == k * ((x1 - 2) * (x1 - 2) * (x1 - 2)) + 2 * k) by ring.
    assert (E2 : k * ((x2 - 2) * (x2 - 2) * (x2 - 2) + 2)
                 == k * ((x2 - 2) * (x2 - 2) * (x2 - 2)) + 2 * k) by ring. lra.
Qed.

Lemma descending_snoc p0 ps a b :
  descending p0 (ps ++ [a]) -> b <= a -> descending p0 ((ps ++ [a]) ++ [b]).
Proof.
  revert p0. induction ps as [|p ps IH]; simpl; intros p0 [H1 H2] Hb.
  - done.
  - split; [done|]. by apply IH.
Qed.

Lemma position_at_end cs :
  easeInOutCubic duration cs (targetScroll - cs) duration == 0.
Proof.
  rewrite EasingFacts.at_end by discriminate. unfold targetScroll. ring.
Qed.

Lemma position_at_start cs :
  easeInOutCubic 0 cs (targetScroll - cs) duration == cs.
Proof. apply EasingFacts.at_start. discriminate. Qed.

Lemma position_above_top cs e :
  0 <= cs -> e <= duration -> 0 <= easeInOutCubic e cs (targetScroll - cs) duration.
Proof.
  intros Hcs He. rewrite <- (position_at_end cs).
  apply antitone; [reflexivity | unfold targetScroll; lra | exact He].
Qed.

Lemma position_below_top cs e :
  0 <= cs -> duration <= e -> easeInOutCubic e cs (targetScroll - cs) duration <= 0.
Proof.
  intros Hcs He. rewrite <- (position_at_end cs).
  apply antitone; [reflexivity | unfold targetScroll; lra | exact He].
Qed.

Lemma position_below_start cs e :
  0 <= cs -> 0 <= e -> easeInOutCubic e cs (targetScroll - cs) duration <= cs.
Proof.
  intros Hcs He.
  apply Qle_trans with (easeInOutCubic 0 cs (targetScroll - cs) duration).
  - apply antitone; [reflexivity | unfold targetScroll; lra | exact He].
  - apply Qle_lteq. right. apply position_at_start.
Qed.

Lemma inv_first cs t0 : 0 <= cs -> inv cs t0 (frame cs click t0) t0.
Proof.
  intros Hcs. unfold frame, click, animation. cbn [requested start scrolledTo].
  split; [reflexivity|]. exists [], t0.
  assert (E : t0 - t0 == 0) by ring.
  cbn [requested scrolledTo app]. repeat split; try apply Qle_refl.
  - apply position_below_start; [exact Hcs | lra].
  - constructor.
  - destruct (Qlt_le_dec (t0 - t0) duration) as [H|H]; [done|].
    exfalso. unfold duration in H. lra.
Qed.

Lemma inv_frame cs t0 s tp t :
  0 <= cs -> inv cs t0 s tp -> tp <= t -> inv cs t0 (frame cs s t) t.
Proof.
  intros Hcs (Hstart & ps & tl & H0 & Hl & Hps & Hdesc & Hpos & Hreq) Ht.
  unfold frame. destruct (requested s) eqn:Er.
  - destruct Hreq as [-> Hlt]. unfold animation. rewrite Hstart.
    split; [reflexivity|]. cbn [requested scrolledTo].
    exists (scrolledTo s), t. repeat split.
    + by apply Qle_trans with tp.
    + apply Qle_refl.
    + rewrite Hps in Hdesc |- *. apply descending_snoc; [exact Hdesc|].
      apply antitone; [reflexivity | unfold targetScroll; lra | lra].
    + rewrite Hps. apply Forall_app. split; [exact Hpos|].
      constructor; [|constructor]. apply position_above_top; [exact Hcs | lra].
    + destruct (Qlt_le_dec (t - t0) duration) as [H|H]; [done | exact H].
  - split; [exact Hstart|]. exists ps, tl. rewrite Er.
    repeat split; try done. by apply Qle_trans with tp.
Qed.

Lemma inv_frames cs t0 ts : forall s tp,
  0 <= cs -> inv cs t0 s tp -> ascending tp ts ->
  exists tp', inv cs t0 (fold_left (frame cs) ts s) tp' /\
              tp <= tp' /\ Forall (fun t => t <= tp') ts.
Proof.
  induction ts as [|t ts IH]; intros s tp Hcs Hinv Hasc.
  - exists tp. split; [exact Hinv|]. split; [apply Qle_refl | constructor].
  - destruct Hasc as [Ht Hasc]. simpl.
    destruct (IH (frame cs s t) t Hcs (inv_frame _ _ _ _ _ Hcs Hinv Ht) Hasc)
      as (tp' & Hinv' & Hle & Hall).
    exists tp'. split; [exact Hinv'|]. split; [by apply Qle_trans with t|].
    constructor; [exact Hle | exact Hall].
Qed.

End ScrollToTopFacts.

(** X12.  [easeInOutCubic] is point-symmetric about the middle of the
    animation: for a duration other than zero, the values at [t] and at
    [d - t] add up to [2b + c]. *)
Theorem easeInOutCubic_point_symmetric (t b c d : Q) :
  (~ d == 0)%Q ->
  (Easing.easeInOutCubic t b c d + Easing.easeInOutCubic (d - t) b c d == 2 * b + c)%Q.
Proof.
  intros Hd. unfold Easing.easeInOutCubic.
  assert (E : ((d - t) / (d / 2) == 2 - t / (d / 2))%Q) by (field; exact Hd).
  set (x := (t / (d / 2))%Q) in *. set (y := ((d - t) / (d / 2))%Q) in *.
  clearbody x y.
  destruct (Qlt_le_dec x 1) as [Hx|Hx], (Qlt_le_dec y 1) as [Hy|Hy].
  - exfalso. lra.
  - rewrite E. field.
  - rewrite E. field.
  - assert (Ex : (x == 1)%Q) by lra. rewrite E, Ex. field.
Qed.

Lemma easeInOutCubic_point_symmetric_example :
  (Easing.easeInOutCubic 250 800 (-800) 1000
   + Easing.easeInOutCubic (1000 - 250) 800 (-800) 1000 == 2 * 800 + -800)%Q.
Proof.
  apply (easeInOutCubic_point_symmetric 250 800 (-800) 1000). discriminate.
Defined.

(** X13.  The scroll-to-top animation never scrolls back down the page:
    with a scroll position that is not negative at the click and frame
    timestamps that never run backwards, the positions it passes to
    [window.scrollTo] start at or below the position at the click and
    never increase from one frame to the next. *)
Theorem scrollToTop_never_scrolls_down (currentScroll t0 : Q) (ts : list Q) :
  (0 <= currentScroll)%Q ->
  ScrollToTop.ascending t0 ts ->
  ScrollToTop.descending currentScroll
    (ScrollToTop.scrolledTo (ScrollToTop.frames currentScroll (t0 :: ts))).
Proof.
  intros Hcs Hasc.
  destruct (ScrollToTopFacts.inv_frames currentScroll t0 ts _ t0 Hcs
              (ScrollToTopFacts.inv_first currentScroll t0 Hcs) Hasc)
    as (tp & (_ & ps & tl & _ & _ & _ & Hdesc & _) & _).
  exact Hdesc.
Qed.

Lemma scrollToTop_never_scrolls_down_example :
  ScrollToTop.descending 800
    (ScrollToTop.scrolledTo (ScrollToTop.frames 800 [0; 16; 500; 990; 1007; 1024]%Q)).
Proof.
  apply (scrollToTop_never_scrolls_down 800 0 [16; 500; 990; 1007; 1024]%Q).
  - discriminate.
  - simpl. repeat split; discriminate.
Defined.

(** X14.  The scroll-to-top animation ends at the top.  Once the host has
    rendered a frame [duration] or more after the first one, no further
    frame is requested, the last position passed to [window.scrollTo] is
    at or above the top of the page (zero or less), and no earlier one is
    above the top. *)
Theorem scrollToTop_ends_at_top (currentScroll t0 t : Q) (ts : list Q) :
  (0 <= currentScroll)%Q ->
  ScrollToTop.ascending t0 ts ->
  In t ts -> (t0 + ScrollToTop.duration <= t)%Q ->
  let s := ScrollToTop.frames currentScroll (t0 :: ts) in
  ScrollToTop.requested s = false /\
  exists ps run,
    ScrollToTop.scrolledTo s = ps ++ [run] /\
    (run <= 0)%Q /\ Forall (fun p => 0 <= p)%Q ps.
Proof.
  intros Hcs Hasc Hin Ht s.
  destruct (ScrollToTopFacts.inv_frames currentScroll t0 ts _ t0 Hcs
              (ScrollToTopFacts.inv_first currentScroll t0 Hcs) Hasc)
    as (tp & (_ & ps & tl & _ & _ & Hps & _ & Hpos & Hreq) & _ & Hall).
  change (fold_left _ ts _) with s in Hps, Hreq.
  assert (Hle : (t <= tp)%Q).
  { rewrite List.Forall_forall in Hall. by apply Hall. }
  destruct (ScrollToTop.requested s).
  - exfalso. destruct Hreq as [_ Hlt]. lra.
  - split; [reflexivity|]. eexists ps, _. split; [exact Hps|]. split; [|exact Hpos].
    by apply ScrollToTopFacts.position_below_top.
Qed.

Lemma scrollToTop_ends_at_top_example :
  let s := ScrollToTop.frames 800 [0; 16; 500; 990; 1007; 1024]%Q in
  ScrollToTop.requested s = false /\
  exists ps run,
    ScrollToTop.scrolledTo s = ps ++ [run] /\
    (run <= 0)%Q /\ Forall (fun p => 0 <= p)%Q ps.
Proof.
  apply (scrollToTop_ends_at_top 800 0 1007 [16; 500; 990; 1007; 1024]%Q).
  - discriminate.
  - simpl. repeat split; discriminate.
  - simpl. tauto.
  - discriminate.
Defined.

(** ** More on the [DOMContentLoaded] listener *)

Module AnimationFacts.
Import DOMFacts.

Lemma disableStyles_style e :
  disableStyles e
  = mkElement (uid e) (tagName e) (id e) (classList e) (attributes e)
              (value e) (type e) (textContent e)
              (assign "transition" (Keyword "none")
                 (assign "filter" (Keyword "none")
                    (assign "transform" (Keyword "none")
                       (assign "opacity" (Keyword "1") (style e))))).
Proof. by destruct e. Qed.

Lemma disableStyles_idempotent e : disableStyles (disableStyles e) = disableStyles e.
Proof.
  rewrite (disableStyles_style (disableStyles e)), (disableStyles_style e).
  cbn [uid tagName id classList attributes value type textContent style].
  f_equal. unfold assign.
  set (T := fun kv : string * StyleValue => kv.1 <> "transition").
  set (F := fun kv : string * StyleValue => kv.1 <> "filter").
  set (R := fun kv : string * StyleValue => kv.1 <> "transform").
  set (O := fun kv : string * StyleValue => kv.1 <> "opacity").
  set (l := style e).
  assert (HT : forall k v m, k <> "transition" -> filter T ((k, v) :: m) = (k, v) :: filter T m)
    by (intros; by rewrite filter_cons_True).
  assert (HF : forall k v m, k <> "filter" -> filter F ((k, v) :: m) = (k, v) :: filter F m)
    by (intros; by rewrite filter_cons_True).
  assert (HR : forall k v m, k <> "transform" -> filter R ((k, v) :: m) = (k, v) :: filter R m)
    by (intros; by rewrite filter_cons_True).
  assert (HO : forall k v m, k <> "opacity" -> filter O ((k, v) :: m) = (k, v) :: filter O m)
    by (intros; by rewrite filter_cons_True).
  assert (HT' : forall v m, filter T (("transition", v) :: m) = filter T m)
    by (intros; rewrite filter_cons_False; [done | unfold T; simpl; tauto]).
  assert (HF' : forall v m, filter F (("filter", v) :: m) = filter F m)
    by (intros; rewrite filter_cons_False; [done | unfold F; simpl; tauto]).
  assert (HR' : forall v m, filter R (("transform", v) :: m) = filter R m)
    by (intros; rewrite filter_cons_False; [done | unfold R; simpl; tauto]).
  assert (HO' : forall v m, filter O (("opacity", v) :: m) = filter O m)
    by (intros; rewrite filter_cons_False; [done | unfold O; simpl; tauto]).
  repeat first
    [ rewrite HT' | rewrite HF' | rewrite HR' | rewrite HO'
    | rewrite HT by done | rewrite HF by done | rewrite HR by done | rewrite HO by done ].
  do 4 f_equal.
  rewrite !list_filter_filter. apply list_filter_iff. tauto.
Qed.

Lemma documentHead_uids d h : documentHead d = Some h -> h ∈ uids d.
Proof.
  unfold documentHead. destruct d as [e ks]. cbn [childNodes]. intros H.
  apply fmap_Some in H as (x & Hx & ->). apply head_Some_elem_of in Hx.
  apply list_elem_of_filter in Hx as [_ Hx]. apply list_elem_of_fmap in Hx as (k & -> & Hk).
  rewrite TreeFacts.uids_node. right. apply TreeFacts.elem_of_flat_map.
  exists k. split; [done|]. destruct k as [x xs]. rewrite TreeFacts.uids_node. left.
Qed.

End AnimationFacts.

(** X15.  On a document with a [head], the block that disables the
    animations returns; afterwards the document holds a [style] element
    with the injected rules, and every element that matches
    ['.irrigation-card, .product-image-card, .card, .bg-base-200,
    .bg-base-100, h1, h2, h3, p'] has the inline styles [opacity: 1],
    [transform: none], [filter: none] and [transition: none]. *)
Theorem disableAnimations_stills_the_page (w : World) (h : nat) :
  documentHead (document w) = Some h ->
  fst (disableAnimations w) = Normal tt /\
  (exists s, s ∈ elementsOf (document (snd (disableAnimations w))) /\
             tagName s = "style" /\ textContent s = disableAnimationsCSS) /\
  forall e,
    e ∈ elementsOf (document (snd (disableAnimations w))) ->
    matches animatedSelector e = true ->
    lookupKey "opacity" (style e) = Some (Keyword "1") /\
    lookupKey "transform" (style e) = Some (Keyword "none") /\
    lookupKey "filter" (style e) = Some (Keyword "none") /\
    lookupKey "transition" (style e) = Some (Keyword "none").
Proof.
  intros Hh. unfold disableAnimations.
  change (document (consoleLog _ w)) with (document w). rewrite Hh.
  set (w1 := appendNew h "style" [] disableAnimationsCSS (consoleLog _ w)).
  set (us := querySelectorAll animatedSelector (elementsOf (document w1))).
  cbn [fst snd document withDocument].
  assert (E : elementsOf (updateAll us disableStyles (document w1))
              = map (whenAmong us disableStyles) (elementsOf (document w1))).
  { apply DOMFacts.elementsOf_updateAll;
      [by intros e | apply AnimationFacts.disableStyles_idempotent]. }
  rewrite E. split; [reflexivity|]. split.
  - assert (Hs : createElement (nextUid w) "style" [] disableAnimationsCSS
                 ∈ elementsOf (document w1)).
    { apply (TreeFacts.appendChild_elements h (mkNode _ [])).
      by apply AnimationFacts.documentHead_uids. }
    eexists. split; [apply list_elem_of_fmap; eexists; split; [reflexivity | exact Hs]|].
    unfold whenAmong. by destruct (decide _).
  - intros e' He' Hm. apply list_elem_of_fmap in He' as (e & -> & He).
    assert (Hin : uid e ∈ us).
    { apply TabFacts.querySelectorAll_elem; [exact He|].
      revert Hm. unfold whenAmong. by destruct (decide _). }
    unfold whenAmong. rewrite decide_True by exact Hin.
    rewrite AnimationFacts.disableStyles_style. cbn [style].
    repeat split;
      repeat first [ apply TimerFacts.lookupKey_assign_eq
                   | rewrite TimerFacts.lookupKey_assign_ne by done ].
Qed.

Lemma disableAnimations_example :
  fst (disableAnimations Example.contactPage) = Normal tt /\
  (exists s, s ∈ elementsOf (document (snd (disableAnimations Example.contactPage))) /\
             tagName s = "style" /\ textContent s = disableAnimationsCSS) /\
  forall e,
    e ∈ elementsOf (document (snd (disableAnimations Example.contactPage))) ->
    matches animatedSelector e = true ->
    lookupKey "opacity" (style e) = Some (Keyword "1") /\
    lookupKey "transform" (style e) = Some (Keyword "none") /\
    lookupKey "filter" (style e) = Some (Keyword "none") /\
    lookupKey "transition" (style e) = Some (Keyword "none").
Proof. apply (disableAnimations_stills_the_page Example.contactPage 1). reflexivity. Defined.

(** ** Closure cells of debounced listeners *)

Module CellFacts.

(** [w] extends [w0] by listeners whose debounce wrappers own the cells
    added since, all of them still [undefined]. *)
Lemma extends_refl w :
  exists added,
    listeners w = listeners w ++ added /\
    cells w = cells w ++ replicate (length (debouncedCells added)) None /\
    debouncedCells added = seq (length (cells w)) (length (debouncedCells added)).
Proof. exists []. simpl. by rewrite !app_nil_r. Qed.

Lemma extends_plain w0 w t ty cb :
  (forall cell wait func, cb <> Debounced cell wait func) ->
  (exists added,
     listeners w = listeners w0 ++ added /\
     cells w = cells w0 ++ replicate (length (debouncedCells added)) None /\
     debouncedCells added = seq (length (cells w0)) (length (debouncedCells added))) ->
  exists added,
    listeners (addEventListener t ty cb w) = listeners w0 ++ added /\
    cells (addEventListener t ty cb w)
    = cells w0 ++ replicate (length (debouncedCells added)) None /\
    debouncedCells added = seq (length (cells w0)) (length (debouncedCells added)).
Proof.
  intros Hcb (added & Hl & Hc & Hd). exists (added ++ [mkListener t ty cb]).
  assert (E : debouncedCells (added ++ [mkListener t ty cb]) = debouncedCells added).
  { unfold debouncedCells. rewrite omap_app. simpl.
    destruct cb; try (by rewrite app_nil_r). by destruct (Hcb cell wait cb). }
  rewrite E. cbn [listeners cells addEventListener]. rewrite Hl.
  split; [by rewrite app_assoc|]. split; done.
Qed.

Lemma extends_debounced w0 w t ty func wait :
  (exists added,
     listeners w = listeners w0 ++ added /\
     cells w = cells w0 ++ replicate (length (debouncedCells added)) None /\
     debouncedCells added = seq (length (cells w0)) (length (debouncedCells added))) ->
  exists added,
    listeners (addEventListener t ty (fst (debounce func wait w)) (snd (debounce func wait w)))
    = listeners w0 ++ added /\
    cells (addEventListener t ty (fst (debounce func wait w)) (snd (debounce func wait w)))
    = cells w0 ++ replicate (length (debouncedCells added)) None /\
    debouncedCells added = seq (length (cells w0)) (length (debouncedCells added)).
Proof.
  intros (added & Hl & Hc & Hd).
  exists (added ++ [mkListener t ty (Debounced (length (cells w)) wait func)]).
  assert (E : debouncedCells
                (added ++ [mkListener t ty (Debounced (length (cells w)) wait func)])
              = debouncedCells added ++ [length (cells w)]).
  { unfold debouncedCells. by rewrite omap_app. }
  rewrite E, length_app. cbn [length]. rewrite Nat.add_1_r.
  unfold debounce. cbn [fst snd listeners cells addEventListener withTimers]. rewrite Hl.
  split; [by rewrite app_assoc|]. split.
  - rewrite Hc at 1. rewrite <- app_assoc. f_equal.
    change [None] with (replicate 1 (@None nat)).
    rewrite <- replicate_add. f_equal. lia.
  - rewrite seq_S, <- Hd. f_equal. f_equal.
    rewrite Hc, length_app, length_replicate. done.
Qed.

End CellFacts.

(** X17.  [setupFormValidation] only adds listeners, and the debounced
    input listeners among them own the closure cells added since, one
    each, in order and all still [undefined]: no two fields share a
    [timeout] variable, and no cell of an earlier wrapper is touched. *)
Theorem setupFormValidation_gives_each_input_its_own_cell (w : World) :
  exists added,
    listeners (snd (setupFormValidation w)) = listeners w ++ added /\
    cells (snd (setupFormValidation w))
    = cells w ++ replicate (length (debouncedCells added)) None /\
    debouncedCells added = seq (length (cells w)) (length (debouncedCells added)).
Proof.
  unfold setupFormValidation. cbn [snd].
  apply (SubmitFacts.fold_left_preserves
           (fun w' => exists added,
              listeners w' = listeners w ++ added /\
              cells w' = cells w ++ replicate (length (debouncedCells added)) None /\
              debouncedCells added = seq (length (cells w)) (length (debouncedCells added))));
    [|apply CellFacts.extends_refl].
  intros w1 form H1. apply CellFacts.extends_plain; [done|].
  apply (SubmitFacts.fold_left_preserves
           (fun w' => exists added,
              listeners w' = listeners w ++ added /\
              cells w' = cells w ++ replicate (length (debouncedCells added)) None /\
              debouncedCells added = seq (length (cells w)) (length (debouncedCells added))));
    [|exact H1].
  intros w2 input H2.
  apply (CellFacts.extends_debounced w _ (AtElement input) "input" FieldInput 300).
  by apply CellFacts.extends_plain.
Qed.

(** X18.  Debounced wrappers with different closure cells do not cancel
    each other's timers: after a call of one and then of the other, each
    cell holds the handle of its own call, and both [later] callbacks are
    pending with their own delays. *)
Theorem debounced_wrappers_keep_their_timers
    (c1 c2 wait1 wait2 : nat) (f1 f2 : Callback) (this1 this2 : Receiver)
    (e1 e2 : Event) (w : World) :
  c1 <> c2 -> c1 < length (cells w) -> c2 < length (cells w) -> handlesIssued w ->
  let w1 := snd (snd (invoke (Debounced c1 wait1 f1) this1 e1 w)) in
  let w2 := snd (snd (invoke (Debounced c2 wait2 f2) this2 e2 w1)) in
  let i := Debounce.nextId (timers w) in
  cellValue c1 w2 = Some i /\ cellValue c2 w2 = Some (S i) /\
  Debounce.pending (timers w2) !! i
  = Some (Debounce.now (timers w) + wait1, Later c1 f1 e1) /\
  Debounce.pending (timers w2) !! S i
  = Some (Debounce.now (timers w) + wait2, Later c2 f2 e2).
Proof.
  intros Hne H1 H2 Hissued. cbv zeta.
  cbn [invoke snd].
  set (h := timers w).
  assert (Hc2 : cellValue c2
                  (withTimers
                     (Debounce.host
                        (Debounce.executedFunction wait1 (Later c1 f1 e1)
                           (Debounce.mkSystem h (cellValue c1 w))))
                     (<[c1 := Debounce.timeout
                                (Debounce.executedFunction wait1 (Later c1 f1 e1)
                                   (Debounce.mkSystem h (cellValue c1 w)))]> (cells w)) w)
                = cellValue c2 w).
  { unfold cellValue. cbn [cells withTimers]. by rewrite list_lookup_insert_ne. }
  rewrite Hc2. unfold cellValue at 1 2. cbn [cells withTimers timers].
  unfold Debounce.executedFunction.
  cbn [Debounce.setTimeout Debounce.host Debounce.timeout Debounce.nextId Debounce.now
       Debounce.pending fst snd].
  assert (Hn1 : forall o, Debounce.nextId (Debounce.clearTimeout o h) = Debounce.nextId h)
    by (by intros [?|]).
  assert (Hnow1 : forall o, Debounce.now (Debounce.clearTimeout o h) = Debounce.now h)
    by (by intros [?|]).
  rewrite !Hn1, !Hnow1.
  set (i := Debounce.nextId h).
  set (p1 := <[i := (Debounce.now h + wait1, Later c1 f1 e1)]>
               (Debounce.pending (Debounce.clearTimeout (cellValue c1 w) h))).
  set (h1 := Debounce.mkHost (Debounce.now h) (S i) p1).
  assert (Hn2 : Debounce.nextId (Debounce.clearTimeout (cellValue c2 w) h1) = S i)
    by (by destruct (cellValue c2 w)).
  assert (Hnow2 : Debounce.now (Debounce.clearTimeout (cellValue c2 w) h1) = Debounce.now h)
    by (by destruct (cellValue c2 w)).
  rewrite !Hn2, !Hnow2.
  split; [|split; [|split]].
  - rewrite list_lookup_insert_ne by done.
    rewrite list_lookup_insert_eq by done. reflexivity.
  - unfold cellValue. cbn [cells withTimers].
    rewrite list_lookup_insert_eq by (by rewrite length_insert). reflexivity.
  - rewrite lookup_insert_ne by lia.
    destruct (cellValue c2 w) as [j|] eqn:Ej; unfold h1;
      cbn [Debounce.clearTimeout Debounce.pending].
    + pose proof (Hissued c2 j Ej) as Hj. fold h i in Hj.
      rewrite lookup_delete_ne by lia. unfold p1. by rewrite lookup_insert_eq.
    + unfold p1. by rewrite lookup_insert_eq.
  - by rewrite lookup_insert_eq.
Qed.

Lemma debounced_wrappers_example :
  let w := snd (setupMobileMenu (snd (setupFormValidation Example.contactPage))) in
  let e := mkEvent "input" (AtElement 7) false false in
  let r := mkEvent "resize" AtWindow false false in
  let w1 := snd (snd (invoke (Debounced 0 300 FieldInput) (ThisElement 7) e w)) in
  let w2 := snd (snd (invoke (Debounced 1 250 (MobileMenuResize 4)) ThisWindow r w1)) in
  cellValue 0 w2 = Some 1 /\ cellValue 1 w2 = Some 2 /\
  Debounce.pending (timers w2) !! 1 = Some (0 + 300, Later 0 FieldInput e) /\
  Debounce.pending (timers w2) !! 2 = Some (0 + 250, Later 1 (MobileMenuResize 4) r).
Proof.
  intros w e r.
  apply (debounced_wrappers_keep_their_timers 0 1 300 250 FieldInput (MobileMenuResize 4)
           (ThisElement 7) ThisWindow e r w).
  - lia.
  - vm_compute. lia.
  - vm_compute. lia.
  - intros cell i. unfold cellValue. vm_compute.
    destruct cell as [|[|cell]]; discriminate.
Defined.

(** ** Active navigation *)

Module NavigationFacts.
Import ActiveNavigation.

Lemma markActive_idempotent p e : markActive p (markActive p e) = markActive p e.
Proof.
  unfold markActive. destruct (decide (getAttribute "data-nav" e = Some p)) as [E|E].
  - change (getAttribute "data-nav" (withClassList (ClassList.add "active") e))
      with (getAttribute "data-nav" e).
    rewrite decide_True by done. unfold withClassList. simpl. f_equal.
    unfold ClassList.add at 1.
    assert (H : ClassList.contains "active" (ClassList.add "active" (classList e)) = true).
    { apply ClassListFacts.contains_true, ClassListFacts.elem_of_add. by left. }
    by rewrite H.
  - by rewrite decide_False.
Qed.

Lemma markActive_keepsUid p : keepsUid (markActive p).
Proof. intros e. unfold markActive. by destruct (decide _). Qed.

End NavigationFacts.

(** X19.  [setupActiveNavigation] returns on every path.  Elements keep
    their places, identities and attributes, and an element has a class
    afterwards exactly when it had it before, or the class is [active]
    and the element's [data-nav] is the current page id. *)
Theorem setupActiveNavigation_marks_current_page (w : World) :
  exists pageId,
    getCurrentPageId (pathname (env w)) = Normal pageId /\
    fst (ActiveNavigation.setupActiveNavigation w) = Normal tt /\
    forall i e,
      elementsOf (document w) !! i = Some e ->
      exists e',
        elementsOf (document (snd (snd (ActiveNavigation.setupActiveNavigation w)))) !! i
        = Some e' /\
        uid e' = uid e /\ attributes e' = attributes e /\
        forall token,
          token ∈ classList e' <->
          token ∈ classList e \/
          (token = "active" /\ getAttribute "data-nav" e = Some pageId).
Proof.
  unfold ActiveNavigation.setupActiveNavigation, getCurrentPageId.
  destruct (JSStringFacts.pop_split "/" (pathname (env w))) as (seg & -> & _).
  eexists. split; [reflexivity|]. cbn [fst snd document withDocument].
  split; [reflexivity|]. intros i e He.
  set (p := if decide (JSString.replace ".html" "" seg = "") then "homepage"
            else JSString.replace ".html" "" seg).
  set (us := querySelectorAll [[HasAttribute "data-nav"]] (elementsOf (document w))).
  rewrite (DOMFacts.elementsOf_updateAll us (ActiveNavigation.markActive p))
    by (first [apply NavigationFacts.markActive_keepsUid
              |apply NavigationFacts.markActive_idempotent]).
  rewrite list_lookup_fmap, He. eexists. split; [reflexivity|].
  assert (Hin : getAttribute "data-nav" e = Some p -> uid e ∈ us).
  { intros Ha. apply TabFacts.querySelectorAll_elem; [by eapply list_elem_of_lookup_2|].
    unfold matches. simpl. unfold hasAttribute. rewrite Ha.
    rewrite bool_decide_eq_true_2 by (by eexists). reflexivity. }
  unfold whenAmong, ActiveNavigation.markActive.
  destruct (decide (uid e ∈ us)) as [Hu|Hu];
    [destruct (decide (getAttribute "data-nav" e = Some p)) as [Ha|Ha]|].
  - split; [done|]. split; [done|]. intros token. cbn [classList withClassList].
    rewrite ClassListFacts.elem_of_add. tauto.
  - split; [done|]. split; [done|]. intros token. tauto.
  - split; [done|]. split; [done|]. intros token. split; [tauto|].
    intros [H|[_ Ha]]; [done|]. by destruct (Hu (Hin Ha)).
Qed.

(** ** Clicks outside the mobile menu *)

Module AncestorFacts.
Import DOMFacts TreeFacts.

Lemma findNode_elements p d k :
  findNode p d = Some k -> forall y, y ∈ elementsOf k -> y ∈ elementsOf d.
Proof.
  induction d as [e ks IH] using Node_induction. simpl.
  destruct (decide (uid e = p)); [by intros [= <-]|].
  intros H y Hy. apply firstSome_Some in H as (a & Hin & Ha). right.
  apply elem_of_flat_map. exists a. split; [done|].
  rewrite Forall_forall in IH. by apply (IH a Hin Ha).
Qed.

Lemma findNode_uids p d k : findNode p d = Some k -> forall y, y ∈ uids k -> y ∈ uids d.
Proof.
  intros H y Hy. unfold uids in *. apply list_elem_of_fmap in Hy as (x & -> & Hx).
  apply list_elem_of_fmap_2. by eapply findNode_elements.
Qed.

Lemma findNode_Some_uids p d k : findNode p d = Some k -> p ∈ uids d.
Proof.
  intros H. rewrite <- (findNode_root _ _ _ H). eapply findNode_uids; [exact H|].
  destruct k as [e ks]. rewrite uids_node. left.
Qed.

Lemma findNode_None p d : p ∉ uids d -> findNode p d = None.
Proof.
  intros Hp. destruct (findNode p d) as [k|] eqn:E; [|done].
  by destruct (Hp (findNode_Some_uids _ _ _ E)).
Qed.

(** Among siblings with distinct identities, a lookup lands in the
    sibling that holds the identity. *)
Lemma firstSome_findNode p ks k :
  NoDup (flat_map uids ks) -> k ∈ ks -> p ∈ uids k ->
  firstSome (findNode p) ks = findNode p k.
Proof.
  induction ks as [|k0 ks IH]; intros Hnd Hin Hp; [by apply elem_of_nil in Hin|].
  simpl in Hnd. apply NoDup_app in Hnd as (H0 & Hdisj & Hks). simpl.
  destruct (decide (p ∈ uids k0)) as [Hp0|Hp0].
  - destruct (findNode_is_Some _ _ Hp0) as [k' Hk']. rewrite Hk'.
    apply elem_of_cons in Hin as [->|Hin]; [done|].
    exfalso. apply (Hdisj p Hp0). apply elem_of_flat_map. by exists k.
  - rewrite (findNode_None _ _ Hp0).
    apply elem_of_cons in Hin as [->|Hin]; [done|]. by apply IH.
Qed.

Lemma NoDup_children e ks : NoDup (uids (mkNode e ks)) -> NoDup (flat_map uids ks).
Proof. rewrite uids_node. by intros [_ H]%NoDup_cons. Qed.

Lemma root_not_below e ks p :
  NoDup (uids (mkNode e ks)) -> p ∈ flat_map uids ks -> uid e <> p.
Proof. rewrite uids_node. intros [H _]%NoDup_cons Hp E. rewrite <- E in Hp. done. Qed.

(** Lookups inside a subtree agree with lookups in the document. *)
Lemma findNode_within a p d ka :
  NoDup (uids d) -> findNode a d = Some ka -> p ∈ uids ka ->
  findNode p d = findNode p ka.
Proof.
  induction d as [e ks IH] using Node_induction. intros Hnd Ha Hp. simpl in *.
  destruct (decide (uid e = a)) as [E|E]; [by injection Ha as <-|].
  apply firstSome_Some in Ha as (k & Hin & Hk).
  assert (Hpk : p ∈ uids k) by (by eapply findNode_uids).
  assert (Hpks : p ∈ flat_map uids ks) by (apply elem_of_flat_map; by exists k).
  rewrite decide_False by (by eapply root_not_below).
  rewrite (firstSome_findNode p ks k) by (first [by eapply NoDup_children | done]).
  rewrite Forall_forall in IH. apply (IH k Hin); [by eapply NoDup_child | done | done].
Qed.

Lemma parentOf_contains x p d :
  NoDup (uids d) -> parentOf x d = Some p ->
  exists k, findNode p d = Some k /\ x ∈ uids k.
Proof.
  induction d as [e ks IH] using Node_induction. intros Hnd. simpl.
  destruct (existsb _ ks) eqn:Ex.
  - intros [= <-]. exists (mkNode e ks). rewrite decide_True by done. split; [done|].
    apply existsb_exists in Ex as (c & Hc & Hx). apply bool_decide_eq_true in Hx.
    rewrite uids_node. right. apply elem_of_flat_map. exists c.
    split; [by apply list_elem_of_In|]. destruct c as [y ys]. rewrite uids_node.
    simpl in Hx. rewrite Hx. left.
  - intros H. apply firstSome_Some in H as (k & Hin & Hk).
    rewrite Forall_forall in IH.
    destruct (IH k Hin (NoDup_child _ _ _ Hnd Hin) Hk) as (k' & Hk' & Hx).
    exists k'. split; [|done].
    assert (Hpk : p ∈ uids k) by (by eapply parentOf_uids).
    assert (Hpks : p ∈ flat_map uids ks) by (apply elem_of_flat_map; by exists k).
    rewrite decide_False by (by eapply root_not_below).
    by rewrite (firstSome_findNode p ks k) by (first [by eapply NoDup_children | done]).
Qed.

(** An ancestor contains the element. *)
Lemma ancestors_contains a x d :
  NoDup (uids d) -> a ∈ ancestors x d -> contains a x d = true.
Proof.
  intros Hnd. unfold ancestors. generalize (length (elementsOf d)) as fuel.
  intros fuel. revert x. induction fuel as [|fuel IH]; intros x; simpl.
  - by intros ?%elem_of_nil.
  - destruct (parentOf x d) as [p|] eqn:Ep; [|by intros ?%elem_of_nil].
    destruct (parentOf_contains _ _ _ Hnd Ep) as (kp & Hkp & Hx).
    intros [->|Ha]%elem_of_cons.
    + unfold contains. rewrite Hkp. by apply bool_decide_eq_true.
    + specialize (IH p Ha). unfold contains in *.
      destruct (findNode a d) as [ka|] eqn:Eka; [|done].
      apply bool_decide_eq_true in IH. apply bool_decide_eq_true.
      rewrite (findNode_within a p d ka Hnd Eka IH) in Hkp.
      by eapply findNode_uids.
Qed.

Lemma contains_self a d : is_Some (findElement a d) -> contains a a d = true.
Proof.
  unfold findElement, contains. intros [e He].
  destruct (findNode a d) as [k|] eqn:E; [|done].
  apply bool_decide_eq_true. rewrite <- (findNode_root _ _ _ E) at 1.
  destruct k as [y ys]. rewrite uids_node. left.
Qed.

(** Targets without a listener for the event are passed over. *)
Lemma propagate_app_quiet p1 p2 s :
  propagationStopped (event s) = false ->
  Forall (fun t => listenersAt t (eventType (event s)) (world s) = []) p1 ->
  propagate (p1 ++ p2) s = propagate p2 s.
Proof.
  intros Hstop. induction 1 as [|t p1 Ht _ IH]; [done|].
  simpl. rewrite Ht. cbn [runListeners]. by rewrite Hstop.
Qed.

End AncestorFacts.

(** X20.  Clicks away from the mobile menu.  The page has the three
    listeners of [setupMobileMenu] and no others, its elements have
    distinct identities, and the button and the menu are in the document.
    A click on an element outside the button then reports no exception
    and leaves the page as it was when the element is inside the menu,
    and leaves the menu with the class [hidden] when it is outside the
    menu. *)
Theorem click_outside_closes_mobile_menu (w0 w : World) (button menu x : nat) :
  querySelector [[Class "btn-ghost"; Class "lg:hidden"]] (elementsOf (document w0))
    = Some button ->
  getElementById "mobileMenu" (document w0) = Some menu ->
  listeners w0 = [] ->
  listeners w = listeners (snd (setupMobileMenu w0)) ->
  NoDup (uids (document w)) ->
  is_Some (findElement button (document w)) ->
  is_Some (findElement menu (document w)) ->
  contains button x (document w) = false ->
  let s := dispatch "click" (AtElement x) w in
  reported s = [] /\
  (contains menu x (document w) = true -> world s = w) /\
  (contains menu x (document w) = false ->
   hasClass "hidden" menu (document (world s)) = true).
Proof.
  intros Hb Hm H0 Hw Hnd Hbutton [em Hmenu] Hout. cbv zeta.
  rewrite (MenuFacts.setup_listeners _ _ _ Hb Hm), H0 in Hw. simpl in Hw.
  assert (Hat : forall a, a <> button -> listenersAt (AtElement a) "click" w = []).
  { intros a Ha. unfold listenersAt. rewrite Hw.
    rewrite filter_cons_False by (simpl; intros [[= ?] _]; done).
    rewrite filter_cons_False by (simpl; intros [[= ?] _]; done).
    by rewrite filter_cons_False by (simpl; intros [[= ?] _]; done). }
  assert (Hx : x <> button).
  { intros ->. rewrite AncestorFacts.contains_self in Hout; done. }
  assert (Hanc : Forall (fun t => listenersAt t "click" w = [])
                        (AtElement x :: map AtElement (ancestors x (document w)))).
  { constructor; [by apply Hat|]. apply Forall_forall. intros t Ht.
    apply list_elem_of_fmap in Ht as (a & -> & Ha). apply Hat. intros ->.
    rewrite AncestorFacts.ancestors_contains in Hout; done. }
  unfold dispatch, propagationPath. cbn [target eventType].
  change (bubbles "click") with true. cbv iota.
  change (AtElement x :: map AtElement (ancestors x (document w)) ++ [AtDocument; AtWindow])
    with ((AtElement x :: map AtElement (ancestors x (document w)))
            ++ [AtDocument; AtWindow]).
  rewrite AncestorFacts.propagate_app_quiet by done.
  cbn [propagate event world eventType].
  assert (Hdoc : listenersAt AtDocument "click" w = [MobileMenuOutside menu button]).
  { unfold listenersAt. rewrite Hw.
    rewrite filter_cons_False by (simpl; intros [[= ?] _]; done).
    rewrite filter_cons_True by done.
    by rewrite filter_cons_False by (simpl; intros [[= ?] _]; done). }
  rewrite Hdoc. cbn [runListeners invoke event world reported propagationStopped].
  set (w' := mobileMenuOutside menu button _ w).
  assert (Hwin : listenersAt AtWindow "click" w' = []).
  { unfold listenersAt.
    assert (El : listeners w' = listeners w).
    { unfold w', mobileMenuOutside. by destruct (_ && _). }
    rewrite El, Hw.
    rewrite filter_cons_False by (simpl; intros [[= ?] _]; done).
    rewrite filter_cons_False by (simpl; intros [[= ?] _]; done).
    by rewrite filter_cons_False by (simpl; intros [_ [= ?]]; done). }
  cbn [eventType]. rewrite Hwin.
  cbn [runListeners event propagationStopped reported world].
  split; [reflexivity|]. unfold w', mobileMenuOutside, containsTarget. cbn [target].
  rewrite Hout. split.
  - intros ->. reflexivity.
  - intros ->. cbn [negb andb]. rewrite MenuFacts.hasClass_setStyles.
    unfold setClasses. cbn [document withDocument].
    rewrite MenuFacts.hasClass_update_same by apply DOMFacts.withClassList_keepsUid.
    rewrite Hmenu. cbn [classList withClassList].
    apply ClassListFacts.contains_true, ClassListFacts.elem_of_add. by left.
Qed.

Lemma click_outside_example :
  let w := snd (setupMobileMenu Example.contactPage) in
  let opened := world (dispatch "click" (AtElement 3) w) in
  let s := dispatch "click" (AtElement 5) opened in
  reported s = [] /\
  (contains 4 5 (document opened) = true -> world s = opened) /\
  (contains 4 5 (document opened) = false ->
   hasClass "hidden" 4 (document (world s)) = true).
Proof.
  intros w opened.
  apply (click_outside_closes_mobile_menu Example.contactPage opened 3 4 5).
  - reflexivity.
  - reflexivity.
  - reflexivity.
  - reflexivity.
  - apply (bool_decide_unpack _). vm_compute. exact I.
  - eexists. vm_compute. reflexivity.
  - eexists. vm_compute. reflexivity.
  - reflexivity.
Defined.

(** ** What handlers leave of a page *)

Module ShowFacts.
Import DOMFacts.

Lemma sameContent_refl e : sameContent e e.
Proof. by repeat split. Qed.

Lemma sameContent_trans e1 e2 e3 :
  sameContent e1 e2 -> sameContent e2 e3 -> sameContent e1 e3.
Proof.
  intros (A1 & A2 & A3 & A4 & A5 & A6 & A7 & A8) (B1 & B2 & B3 & B4 & B5 & B6 & B7 & B8).
  repeat split; try congruence.
  - intros Hx. by apply A8, B8.
  - intros Hx. by apply B8, A8.
Qed.

Lemma sameButStyle_sameContent e e' : sameButStyle e e' -> sameContent e e'.
Proof.
  intros (A1 & A2 & A3 & A4 & A5 & A6 & A7 & A8). repeat split; try done; by rewrite A4.
Qed.

Lemma sameButStyle_refl e : sameButStyle e e.
Proof. by repeat split. Qed.

Lemma sameButStyle_setStyle prop v e : sameButStyle e (setStyle prop v e).
Proof. by repeat split. Qed.

Lemma sameContent_setStyle prop v e : sameContent e (setStyle prop v e).
Proof. apply sameButStyle_sameContent, sameButStyle_setStyle. Qed.

(** A change of the classes [hidden] and [active] only. *)
Lemma sameContent_withClassList f e :
  (forall token, token <> "hidden" -> token <> "active" ->
                 (token ∈ f (classList e) <-> token ∈ classList e)) ->
  sameContent e (withClassList f e).
Proof. intros H. by repeat split; try apply H. Qed.

Lemma sameContent_add token e :
  token = "hidden" \/ token = "active" ->
  sameContent e (withClassList (ClassList.add token) e).
Proof.
  intros Ht. apply sameContent_withClassList. intros x Hh Ha.
  rewrite ClassListFacts.elem_of_add. intuition congruence.
Qed.

Lemma sameContent_remove token e :
  token = "hidden" \/ token = "active" ->
  sameContent e (withClassList (ClassList.remove token) e).
Proof.
  intros Ht. apply sameContent_withClassList. intros x Hh Ha.
  rewrite ClassListFacts.elem_of_remove. intuition congruence.
Qed.

Lemma sameContent_toggle e :
  sameContent e (withClassList (ClassList.toggle "hidden") e).
Proof.
  apply sameContent_withClassList. intros x Hh Ha. unfold ClassList.toggle.
  destruct (ClassList.contains "hidden" (classList e)).
  - rewrite ClassListFacts.elem_of_remove. tauto.
  - rewrite ClassListFacts.elem_of_add. intuition congruence.
Qed.

Lemma sameContent_hideContent e : sameContent e (hideContent e).
Proof.
  unfold hideContent. eapply sameContent_trans.
  - apply (sameContent_add "hidden"). by left.
  - apply (sameContent_remove "active"). by right.
Qed.

Lemma sameContent_showContent e : sameContent e (showContent e).
Proof.
  unfold showContent.
  eapply sameContent_trans; [apply (sameContent_remove "hidden"); by left|].
  eapply sameContent_trans; [apply (sameContent_add "active"); by right|].
  eapply sameContent_trans; apply sameContent_setStyle.
Qed.

Lemma sameContent_whenUid u f e :
  (forall x, sameContent x (f x)) -> sameContent e (whenUid u f e).
Proof. intros H. unfold whenUid. destruct (decide _); [apply H | apply sameContent_refl]. Qed.


Lemma showsTheSame_trans d1 d2 d3 :
  showsTheSame d1 d2 -> showsTheSame d2 d3 -> showsTheSame d1 d3.
Proof.
  unfold showsTheSame. generalize (elementsOf d1) (elementsOf d2) (elementsOf d3).
  intros l1 l2 l3 H. revert l3.
  induction H as [|x y l1 l2 Hxy _ IH]; intros l3 H'; inversion H'; subst; constructor.
  - by eapply sameContent_trans.
  - by apply IH.
Qed.

Lemma Forall2_map_same (g : Element -> Element) l :
  (forall e, sameContent e (g e)) -> Forall2 sameContent l (map g l).
Proof. intros H. induction l; constructor; [apply H | done]. Qed.

Lemma showsTheSame_update u f d :
  (forall e, sameContent e (f e)) -> showsTheSame d (update u f d).
Proof.
  intros H. unfold showsTheSame. rewrite elementsOf_update.
  apply Forall2_map_same. intros e. by apply sameContent_whenUid.
Qed.

(** Element lookup reads the first element with the identity, in document
    order. *)
Lemma head_filter_app {A} (P : A -> Prop) `{forall x, Decision (P x)} (l1 l2 : list A) :
  head (filter P (l1 ++ l2))
  = match head (filter P l1) with Some x => Some x | None => head (filter P l2) end.
Proof. rewrite filter_app. by destruct (filter P l1). Qed.

Lemma findElement_head u d :
  findElement u d = head (filter (fun e => uid e = u) (elementsOf d)).
Proof.
  unfold findElement. induction d as [e ks IH] using Node_induction. simpl.
  destruct (decide (uid e = u)) as [E|E].
  - by rewrite filter_cons_True.
  - rewrite filter_cons_False by done.
    induction IH as [|k ks Hk _ IHks]; [done|].
    simpl. rewrite head_filter_app, <- Hk, <- IHks.
    by destruct (findNode u k).
Qed.

Lemma findElement_map (G : Element -> Element) u d d' :
  elementsOf d' = map G (elementsOf d) -> (forall e, uid (G e) = uid e) ->
  findElement u d' = G <$> findElement u d.
Proof.
  intros E HG. rewrite !findElement_head, E. clear E.
  induction (elementsOf d) as [|e l IH]; [done|]. simpl.
  destruct (decide (uid e = u)) as [Hu|Hu].
  - rewrite !filter_cons_True by (by rewrite ?HG). done.
  - rewrite !filter_cons_False by (by rewrite ?HG). exact IH.
Qed.

Lemma findElement_elem u d e : findElement u d = Some e -> e ∈ elementsOf d /\ uid e = u.
Proof.
  rewrite findElement_head. intros H. apply head_Some_elem_of in H.
  by apply list_elem_of_filter in H as [? ?].
Qed.

(** Selectors over classes other than [hidden] and [active] see no
    difference between elements that show the same. *)
Lemma sameContent_tabButtons e e' :
  sameContent e e' -> matches tabButtons e' = matches tabButtons e.
Proof.
  intros (_ & _ & _ & _ & _ & _ & _ & H).
  apply eq_true_iff_eq. rewrite !TabFacts.matches_tabButtons.
  rewrite (H "irrigation-tab"), (H "tab-button") by done. done.
Qed.

Lemma sameContent_tabContents e e' :
  sameContent e e' -> matches tabContents e' = matches tabContents e.
Proof.
  intros (_ & _ & _ & _ & _ & _ & _ & H).
  apply eq_true_iff_eq. rewrite !TabFacts.matches_tabContents.
  by rewrite (H "tab-content").
Qed.

Lemma updateTabIndicator_style tab w :
  exists g,
    (forall e, sameButStyle e (g e)) /\
    elementsOf (document (snd (updateTabIndicator tab w)))
      = map g (elementsOf (document w)).
Proof.
  assert (Hid : exists g : Element -> Element,
             (forall e, sameButStyle e (g e)) /\
             elementsOf (document w) = map g (elementsOf (document w))).
  { exists (fun e => e). split; [intros e; apply sameButStyle_refl|]. by rewrite map_id. }
  unfold updateTabIndicator.
  destruct (querySelector _ _) as [ind|]; [|exact Hid].
  destruct tab as [tab|]; [|exact Hid].
  destruct (parentOf tab (document w)) as [container|]; [|exact Hid].
  eexists. split; [|simpl; apply elementsOf_update].
  intros e. unfold whenUid. destruct (decide _); [|apply sameButStyle_refl].
  by repeat split.
Qed.

(** What [switchTab] makes of each element of the document. *)
Lemma switchTab_elements (w : World) (tabId : string) (clickedTab : option nat) :
  exists G,
    elementsOf (document (snd (switchTab tabId clickedTab w)))
    = map G (elementsOf (document w)) /\
    (forall e, sameContent e (G e)) /\
    (forall e,
       ("hidden" ∈ classList (G e) <->
        getElementById (tabId +:+ "-content") (document w) <> Some (uid e) /\
        (uid e ∈ querySelectorAll tabContents (elementsOf (document w))
         \/ "hidden" ∈ classList e)) /\
       (clickedTab = Some (uid e) -> "active" ∈ classList (G e))) /\
    (forall e, e ∈ elementsOf (document w) -> matches tabButtons e = true ->
       ("active" ∈ classList (G e) <-> clickedTab = Some (uid e))).
Proof.
  unfold switchTab.
  set (cs := querySelectorAll tabContents (elementsOf (document w))).
  set (w1 := withDocument (updateAll cs hideContent) w).
  assert (E1 : elementsOf (document w1)
               = map (whenAmong cs hideContent) (elementsOf (document w))).
  { apply elementsOf_updateAll;
      [apply TabFacts.steady_keepsUid, TabFacts.steady_hideContent
      |apply TabFacts.hideContent_idempotent]. }
  assert (Hsel : getElementById (tabId +:+ "-content") (document w1)
                 = getElementById (tabId +:+ "-content") (document w)).
  { eapply TabFacts.getElementById_map; [|exact E1].
    apply TabFacts.steady_among, TabFacts.steady_hideContent. }
  rewrite Hsel.
  set (sel := getElementById (tabId +:+ "-content") (document w)).
  set (w2 := match sel with
             | Some s => schedule (FadeIn s) 50 (withDocument (update s showContent) w1)
             | None => w1
             end).
  set (g2 := match sel with
             | Some s => whenUid s showContent
             | None => fun e => e
             end).
  assert (E2 : elementsOf (document w2) = map g2 (elementsOf (document w1))).
  { unfold w2, g2. destruct sel as [s|]; simpl;
      [apply elementsOf_update | by rewrite map_id]. }
  set (ts := querySelectorAll tabButtons (elementsOf (document w2))).
  set (f3 := withClassList (ClassList.remove "active")).
  set (w3 := withDocument (updateAll ts f3) w2).
  assert (E3 : elementsOf (document w3)
               = map (whenAmong ts f3) (elementsOf (document w2))).
  { apply elementsOf_updateAll;
      [by intros ? | apply TabFacts.removeActive_idempotent]. }
  set (g4 := match clickedTab with
             | Some tab => whenUid tab (withClassList (ClassList.add "active"))
             | None => fun e => e
             end).
  set (r := match clickedTab with
            | Some tab => updateTabIndicator (Some tab)
                            (setClasses tab (ClassList.add "active") w3)
            | None => (Normal tt, w3)
            end).
  assert (E5 : exists g5, (forall e, sameButStyle e (g5 e)) /\
                 elementsOf (document (snd r)) = map g5 (map g4 (elementsOf (document w3)))).
  { unfold r, g4. destruct clickedTab as [tab|].
    - destruct (updateTabIndicator_style (Some tab)
                  (setClasses tab (ClassList.add "active") w3)) as (g5 & Hg5 & E).
      exists g5. split; [exact Hg5|]. rewrite E. f_equal. apply elementsOf_update.
    - exists (fun e => e). split; [intros e; apply sameButStyle_refl|].
      by rewrite !map_id. }
  destruct E5 as (g5 & Hg5 & E5).
  exists (fun e => g5 (g4 (whenAmong ts f3 (g2 (whenAmong cs hideContent e))))).
  split; [by rewrite E5, E3, E2, E1, !map_map|].
  assert (S1 : forall e, sameContent e (whenAmong cs hideContent e)).
  { intros e. unfold whenAmong. destruct (decide _);
      [apply sameContent_hideContent | apply sameContent_refl]. }
  assert (S2 : forall e, sameContent e (g2 e)).
  { intros e. unfold g2. destruct sel;
      [apply sameContent_whenUid, sameContent_showContent | apply sameContent_refl]. }
  assert (S3 : forall e, sameContent e (whenAmong ts f3 e)).
  { intros e. unfold whenAmong. destruct (decide _); [|apply sameContent_refl].
    apply (sameContent_remove "active"). by right. }
  assert (S4 : forall e, sameContent e (g4 e)).
  { intros e. unfold g4. destruct clickedTab; [|apply sameContent_refl].
    apply sameContent_whenUid. intros x. apply (sameContent_add "active"). by right. }
  assert (S12 : forall e, sameContent e (g2 (whenAmong cs hideContent e))).
  { intros e. eapply sameContent_trans; [apply S1 | apply S2]. }
  split; [|split].
  - intros e.
    eapply sameContent_trans; [apply S12|].
    eapply sameContent_trans; [apply S3|].
    eapply sameContent_trans; [apply S4|].
    apply sameButStyle_sameContent, Hg5.
  - intros e.
    set (e1 := whenAmong cs hideContent e).
    set (e2 := g2 e1).
    set (e3 := whenAmong ts f3 e2).
    set (e4 := g4 e3).
    destruct (Hg5 e4) as (_ & _ & _ & Hc5 & _). rewrite Hc5.
    assert (Hu1 : uid e1 = uid e) by (unfold e1, whenAmong; by destruct (decide _)).
    split.
    + assert (H4 : "hidden" ∈ classList e4 <-> "hidden" ∈ classList e2).
      { unfold e4, g4, e3, whenAmong, whenUid, f3.
        destruct clickedTab; repeat destruct (decide _); TabFacts.classes;
          intuition congruence. }
      rewrite H4. unfold e2, g2.
      assert (H1 : "hidden" ∈ classList e1 <-> uid e ∈ cs \/ "hidden" ∈ classList e).
      { unfold e1, whenAmong. destruct (decide _); TabFacts.classes; intuition congruence. }
      destruct sel as [s|].
      * unfold whenUid. rewrite Hu1. destruct (decide (uid e = s)) as [->|Hne].
        -- TabFacts.classes. split; [intros [?|[? _]]; done | intros [? _]; done].
        -- rewrite H1. split; [intros H; split; [congruence | exact H] | intros [_ H]; exact H].
      * rewrite H1. split; [intros H; split; [done | exact H] | intros [_ H]; exact H].
    + intros ->. unfold e4, g4, whenUid.
      assert (Hu3 : uid e3 = uid e).
      { unfold e3, whenAmong, f3, e2, g2, whenUid.
        destruct sel; repeat destruct (decide _); by rewrite ?Hu1. }
      rewrite decide_True by exact Hu3. TabFacts.classes. by left.
  - intros e He Hm.
    set (e1 := whenAmong cs hideContent e).
    set (e2 := g2 e1).
    set (e3 := whenAmong ts f3 e2).
    set (e4 := g4 e3).
    destruct (Hg5 e4) as (_ & _ & _ & Hc5 & _). rewrite Hc5.
    assert (Hu2 : uid e2 = uid e) by (destruct (S12 e) as [H _]; exact H).
    assert (Hu3 : uid e3 = uid e).
    { unfold e3, whenAmong, f3. destruct (decide _); exact Hu2. }
    assert (Hts : uid e2 ∈ ts).
    { apply TabFacts.querySelectorAll_elem.
      - rewrite E2, E1, map_map. apply list_elem_of_fmap. by exists e.
      - by rewrite (sameContent_tabButtons e e2 (S12 e)). }
    assert (H3 : "active" ∉ classList e3).
    { unfold e3, whenAmong. rewrite decide_True by exact Hts.
      unfold f3. cbn [classList withClassList].
      rewrite ClassListFacts.elem_of_remove. intros [? _]. done. }
    unfold e4, g4. destruct clickedTab as [tab|].
    + unfold whenUid. rewrite Hu3. destruct (decide (uid e = tab)) as [->|Hne].
      * TabFacts.classes. split; [done | intros _; by left].
      * split; [intros H; by destruct (H3 H) | intros [= ?]; congruence].
    + split; [intros H; by destruct (H3 H) | done].
Qed.

End ShowFacts.

(** C9.  [TabEnhancement.switchTab(tabId, clickedTab)] with a
    [clickedTab] leaves a document with the same elements in the same
    places, each showing what it showed but for the classes [hidden] and
    [active].  In it the clicked tab has [active]; an element matching
    ['.irrigation-tab, .tab-button'] has [active] exactly when it is the
    clicked tab; an element matching ['.tab-content'] lacks [hidden]
    exactly when it is the element that
    [getElementById(tabId + '-content')] found; and that element lacks
    [hidden].  This holds whether the call returns or throws on the way to
    the tab indicator. *)
Theorem switchTab_one_active_one_shown (w : World) (tabId : string) (clickedTab : nat) :
  let d' := document (snd (switchTab tabId (Some clickedTab) w)) in
  let selected := getElementById (tabId +:+ "-content") (document w) in
  length (elementsOf d') = length (elementsOf (document w)) /\
  forall i e,
    elementsOf (document w) !! i = Some e ->
    exists e',
      elementsOf d' !! i = Some e' /\ sameContent e e' /\
      (uid e' = clickedTab -> "active" ∈ classList e') /\
      (matches tabButtons e' = true -> ("active" ∈ classList e' <-> uid e' = clickedTab)) /\
      (matches tabContents e' = true -> ("hidden" ∉ classList e' <-> selected = Some (uid e'))) /\
      (selected = Some (uid e') -> "hidden" ∉ classList e').
Proof.
  cbv zeta.
  destruct (ShowFacts.switchTab_elements w tabId (Some clickedTab))
    as (G & E & HS & Hall & Hact).
  rewrite E, length_map. split; [reflexivity|].
  intros i e He. exists (G e). rewrite list_lookup_fmap, He. split; [reflexivity|].
  split; [apply HS|].
  assert (Hin : e ∈ elementsOf (document w)) by (by eapply list_elem_of_lookup_2).
  destruct (HS e) as (Hu & _). rewrite Hu.
  rewrite (ShowFacts.sameContent_tabButtons e (G e) (HS e)).
  rewrite (ShowFacts.sameContent_tabContents e (G e) (HS e)).
  destruct (Hall e) as [Hh Ha].
  split; [intros <-; by apply Ha|].
  split; [|split].
  - intros Hm. rewrite (Hact e Hin Hm). split; [by intros [= ->] | by intros <-].
  - intros Hm. rewrite Hh.
    assert (Hcs : uid e ∈ querySelectorAll tabContents (elementsOf (document w)))
      by (by apply TabFacts.querySelectorAll_elem).
    destruct (decide (getElementById (tabId +:+ "-content") (document w) = Some (uid e)))
      as [Hs|Hs].
    + split; [done|]. intros _ [Hne _]. done.
    + split; [|done]. intros H. exfalso. apply H. split; [done | by left].
  - intros Hs. rewrite Hh. intros [Hne _]. done.
Qed.

(** Switching the example page to the tab [pivot] from its second tab
    button: the button, tenth in the document, is the active one. *)
Lemma switchTab_example :
  let d' := document (snd (switchTab "pivot" (Some 9) Example.contactPage)) in
  let selected := getElementById ("pivot" +:+ "-content") (document Example.contactPage) in
  exists e',
    elementsOf d' !! 9 = Some e' /\
    sameContent (Example.el 9 "button" "" ["tab-button"]) e' /\
    (uid e' = 9 -> "active" ∈ classList e') /\
    (matches tabButtons e' = true -> ("active" ∈ classList e' <-> uid e' = 9)) /\
    (matches tabContents e' = true -> ("hidden" ∉ classList e' <-> selected = Some (uid e'))) /\
    (selected = Some (uid e') -> "hidden" ∉ classList e').
Proof.
  apply (proj2 (switchTab_one_active_one_shown Example.contactPage "pivot" 9) 9
               (Example.el 9 "button" "" ["tab-button"])).
  reflexivity.
Defined.

(** ** The mobile menu among other listeners *)

Module MenuClickFacts.
Import ShowFacts.
#[local] Arguments String.append !s1 s2 : simpl nomatch.

Lemma panel_id_not_menu t : t +:+ "-content" <> "mobileMenu".
Proof.
  intros H. pose proof (f_equal String.length H) as Hl.
  rewrite JSStringFacts.length_append in Hl. simpl in Hl.
  destruct t as [|a [|b [|c t]]]; simpl in Hl; try lia.
  simpl in H. discriminate.
Qed.

Lemma Forall2_lookup_r_same l l' e' :
  Forall2 sameContent l l' -> e' ∈ l' -> exists e, e ∈ l /\ sameContent e e'.
Proof.
  induction 1 as [|x y l l' Hxy _ IH]; [by intros ?%elem_of_nil|].
  intros [->|Hin]%elem_of_cons.
  - exists x. split; [left | done].
  - destruct (IH Hin) as (e & He & Hs). exists e. split; [by right | done].
Qed.

Lemma notATabPanel_same menu d d' :
  showsTheSame d d' -> notATabPanel menu d -> notATabPanel menu d'.
Proof.
  intros Hs Hp e' He' Hu.
  destruct (Forall2_lookup_r_same _ _ _ Hs He') as (e & He & (A1 & _ & A3 & _ & _ & _ & _ & A8)).
  destruct (Hp e He) as [Hc Hi]; [congruence|].
  split; [|congruence]. by rewrite (A8 "tab-content").
Qed.

Lemma switchTab_same t c w : showsTheSame (document w) (document (snd (switchTab t c w))).
Proof.
  destruct (switchTab_elements w t c) as (G & E & HS & _).
  unfold showsTheSame. rewrite E. by apply Forall2_map_same.
Qed.

Lemma setClasses_same u f w :
  (forall e, sameContent e (withClassList f e)) ->
  showsTheSame (document w) (document (setClasses u f w)).
Proof. intros H. unfold setClasses. simpl. by apply showsTheSame_update. Qed.

Lemma setStyles_same u t o w : showsTheSame (document w) (document (setStyles u t o w)).
Proof.
  unfold setStyles. simpl. apply showsTheSame_update. intros e.
  eapply sameContent_trans; apply sameContent_setStyle.
Qed.

Lemma mobileMenuToggle_same menu e w :
  showsTheSame (document w) (document (snd (mobileMenuToggle menu e w))).
Proof.
  unfold mobileMenuToggle.
  assert (H : showsTheSame (document w)
                (document (setClasses menu (ClassList.toggle "hidden") w)))
    by (apply setClasses_same, sameContent_toggle).
  destruct (negb _); cbn [snd];
    (eapply showsTheSame_trans; [exact H | apply setStyles_same]).
Qed.

(** The toggle listener, alone. *)
Lemma toggle_hidden menu e w :
  is_Some (findElement menu (document w)) ->
  hasClass "hidden" menu (document (snd (mobileMenuToggle menu e w)))
  = negb (hasClass "hidden" menu (document w)).
Proof.
  intros [x Hx]. unfold mobileMenuToggle.
  assert (Htoggled :
    hasClass "hidden" menu (document (setClasses menu (ClassList.toggle "hidden") w))
    = negb (hasClass "hidden" menu (document w))).
  { unfold setClasses. simpl.
    rewrite MenuFacts.hasClass_update_same by apply DOMFacts.withClassList_keepsUid.
    unfold hasClass. rewrite Hx. simpl. apply ClassListFacts.contains_toggle. }
  destruct (negb (hasClass "hidden" menu
                    (document (setClasses menu (ClassList.toggle "hidden") w))));
    cbn [snd]; rewrite MenuFacts.hasClass_setStyles; exact Htoggled.
Qed.

Lemma mobileMenuToggle_event menu e w :
  fst (mobileMenuToggle menu e w) = stopPropagation e.
Proof. unfold mobileMenuToggle. by destruct (negb _). Qed.

(** A tab switch leaves the [hidden] of a menu that is no tab panel. *)
Lemma switchTab_keeps_menu menu t c w :
  notATabPanel menu (document w) ->
  hasClass "hidden" menu (document (snd (switchTab t c w)))
  = hasClass "hidden" menu (document w).
Proof.
  intros Hp. destruct (switchTab_elements w t c) as (G & E & HS & Hall & _).
  unfold hasClass. rewrite (findElement_map G menu _ _ E) by (intros e; apply HS).
  destruct (findElement menu (document w)) as [em|] eqn:Hm; [|done]. simpl.
  apply findElement_elem in Hm as [Hin Hu].
  destruct (Hp em Hin Hu) as [Hc Hi].
  apply eq_true_iff_eq. rewrite !ClassListFacts.contains_true.
  destruct (Hall em) as [Hh _]. rewrite Hh. split; [|intros H; split].
  - intros [_ [Hcs|H]]; [|done]. exfalso.
    unfold querySelectorAll in Hcs. apply list_elem_of_fmap in Hcs as (x & Hx & Hf).
    apply list_elem_of_filter in Hf as [Hmatch Hxin].
    apply TabFacts.matches_tabContents in Hmatch.
    destruct (Hp x Hxin) as [Hxc _]; [congruence | done].
  - unfold getElementById. destruct (decide _); [done|].
    intros Hs. apply fmap_Some in Hs as (x & Hx & Hux).
    apply head_Some_elem_of in Hx. apply list_elem_of_filter in Hx as [Hid Hxin].
    destruct (Hp x Hxin) as [_ Hxi]; [congruence|].
    apply (panel_id_not_menu t). congruence.
  - by right.
Qed.

Lemma tabClick_keeps_menu menu this e w :
  notATabPanel menu (document w) ->
  hasClass "hidden" menu (document (snd (snd (tabClick this e w))))
  = hasClass "hidden" menu (document w) /\
  notATabPanel menu (document (snd (snd (tabClick this e w)))) /\
  propagationStopped (fst (snd (tabClick this e w))) = propagationStopped e.
Proof.
  intros Hp. unfold tabClick. destruct this; try done.
  destruct (findElement u (document w)) as [b|]; [|done].
  destruct (truthy _) as [t|]; [|done].
  pose proof (switchTab_keeps_menu menu t (Some u) w Hp) as Hk.
  pose proof (notATabPanel_same menu _ _ (switchTab_same t (Some u) w) Hp) as Hp'.
  by destruct (switchTab t (Some u) w).
Qed.

Lemma runListeners_tabClicks menu this tabs s :
  Forall (fun cb => cb = TabClick) tabs ->
  notATabPanel menu (document (world s)) ->
  hasClass "hidden" menu (document (world (runListeners tabs this s)))
  = hasClass "hidden" menu (document (world s)) /\
  propagationStopped (event (runListeners tabs this s)) = propagationStopped (event s).
Proof.
  intros Htabs. revert s. induction Htabs as [|cb tabs -> _ IH]; intros s Hp; [done|].
  cbn [runListeners invoke].
  destruct (tabClick_keeps_menu menu this (event s) (world s) Hp) as (Hh & Hp' & Hs).
  destruct (tabClick this (event s) (world s)) as [c [e' w']]. cbn [fst snd] in *.
  destruct (IH (mkDispatch (match c with
                            | Normal _ => reported s
                            | Throw x => reported s ++ [x]
                            end) e' w') Hp') as [IH1 IH2].
  cbn [world event] in *. split; congruence.
Qed.

(** The click listeners of the button: the toggle, then tab listeners. *)
Lemma button_listeners w0 w button menu later :
  querySelector [[Class "btn-ghost"; Class "lg:hidden"]] (elementsOf (document w0))
    = Some button ->
  getElementById "mobileMenu" (document w0) = Some menu ->
  listenersAt (AtElement button) "click" w0 = [] ->
  listeners w = listeners (snd (setupMobileMenu w0)) ++ later ->
  tabClicksAt button later ->
  exists tabs,
    listenersAt (AtElement button) "click" w = MobileMenuToggle menu :: tabs /\
    Forall (fun cb => cb = TabClick) tabs.
Proof.
  intros Hb Hm H0 Hw Hlater.
  rewrite (MenuFacts.setup_listeners _ _ _ Hb Hm) in Hw.
  exists (listenerCallback <$>
            filter (fun l => listenerTarget l = AtElement button /\ listenerType l = "click")
                   later).
  split.
  - rewrite (MenuFacts.listenersAt_app _ _ _ _ _ Hw).
    rewrite filter_app, fmap_app. unfold listenersAt in H0. rewrite H0.
    rewrite filter_cons_True by done.
    rewrite filter_cons_False by (intros [? _]; done).
    by rewrite filter_cons_False by (intros [? _]; done).
  - apply Forall_fmap, Forall_forall. intros l Hl.
    apply list_elem_of_filter in Hl as [[Ht Hty] Hin].
    unfold tabClicksAt in Hlater. rewrite Forall_forall in Hlater. by apply Hlater.
Qed.

(** A click on the button, with the toggle and tab listeners on it. *)
Lemma click_toggles w button menu tabs :
  listenersAt (AtElement button) "click" w = MobileMenuToggle menu :: tabs ->
  Forall (fun cb => cb = TabClick) tabs ->
  notATabPanel menu (document w) ->
  is_Some (findElement menu (document w)) ->
  hasClass "hidden" menu (document (world (dispatch "click" (AtElement button) w)))
  = negb (hasClass "hidden" menu (document w)).
Proof.
  intros Hl Htabs Hp Hmenu.
  unfold dispatch, propagationPath. cbn [target eventType].
  cbn [propagate event world eventType]. rewrite Hl.
  cbn [runListeners invoke event world reported].
  set (e := mkEvent "click" (AtElement button) false false).
  pose proof (mobileMenuToggle_event menu e w) as He.
  pose proof (toggle_hidden menu e w Hmenu) as Ht.
  pose proof (notATabPanel_same menu _ _ (mobileMenuToggle_same menu e w) Hp) as Hp'.
  destruct (mobileMenuToggle menu e w) as [e1 w1]. cbn [fst snd] in *. subst e1.
  destruct (runListeners_tabClicks menu (receiverOf (AtElement button)) tabs
              (mkDispatch [] (stopPropagation e) w1) Htabs Hp') as [Hh Hs].
  cbn [world event] in Hh, Hs.
  change (propagationStopped (stopPropagation e)) with true in Hs.
  rewrite Hs. congruence.
Qed.


End MenuClickFacts.




(** X16.  The keyboard reaches the mobile menu.  On a page as in C5, the
    keydown listener of [setupKeyboardNavigation], run on the menu button,
    returns; on [Enter] or a space it prevents the default action, and
    [this.click()] leaves the menu with [hidden] exactly when it did not
    have it before -- unless the button is a disabled form control, on
    which [click()] does nothing; on any other key it changes nothing. *)
Theorem keydown_toggles_mobile_menu
    (w0 w : World) (button menu : nat) (later : list Listener) (key : string) (e : Event) :
  querySelector [[Class "btn-ghost"; Class "lg:hidden"]] (elementsOf (document w0))
    = Some button ->
  getElementById "mobileMenu" (document w0) = Some menu ->
  listenersAt (AtElement button) "click" w0 = [] ->
  listeners w = listeners (snd (setupMobileMenu w0)) ++ later ->
  tabClicksAt button later ->
  notATabPanel menu (document w) ->
  is_Some (findElement menu (document w)) ->
  let r := keydownActivate (ThisElement button) key e w in
  fst r = Normal tt /\
  (key = "Enter" \/ key = " " ->
   defaultPrevented (fst (snd r)) = true /\
   hasClass "hidden" menu (document (snd (snd (snd r))))
   = if disabled button (document w) then hasClass "hidden" menu (document w)
     else negb (hasClass "hidden" menu (document w))) /\
  (key <> "Enter" -> key <> " " -> snd r = (e, ([], w))).
Proof.
  intros Hb Hm H0 Hw Hlater Hp Hmenu r.
  destruct (MenuClickFacts.button_listeners _ _ _ _ _ Hb Hm H0 Hw Hlater)
    as (tabs & Hl & Htabs).
  pose proof (MenuClickFacts.click_toggles w button menu tabs Hl Htabs Hp Hmenu) as Hclick.
  unfold r, keydownActivate.
  destruct (decide (key = "Enter")) as [E|E]; [|destruct (decide (key = " ")) as [E'|E']].
  - rewrite (bool_decide_eq_true_2 _ E). cbn [orb].
    destruct (disabled button (document w)); cbn [fst snd];
      (split; [done|]; split; [|done]; intros _; split; [done|]); [done | exact Hclick].
  - rewrite (bool_decide_eq_true_2 _ E'), orb_true_r.
    destruct (disabled button (document w)); cbn [fst snd];
      (split; [done|]; split; [|done]; intros _; split; [done|]); [done | exact Hclick].
  - rewrite (bool_decide_eq_false_2 _ E), (bool_decide_eq_false_2 _ E'). cbn [orb fst snd].
    split; [done|]. split; [|done]. intros [?|?]; done.
Qed.

Lemma keydown_toggles_mobile_menu_example :
  let w := snd (setupTabSwitching
                  (snd (setupFormValidation (snd (setupMobileMenu Example.contactPage))))) in
  let r := keydownActivate (ThisElement 3) "Enter"
             (mkEvent "keydown" (AtElement 3) false false) w in
  defaultPrevented (fst (snd r)) = true /\
  hasClass "hidden" 4 (document (snd (snd (snd r))))
  = if disabled 3 (document w) then hasClass "hidden" 4 (document w)
    else negb (hasClass "hidden" 4 (document w)).
Proof.
  intros w r.
  apply (keydown_toggles_mobile_menu Example.contactPage w 3 4 (drop 3 (listeners w)) "Enter"
           (mkEvent "keydown" (AtElement 3) false false)).
  - reflexivity.
  - reflexivity.
  - reflexivity.
  - reflexivity.
  - vm_compute. repeat (constructor; [intros; first [discriminate | reflexivity]|]).
    constructor.
  - intros e He Hu. apply list_elem_of_In in He. vm_compute in He.
    repeat (destruct He as [<-|He]; [try discriminate Hu|]); [|destruct He].
    split; [|reflexivity]. intros Hc. apply list_elem_of_In in Hc. vm_compute in Hc.
    repeat (destruct Hc as [Hc|Hc]; [discriminate Hc|]). destruct Hc.
  - eexists. vm_compute. reflexivity.
  - left. reflexivity.
Defined.

(** ** The resize listener among other debounced listeners *)

Module ResizeFacts.

(** What holds of the page while the other wrappers run: the timer [i] of
    the menu's wrapper stays pending, and no other cell holds its handle. *)
Lemma invoke_other cell i task cb this e w :
  otherWrapper cell cb ->
  Debounce.pending (timers w) !! i = Some task ->
  i < Debounce.nextId (timers w) ->
  (forall c j, c <> cell -> cellValue c w = Some j -> j <> i) ->
  let r := invoke cb this e w in
  fst r = Normal tt /\ fst (snd r) = e /\
  document (snd (snd r)) = document w /\ env (snd (snd r)) = env w /\
  listeners (snd (snd r)) = listeners w /\
  Debounce.now (timers (snd (snd r))) = Debounce.now (timers w) /\
  Debounce.pending (timers (snd (snd r))) !! i = Some task /\
  i < Debounce.nextId (timers (snd (snd r))) /\
  (forall c j, c <> cell -> cellValue c (snd (snd r)) = Some j -> j <> i).
Proof.
  intros Hcb Hi Hlt Hcells. destruct cb; try done. simpl in Hcb.
  cbn [invoke fst snd]. unfold Debounce.executedFunction.
  cbn [Debounce.setTimeout Debounce.host Debounce.timeout fst snd document env listeners
       timers withTimers Debounce.now Debounce.pending Debounce.nextId].
  assert (Hn : Debounce.nextId (Debounce.clearTimeout (cellValue cell0 w) (timers w))
               = Debounce.nextId (timers w)) by (by destruct (cellValue cell0 w)).
  assert (Hnow : Debounce.now (Debounce.clearTimeout (cellValue cell0 w) (timers w))
                 = Debounce.now (timers w)) by (by destruct (cellValue cell0 w)).
  assert (Hp : Debounce.pending (Debounce.clearTimeout (cellValue cell0 w) (timers w)) !! i
               = Some task).
  { destruct (cellValue cell0 w) as [j|] eqn:Ej; [|exact Hi]. simpl.
    rewrite lookup_delete_ne; [exact Hi|]. by apply (Hcells cell0 j). }
  rewrite Hn, Hnow.
  repeat split; try done.
  - rewrite lookup_insert_ne by lia. exact Hp.
  - lia.
  - intros c j Hc Hj. unfold cellValue in Hj. cbn [cells withTimers] in Hj.
    destruct (<[cell0:=Some (Debounce.nextId (timers w))]> (cells w) !! c) as [o|] eqn:Eo;
      [|done].
    simpl in Hj. subst o.
    apply list_lookup_insert_Some in Eo as [(_ & [= <-] & _)|[Hne Ho]]; [lia|].
    apply (Hcells c j Hc). unfold cellValue. by rewrite Ho.
Qed.

Lemma runListeners_others cell i task cbs this s :
  Forall (otherWrapper cell) cbs ->
  Debounce.pending (timers (world s)) !! i = Some task ->
  i < Debounce.nextId (timers (world s)) ->
  (forall c j, c <> cell -> cellValue c (world s) = Some j -> j <> i) ->
  let s' := runListeners cbs this s in
  reported s' = reported s /\ event s' = event s /\
  document (world s') = document (world s) /\ env (world s') = env (world s) /\
  Debounce.now (timers (world s')) = Debounce.now (timers (world s)) /\
  Debounce.pending (timers (world s')) !! i = Some task.
Proof.
  intros Hcbs. revert s. induction Hcbs as [|cb cbs Hcb _ IH]; intros s Hi Hlt Hcells; [done|].
  cbn [runListeners].
  destruct (invoke_other cell i task cb this (event s) (world s) Hcb Hi Hlt Hcells)
    as (Hc & He & Hd & Hv & _ & Hnow & Hi' & Hlt' & Hcells').
  destruct (invoke cb this (event s) (world s)) as [c [e' w']]. cbn [fst snd] in *.
  subst c e'.
  destruct (IH (mkDispatch (reported s) (event s) w') Hi' Hlt' Hcells')
    as (R1 & R2 & R3 & R4 & R5 & R6).
  cbn [reported event world] in *. repeat split; congruence.
Qed.

(** The resize listeners of [window]: the menu's wrapper, then others. *)
Lemma window_listeners w0 w button menu later :
  querySelector [[Class "btn-ghost"; Class "lg:hidden"]] (elementsOf (document w0))
    = Some button ->
  getElementById "mobileMenu" (document w0) = Some menu ->
  listenersAt AtWindow "resize" w0 = [] ->
  listeners w = listeners (snd (setupMobileMenu w0)) ++ later ->
  otherResizeWrappers (length (cells w0)) later ->
  exists others,
    listenersAt AtWindow "resize" w
    = Debounced (length (cells w0)) 250 (MobileMenuResize menu) :: others /\
    Forall (otherWrapper (length (cells w0))) others.
Proof.
  intros Hb Hm H0 Hw Hlater.
  rewrite (MenuFacts.setup_listeners _ _ _ Hb Hm) in Hw.
  exists (listenerCallback <$>
            filter (fun l => listenerTarget l = AtWindow /\ listenerType l = "resize") later).
  split.
  - rewrite (MenuFacts.listenersAt_app _ _ _ _ _ Hw).
    rewrite filter_app, fmap_app. unfold listenersAt in H0. rewrite H0.
    rewrite filter_cons_False by (intros [? _]; done).
    rewrite filter_cons_False by (intros [? _]; done).
    by rewrite filter_cons_True by done.
  - apply Forall_fmap, Forall_forall. intros l Hl.
    apply list_elem_of_filter in Hl as [[Ht Hty] Hin].
    unfold otherResizeWrappers in Hlater. rewrite Forall_forall in Hlater.
    by apply Hlater.
Qed.

Lemma resize_then_timer w cell menu others n :
  listenersAt AtWindow "resize" w = Debounced cell 250 (MobileMenuResize menu) :: others ->
  Forall (otherWrapper cell) others ->
  handlesIssued w ->
  is_Some (findElement menu (document w)) ->
  250 <= n ->
  let armed := dispatch "resize" AtWindow w in
  let fired := fireTimer (Debounce.nextId (timers w)) (advance n (world armed)) in
  reported armed = [] /\ fst fired = Normal tt /\
  hasClass "hidden" menu (document (snd fired))
    = if decide (CONFIG.mobileBreakpoint <= innerWidth (env w)) then true
      else hasClass "hidden" menu (document w).
Proof.
  intros Hl Hothers Hissued [el Hel] Hn. cbv zeta.
  unfold dispatch, propagationPath. cbn [target eventType].
  cbn [propagate event world eventType]. rewrite Hl.
  cbn [runListeners invoke event world reported].
  set (e := mkEvent "resize" AtWindow false false).
  set (i := Debounce.nextId (timers w)).
  set (task := Later cell (MobileMenuResize menu) e).
  set (sys := Debounce.executedFunction 250 task (Debounce.mkSystem (timers w) (cellValue cell w))).
  set (w1 := withTimers (Debounce.host sys) (<[cell:=Debounce.timeout sys]> (cells w)) w).
  assert (Hn1 : Debounce.nextId (Debounce.clearTimeout (cellValue cell w) (timers w)) = i)
    by (by destruct (cellValue cell w)).
  assert (Hnow1 : Debounce.now (Debounce.clearTimeout (cellValue cell w) (timers w))
                  = Debounce.now (timers w)) by (by destruct (cellValue cell w)).
  assert (Hp1 : Debounce.pending (timers w1) !! i
                = Some (Debounce.now (timers w) + 250, task)).
  { unfold w1, sys, Debounce.executedFunction.
    cbn [timers withTimers Debounce.host Debounce.timeout Debounce.setTimeout fst snd
         Debounce.pending].
    rewrite Hn1, Hnow1. by rewrite lookup_insert_eq. }
  assert (Hnow_w1 : Debounce.now (timers w1) = Debounce.now (timers w)).
  { unfold w1, sys, Debounce.executedFunction.
    cbn [timers withTimers Debounce.host Debounce.timeout Debounce.setTimeout fst snd
         Debounce.now].
    exact Hnow1. }
  assert (Hlt1 : i < Debounce.nextId (timers w1)).
  { unfold w1, sys, Debounce.executedFunction.
    cbn [timers withTimers Debounce.host Debounce.timeout Debounce.setTimeout fst snd
         Debounce.nextId].
    rewrite Hn1. lia. }
  assert (Hcells1 : forall c j, c <> cell -> cellValue c w1 = Some j -> j <> i).
  { intros c j Hc Hj. unfold w1, cellValue in Hj. cbn [cells withTimers] in Hj.
    rewrite list_lookup_insert_ne in Hj by done.
    pose proof (Hissued c j Hj) as Hj'. intros Heq. subst j. unfold i in Hj'. lia. }
  destruct (runListeners_others cell i _ others (receiverOf AtWindow)
              (mkDispatch [] e w1) Hothers Hp1 Hlt1 Hcells1)
    as (R1 & R2 & R3 & R4 & R5 & R6).
  cbn [reported event world] in R1, R2, R3, R4, R5, R6.
  set (s' := runListeners others (receiverOf AtWindow) (mkDispatch [] e w1)) in *.
  rewrite R2. change (propagationStopped e) with false. cbv iota.
  split; [exact R1|].
  unfold fireTimer, advance. cbn [timers withTimers cells].
  rewrite TimerFacts.iter_tick. unfold Debounce.due.
  cbn [Debounce.pending Debounce.now Debounce.nextId]. rewrite R6.
  rewrite decide_True by (rewrite R5, Hnow_w1; lia).
  unfold task. cbn [runTask invoke fst snd]. split; [reflexivity|].
  unfold mobileMenuResize. cbn [env withTimers snd document].
  rewrite R4. change (env w1) with (env w).
  destruct (decide (CONFIG.mobileBreakpoint <= innerWidth (env w))).
  - unfold setClasses. cbn [document withDocument withTimers].
    rewrite MenuFacts.hasClass_update_same by apply DOMFacts.withClassList_keepsUid.
    rewrite R3. change (document w1) with (document w).
    rewrite Hel. cbn [classList withClassList].
    apply ClassListFacts.contains_true, ClassListFacts.elem_of_add. by left.
  - cbn [document withTimers]. by rewrite R3.
Qed.

End ResizeFacts.

(** X8.  The resize listener of the mobile menu, end to end.
    [setupMobileMenu] has found the button and the menu, and [window] had
    no resize listener before.  The page may since have got further
    listeners, of which those for [resize] on [window] are other debounce
    wrappers, each with a closure cell of its own, and the handles in the
    cells were issued by the host.  Then a resize event at [window]
    reports no exception and arms the menu's timer, and when the host runs
    that timer after at least 250 time units it returns and the menu has
    [hidden] if the window is at least 1024 wide, and otherwise the
    [hidden] it had. *)
Theorem resize_closes_menu_after_debounce
    (w0 w : World) (button menu n : nat) (later : list Listener) :
  querySelector [[Class "btn-ghost"; Class "lg:hidden"]] (elementsOf (document w0))
    = Some button ->
  getElementById "mobileMenu" (document w0) = Some menu ->
  listenersAt AtWindow "resize" w0 = [] ->
  listeners w = listeners (snd (setupMobileMenu w0)) ++ later ->
  otherResizeWrappers (length (cells w0)) later ->
  handlesIssued w ->
  is_Some (findElement menu (document w)) ->
  250 <= n ->
  let armed := dispatch "resize" AtWindow w in
  let fired := fireTimer (Debounce.nextId (timers w)) (advance n (world armed)) in
  reported armed = [] /\ fst fired = Normal tt /\
  hasClass "hidden" menu (document (snd fired))
    = if decide (CONFIG.mobileBreakpoint <= innerWidth (env w)) then true
      else hasClass "hidden" menu (document w).
Proof.
  intros Hb Hm H0 Hw Hlater Hissued Hmenu Hn.
  destruct (ResizeFacts.window_listeners _ _ _ _ _ Hb Hm H0 Hw Hlater)
    as (others & Hl & Hothers).
  by apply (ResizeFacts.resize_then_timer w (length (cells w0)) menu others n).
Qed.

(** The example page after the setup functions of the model is 800 wide:
    the menu keeps its classes. *)
Lemma resize_example :
  let w := snd (setupTabSwitching
                  (snd (setupFormValidation (snd (setupMobileMenu Example.contactPage))))) in
  let armed := dispatch "resize" AtWindow w in
  let fired := fireTimer (Debounce.nextId (timers w)) (advance 250 (world armed)) in
  reported armed = [] /\ fst fired = Normal tt /\
  hasClass "hidden" 4 (document (snd fired))
    = if decide (CONFIG.mobileBreakpoint <= innerWidth (env w)) then true
      else hasClass "hidden" 4 (document w).
Proof.
  intros w.
  apply (resize_closes_menu_after_debounce Example.contactPage w 3 4 250
           (drop 3 (listeners w))).
  - reflexivity.
  - reflexivity.
  - reflexivity.
  - reflexivity.
  - vm_compute. repeat (constructor; [intros; first [discriminate | done]|]).
    constructor.
  - intros cell i. unfold cellValue. vm_compute.
    destruct cell as [|[|cell]]; discriminate.
  - eexists. vm_compute. reflexivity.
  - lia.
Defined.

(** ** What handlers surface *)

Module HandlerFacts.
Import ShowFacts MenuClickFacts.














End HandlerFacts.


(** ** [showFieldError] and the parent it reads twice *)

Module RemoveFacts.
Import DOMFacts TreeFacts AncestorFacts.

Lemma root_removeNode x k : root (removeNode x k) = root k.
Proof. by destruct k. Qed.

Lemma firstSome_None {A B} (f : A -> option B) l :
  firstSome f l = None <-> Forall (fun a => f a = None) l.
Proof.
  induction l as [|a l IH]; simpl; [by split; [constructor|]|].
  destruct (f a) eqn:E.
  - split; [done|]. intros H. inversion H; congruence.
  - rewrite IH. split; [by constructor | by intros H; inversion H].
Qed.

(** The children that [x.remove()] leaves under a node. *)
Lemma elem_of_kept x ks k' :
  k' ∈ flat_map (fun k => if decide (uid (root k) = x) then [] else [removeNode x k]) ks <->
  exists k, k ∈ ks /\ uid (root k) <> x /\ k' = removeNode x k.
Proof.
  rewrite elem_of_flat_map. split.
  - intros (k & Hin & Hk). destruct (decide _); [by apply elem_of_nil in Hk|].
    apply list_elem_of_singleton in Hk. by exists k.
  - intros (k & Hin & Hne & ->). exists k. split; [done|].
    rewrite decide_False by done. left.
Qed.

Lemma existsb_child u ks :
  existsb (fun k => bool_decide (uid (root k) = u)) ks = true <->
  exists k, k ∈ ks /\ uid (root k) = u.
Proof.
  rewrite existsb_exists. split; intros (k & Hin & Hk); exists k.
  - split; [by apply list_elem_of_In | by apply bool_decide_eq_true in Hk].
  - split; [by apply list_elem_of_In | by apply bool_decide_eq_true].
Qed.

Lemma existsb_child_false u ks :
  existsb (fun k => bool_decide (uid (root k) = u)) ks = false <->
  forall k, k ∈ ks -> uid (root k) <> u.
Proof.
  split.
  - intros H k Hin Hu. assert (Ht : existsb (fun k => bool_decide (uid (root k) = u)) ks = true)
      by (apply existsb_child; by exists k). congruence.
  - intros H. destruct (existsb _ ks) eqn:E; [|done].
    apply existsb_child in E as (k & Hin & Hu). by destruct (H k Hin).
Qed.

(** Removing nodes makes no element a child. *)
Lemma parentOf_removeNode_None u x d :
  parentOf u d = None -> parentOf u (removeNode x d) = None.
Proof.
  induction d as [e ks IH] using Node_induction. simpl.
  destruct (existsb _ ks) eqn:Ex; [done|]. intros Hf.
  rewrite (proj2 (existsb_child_false u _)).
  - apply firstSome_None, Forall_forall. intros k' Hk'.
    apply elem_of_kept in Hk' as (k & Hin & _ & ->).
    rewrite Forall_forall in IH. apply (IH k Hin).
    apply firstSome_None in Hf. rewrite Forall_forall in Hf. by apply Hf.
  - intros k' Hk'. apply elem_of_kept in Hk' as (k & Hin & _ & ->).
    rewrite root_removeNode. by apply (proj1 (existsb_child_false u ks) Ex).
Qed.

(** After [u.remove()], [u] has no parent. *)
Lemma parentOf_removeNode_self u d : parentOf u (removeNode u d) = None.
Proof.
  induction d as [e ks IH] using Node_induction. simpl.
  rewrite (proj2 (existsb_child_false u _)).
  - apply firstSome_None, Forall_forall. intros k' Hk'.
    apply elem_of_kept in Hk' as (k & Hin & _ & ->).
    rewrite Forall_forall in IH. by apply IH.
  - intros k' Hk'. apply elem_of_kept in Hk' as (k & Hin & Hne & ->).
    by rewrite root_removeNode.
Qed.

Lemma descendants_child e ks k p :
  NoDup (uids (mkNode e ks)) -> k ∈ ks -> p ∈ uids k ->
  descendants p (mkNode e ks) = descendants p k.
Proof.
  intros Hnd Hin Hp. unfold descendants. simpl.
  assert (Hpks : p ∈ flat_map uids ks) by (apply elem_of_flat_map; by exists k).
  rewrite decide_False by (by eapply root_not_below).
  by rewrite (firstSome_findNode p ks k) by (first [by eapply NoDup_children | done]).
Qed.

(** A proper descendant of [p] is not the root of a tree that holds [p]. *)
Lemma descendant_not_root x p k :
  NoDup (uids k) -> x ∈ map uid (descendants p k) -> uid (root k) <> x.
Proof.
  intros Hnd Hx Hr. unfold descendants in Hx.
  destruct (findNode p k) as [kp|] eqn:Hk; [|by apply elem_of_nil in Hx].
  destruct k as [ek kks]. simpl in Hr. rewrite uids_node in Hnd.
  apply NoDup_cons in Hnd as [Hnotin _]. apply Hnotin. rewrite Hr.
  apply list_elem_of_fmap in Hx as (y & -> & Hy).
  pose proof (findNode_children _ _ _ Hk y Hy) as Hy'. simpl in Hy'.
  apply elem_of_flat_map in Hy' as (c & Hc & Hyc).
  apply elem_of_flat_map. exists c. split; [done|].
  unfold uids. by apply list_elem_of_fmap_2.
Qed.

(** Removing another element under the parent of [u] leaves [u] its
    parent. *)
Lemma parentOf_removeNode_other u x p d :
  NoDup (uids d) -> parentOf u d = Some p ->
  x ∈ map uid (descendants p d) -> x <> u ->
  parentOf u (removeNode x d) = Some p.
Proof.
  induction d as [e ks IH] using Node_induction. intros Hnd Hp Hx Hne.
  simpl in Hp |- *.
  destruct (existsb _ ks) eqn:Ex.
  - injection Hp as <-.
    apply existsb_child in Ex as (c & Hc & Hu).
    rewrite (proj2 (existsb_child u _)); [done|].
    exists (removeNode x c). split; [|by rewrite root_removeNode].
    apply elem_of_kept. exists c. split; [done|]. split; [congruence | done].
  - rewrite (proj2 (existsb_child_false u _)).
    2:{ intros k' Hk'. apply elem_of_kept in Hk' as (k & Hin & _ & ->).
        rewrite root_removeNode. by apply (proj1 (existsb_child_false u ks) Ex). }
    assert (Hdesc : forall k, k ∈ ks -> p ∈ uids k -> x ∈ map uid (descendants p k)).
    { intros k Hin Hpk. by rewrite <- (descendants_child e ks k p Hnd Hin Hpk). }
    assert (Hnds : forall k, k ∈ ks -> NoDup (uids k)) by (intros k Hin; by eapply NoDup_child).
    clear Hnd Hx Ex. rewrite Forall_forall in IH.
    induction ks as [|k0 ks IHks]; [done|]. simpl in Hp |- *.
    assert (Hin0 : k0 ∈ k0 :: ks) by left.
    destruct (parentOf u k0) as [p0|] eqn:E0.
    + injection Hp as ->.
      assert (Hx0 : x ∈ map uid (descendants p k0))
        by (apply Hdesc; [done | by eapply parentOf_uids]).
      rewrite decide_False by (by apply (descendant_not_root x p k0); [apply Hnds|]).
      simpl. by rewrite (IH k0 Hin0 (Hnds k0 Hin0) E0 Hx0 Hne).
    + assert (Htail : firstSome (parentOf u)
                        (flat_map (fun k => if decide (uid (root k) = x) then []
                                            else [removeNode x k]) ks) = Some p).
      { apply IHks; [|done| |].
        - intros k Hin. apply IH. by right.
        - intros k Hin. apply Hdesc. by right.
        - intros k Hin. apply Hnds. by right. }
      destruct (decide (uid (root k0) = x)); [exact Htail|].
      simpl. by rewrite (parentOf_removeNode_None u x k0 E0).
Qed.

End RemoveFacts.

(** X21.  [FormEnhancement.showFieldError(message)], called on a field
    with a parent element in a document of distinct elements.  When the
    first [.field-error] under the parent is the field itself, the call
    removes the field and throws a [TypeError] at [appendChild], for the
    parent it reads again is [null].  Otherwise it returns and leaves
    under that parent, hence in the document, a new [div] of class
    ["field-error text-error text-sm mt-1"] whose text is the message. *)
Theorem showFieldError_appends_or_throws (w : World) (u p : nat) (message : string) :
  NoDup (uids (document w)) ->
  parentOf u (document w) = Some p ->
  let existing := querySelector [[Class "field-error"]] (descendants p (document w)) in
  let r := showFieldError (ThisElement u) message w in
  (existing = Some u ->
   fst r = Throw (TypeError "Cannot read properties of null (reading 'appendChild')") /\
   document (snd r) = removeNode u (document w)) /\
  (existing <> Some u ->
   fst r = Normal tt /\
   createElement (nextUid w) "div" fieldErrorClass message
     ∈ descendants p (document (snd r)) /\
   createElement (nextUid w) "div" fieldErrorClass message
     ∈ elementsOf (document (snd r))).
Proof.
  intros Hnd Hp. cbv zeta. unfold showFieldError. rewrite Hp.
  pose proof (TreeFacts.parentOf_uids _ _ _ Hp) as Hin.
  set (c := mkNode (createElement (nextUid w) "div" fieldErrorClass message) []).
  assert (Hunder : forall d, p ∈ uids d ->
            root c ∈ descendants p (appendChild p c d) /\
            root c ∈ elementsOf (appendChild p c d)).
  { intros d Hd. split; [by apply TreeFacts.appendChild_descendants|].
    by apply TreeFacts.appendChild_elements. }
  destruct (querySelector _ (descendants p (document w))) as [x|] eqn:Hq.
  - cbn [document withDocument].
    destruct (decide (x = u)) as [->|Hne].
    + rewrite RemoveFacts.parentOf_removeNode_self. split; [done|]. intros H. done.
    + rewrite (RemoveFacts.parentOf_removeNode_other u x p (document w) Hnd Hp)
        by (first [by eapply TreeFacts.querySelector_elem | done]).
      split; [intros [= ?]; done|]. intros _. split; [reflexivity|].
      apply Hunder. apply TreeFacts.removeNode_keeps_ancestor; [done|].
      by eapply TreeFacts.querySelector_elem.
  - rewrite Hp. split; [done|]. intros _. split; [reflexivity|]. by apply Hunder.
Qed.

(** The text field of the example page sits in a [div] with no message
    yet: the message is added to the document. *)
Lemma showFieldError_example :
  let existing := querySelector [[Class "field-error"]]
                    (descendants 6 (document Example.contactPage)) in
  let r := showFieldError (ThisElement 7) "This field is required" Example.contactPage in
  (existing = Some 7 ->
   fst r = Throw (TypeError "Cannot read properties of null (reading 'appendChild')") /\
   document (snd r) = removeNode 7 (document Example.contactPage)) /\
  (existing <> Some 7 ->
   fst r = Normal tt /\
   createElement 12 "div" fieldErrorClass "This field is required"
     ∈ descendants 6 (document (snd r)) /\
   createElement 12 "div" fieldErrorClass "This field is required"
     ∈ elementsOf (document (snd r))).
Proof.
  apply (showFieldError_appends_or_throws Example.contactPage 7 6 "This field is required").
  - apply (bool_decide_unpack _). vm_compute. exact I.
  - reflexivity.
Defined.
